(** * discord-reels-reposter: the download, compress and upload pipeline

    A shallow embedding of [utils/compressor.py], [utils/downloader.py] and
    [cogs/video_handler.py].

    - Python [int] is [Z]; Python [float] is IEEE-754 binary64, taken from the
      Standard Library's [SpecFloat] (round to nearest even, infinities, NaN).
    - Python [str] is [string], one [ascii] per character.
    - The local file system is a finite map from paths to files.
    - Exceptions are an explicit [result] type; the external tools (ffprobe,
      ffmpeg, yt-dlp, the chat client) are oracles the functions are
      parameterised by.
    - Every effect the functions perform is appended to a trace together with
      the file system it leaves behind. *)

From Stdlib Require Import ZArith Lia List Bool String Ascii.
From Stdlib Require Import Floats.
From Stdlib Require Import Reals Lra.
From stdpp Require Import gmap strings list.

Open Scope Z_scope.

Set Warnings "-clear-no-such-hyp".

(** ** Python values and exceptions *)

Module Py.

Inductive exn :=
| ZeroDivisionError
| OverflowError
| ValueError
| FileNotFoundError.

Inductive result (A : Type) :=
| Ok (a : A)
| Raise (e : exn).
Arguments Ok {A} a.
Arguments Raise {A} e.

Definition bind {A B} (r : result A) (k : A -> result B) : result B :=
  match r with
  | Ok a => k a
  | Raise e => Raise e
  end.

Definition raises {A} (r : result A) : Prop :=
  match r with Ok _ => False | Raise _ => True end.

(** *** [float]: binary64 *)

Definition prec : Z := 53.
Definition emax : Z := 1024.

Definition float_mul : spec_float -> spec_float -> spec_float := SFmul prec emax.

(** [x / y] on floats: a zero divisor of either sign raises. *)
Definition float_truediv (x y : spec_float) : result spec_float :=
  match y with
  | S754_zero _ => Raise ZeroDivisionError
  | _ => Ok (SFdiv prec emax x y)
  end.

(** The implicit conversion of an [int] operand in [int * float]: correctly
    rounded, [OverflowError] when the integer is beyond the largest float. *)
Definition float_of_int (z : Z) : result spec_float :=
  match binary_normalize prec emax z 0 false with
  | S754_infinity _ => Raise OverflowError
  | f => Ok f
  end.

(** [int(x)] on a float: truncation toward zero; NaN and the infinities
    raise. *)
Definition int_of_float (x : spec_float) : result Z :=
  match x with
  | S754_zero _ => Ok 0
  | S754_finite s m e =>
      Ok (Z.quot (cond_Zopp s (Zpos m) * 2 ^ Z.max 0 e) (2 ^ Z.max 0 (- e)))
  | S754_infinity _ => Raise OverflowError
  | S754_nan => Raise ValueError
  end.

(** [int * float]. *)
Definition int_mul_float (z : Z) (y : spec_float) : result spec_float :=
  bind (float_of_int z) (fun x => Ok (float_mul x y)).

(** The mathematical floor of a finite float (the value of
    [S754_finite s m e] is [(-1)^s * m * 2^e]); used in statements only. *)
Definition floor (x : spec_float) : option Z :=
  match x with
  | S754_zero _ => Some 0
  | S754_finite s m e =>
      Some ((cond_Zopp s (Zpos m) * 2 ^ Z.max 0 e) / 2 ^ Z.max 0 (- e))
  | _ => None
  end.

(** The float literals of the source, as the binary64 values the
    interpreter reads them as: [0.85], [0.8] and [0.6]. *)
Definition f0_85 : spec_float :=
  Eval vm_compute in Prim2SF 0x1.b333333333333p-1%float.
Definition f0_8 : spec_float :=
  Eval vm_compute in Prim2SF 0x1.999999999999ap-1%float.
Definition f0_6 : spec_float :=
  Eval vm_compute in Prim2SF 0x1.3333333333333p-1%float.

End Py.

(** ** [str] slicing and [os.path.splitext] *)

Module Path.

Fixpoint take (n : nat) (s : string) : string :=
  match n, s with
  | S n', String a s' => String a (take n' s')
  | _, _ => EmptyString
  end.

Fixpoint drop (n : nat) (s : string) : string :=
  match n, s with
  | S n', String _ s' => drop n' s'
  | _, _ => s
  end.

(** [s.rfind(c)]: the highest index of [c] in [s], [-1] when absent. *)
Fixpoint rfind (c : ascii) (s : string) : Z :=
  match s with
  | EmptyString => -1
  | String a s' =>
      let r := rfind c s' in
      if 0 <=? r then r + 1 else if Ascii.eqb a c then 0 else -1
  end.

(** The [while filenameIndex < dotIndex] loop of [genericpath._splitext]:
    [true] when one of the [n] characters from [filenameIndex] on is not
    the extension separator (the loop returns the split there). *)
Fixpoint finds_non_dot (p : string) (filenameIndex n : nat) : bool :=
  match n with
  | O => false
  | S n' =>
      match String.get filenameIndex p with
      | Some c =>
          if Ascii.eqb c "." then finds_non_dot p (S filenameIndex) n' else true
      | None => true
      end
  end.

(** [os.path.splitext] on POSIX ([sep = '/'], no [altsep], [extsep = '.']). *)
Definition splitext (p : string) : string * string :=
  let sepIndex := rfind "/" p in
  let dotIndex := rfind "." p in
  if (sepIndex <? dotIndex)
       && finds_non_dot p (Z.to_nat (sepIndex + 1))
            (Z.to_nat (dotIndex - (sepIndex + 1)))
  then (take (Z.to_nat dotIndex) p, drop (Z.to_nat dotIndex) p)
  else (p, EmptyString).

End Path.

(** ** The world: file system and trace *)

Record file := File { file_size : Z; file_data : N }.

(** One rung of the compression ladder. *)
Record settings := Settings
  { video_bitrate : Z; crf : Z; preset : string }.

(** What [ffmpeg.run] did: how it returned, and the file it left at the
    output path ([None]: it wrote nothing). A failed run may leave a partial
    file behind. *)
Inductive run_status := RunOk | RunFfmpegError | RunException.
Record run_result := RunResult
  { run_status_of : run_status; run_output : option file }.

Inductive level := INFO | WARNING | ERROR.

(** The log records, by the line that writes them; the text itself is not
    modelled. *)
Inductive message :=
| MsgDownloading
| MsgDownloadComplete
| MsgDownloadError
| MsgMissingPermission
| MsgExceedsLimit
| MsgCompressionOk
| MsgCompressionFailed
| MsgUploaded
| MsgUploadFailed
| MsgUploadUnexpected
| MsgDownloadFailed
| MsgTooLarge
| MsgNotCompressed
| MsgStart
| MsgOriginal
| MsgProbeFailed
| MsgAttempt (attempt : nat)
| MsgCompressedSize (attempt : nat)
| MsgSuccessful (attempt : nat)
| MsgStillTooLarge (attempt : nat)
| MsgFfmpegError (attempt : nat)
| MsgUnexpectedError (attempt : nat)
| MsgExhausted
| MsgCleanedUp (path : string).

Inductive reaction := Downloading | Compressing | Succeeded | Failed.

Inductive reply :=
| ReplyFile (filename : string) (path : string)
| ReplyDownloadFailed
| ReplyTooLarge (filesize : Z)
| ReplyCompressionFailed (filesize : Z)
| ReplyUploadHTTPError
| ReplyUploadUnexpected.

Inductive event :=
| EvLog (l : level) (m : message)
| EvRemove (path : string)
| EvRun (attempt : nat) (s : settings) (input output : string)
| EvDownload (url : string)
| EvCleanup (path : string)
| EvReaction (r : reaction)
| EvReply (r : reply).

(** A trace entry: an effect, and the file system as it is once the effect is
    done. *)
Definition entry : Type := event * gmap string file.

(** Effectful code: a function of the file system that returns its value, the
    new file system, and the entries it appended to the trace. *)
Definition io (A : Type) : Type :=
  gmap string file -> A * gmap string file * list entry.

Definition io_ret {A} (a : A) : io A := fun fs => (a, fs, []).

Definition io_bind {A B} (m : io A) (k : A -> io B) : io B :=
  fun fs =>
    let '(a, fs1, t1) := m fs in
    let '(b, fs2, t2) := k a fs1 in
    (b, fs2, t1 ++ t2).

Declare Scope io_scope.
Delimit Scope io_scope with io.
Notation "x <- m ;; k" := (io_bind m (fun x => k))
  (at level 100, m at next level, right associativity) : io_scope.
Notation "m ;; k" := (io_bind m (fun _ => k))
  (at level 100, right associativity) : io_scope.
Open Scope io_scope.

Definition effect (e : event) (f : gmap string file -> gmap string file) : io unit :=
  fun fs => (tt, f fs, [(e, f fs)]).

(** An effect that is recorded and leaves the file system as it is. *)
Definition record (e : event) : io unit := effect e (fun fs => fs).

Definition log (l : level) (m : message) : io unit := record (EvLog l m).

(** [os.path.exists], [os.path.getsize], [os.remove]. *)
Definition path_exists (p : string) : io bool :=
  fun fs => (bool_decide (is_Some (fs !! p)), fs, []).

Definition getsize (p : string) : io (option Z) :=
  fun fs => (file_size <$> fs !! p, fs, []).

Definition os_remove (p : string) : io unit := effect (EvRemove p) (delete p).

Definition value_of {A} (r : A * gmap string file * list entry) : A := r.1.1.
Definition fs_of {A} (r : A * gmap string file * list entry) : gmap string file := r.1.2.
Definition trace_of {A} (r : A * gmap string file * list entry) : list entry := r.2.
Definition events_of {A} (r : A * gmap string file * list entry) : list event :=
  fst <$> trace_of r.

(** ** [utils/compressor.py] *)

Module Compressor.
Import Py.

(** What the [try] block around [ffmpeg.probe] yields: an exception of the
    probe itself, or the two fields it reads; a field is [None] when its
    lookup or its conversion ([float(...)], [int(...)]) raises. *)
Inductive probe_result :=
| ProbeRaises
| ProbeFormat (duration : option spec_float) (size : option Z).

(** The encode tool: what the [attempt]-th [ffmpeg.run] does with the given
    settings. *)
Definition encoder : Type := nat -> settings -> run_result.

(** [output_path = f"{base}_compressed{ext}"]. *)
Definition output_path_of (input_path : string) : string :=
  let '(base, ext) := Path.splitext input_path in
  (base ++ "_compressed" ++ ext)%string.

(** [int((target_size_bytes * 8 * safety_margin) / duration)]. *)
Definition safety_margin : spec_float := f0_85.

Definition target_bitrate_of (target_size_bytes : Z) (duration : spec_float)
  : result Z :=
  Py.bind (int_mul_float (target_size_bytes * 8) safety_margin) (fun num =>
  Py.bind (float_truediv num duration) int_of_float).

Definition compression_levels (target_bitrate : Z) : result (list settings) :=
  Py.bind (Py.bind (int_mul_float target_bitrate f0_8) int_of_float) (fun b2 =>
  Py.bind (Py.bind (int_mul_float target_bitrate f0_6) int_of_float) (fun b3 =>
  Ok [ Settings target_bitrate 28 "medium";
       Settings b2 32 "fast";
       Settings b3 35 "veryfast" ])).

(** [l[:n]] for a Python [int] [n]: a negative bound counts from the end. *)
Definition slice_to {A} (n : Z) (l : list A) : list A :=
  if n <? 0 then take (Z.to_nat (Z.of_nat (length l) + n)) l
  else take (Z.to_nat n) l.

(** [ffmpeg.run(stream, overwrite_output=True, quiet=True)]: the tool
    writes to the output path only. *)
Definition ffmpeg_run (enc : encoder) (attempt : nat) (s : settings)
    (input_path output_path : string) : io run_status :=
  let r := enc attempt s in
  effect (EvRun attempt s input_path output_path)
    (fun fs => match run_output r with
               | Some f => <[output_path := f]> fs
               | None => fs
               end) ;;
  io_ret (run_status_of r).

(** The body of the [for] loop, from attempt number [attempt] on, over the
    rungs still to try; [Some path] is the [return output_path] inside the
    loop, [None] is falling out of it. *)
Fixpoint attempts (enc : encoder) (input_path output_path : string)
    (target_size_bytes : Z) (attempt : nat) (levels : list settings)
  : io (option string) :=
  match levels with
  | [] => io_ret None
  | s :: rest =>
      let next := attempts enc input_path output_path target_size_bytes
                    (S attempt) rest in
      log INFO (MsgAttempt attempt) ;;
      stale <- path_exists output_path ;;
      (if stale : bool then os_remove output_path else io_ret tt) ;;
      st <- ffmpeg_run enc attempt s input_path output_path ;;
      match st with
      | RunOk =>
          sz <- getsize output_path ;;
          match sz with
          | Some output_size =>
              log INFO (MsgCompressedSize attempt) ;;
              if output_size <=? target_size_bytes then
                log INFO (MsgSuccessful attempt) ;;
                io_ret (Some output_path)
              else
                log INFO (MsgStillTooLarge attempt) ;;
                next
          | None => next
          end
      | RunFfmpegError => log ERROR (MsgFfmpegError attempt) ;; next
      | RunException => log ERROR (MsgUnexpectedError attempt) ;; next
      end
  end.

Definition compress_video (probe : probe_result) (enc : encoder)
    (input_path : string) (target_size_bytes : Z) (max_attempts : Z)
  : io (result (option string)) :=
  log INFO MsgStart ;;
  let output_path := output_path_of input_path in
  match probe with
  | ProbeFormat (Some duration) (Some current_size) =>
      log INFO MsgOriginal ;;
      match Py.bind (target_bitrate_of target_size_bytes duration)
              compression_levels with
      | Raise e => io_ret (Raise e)
      | Ok levels =>
          r <- attempts enc input_path output_path target_size_bytes 1%nat
                 (slice_to max_attempts levels) ;;
          match r with
          | Some p => io_ret (Ok (Some p))
          | None =>
              log WARNING MsgExhausted ;;
              stale <- path_exists output_path ;;
              (if stale : bool then os_remove output_path else io_ret tt) ;;
              io_ret (Ok None)
          end
      end
  | _ =>
      log ERROR MsgProbeFailed ;;
      io_ret (Ok None)
  end.

End Compressor.

(** *** [get_video_info] *)

Module CompressorInfo.

(** A value of the probe's JSON, read and converted ([float(...)],
    [int(...)]): the key is absent, or what is there does not convert, or
    it converts. *)
Inductive field (A : Type) :=
| Absent
| Unconvertible
| Converted (a : A).
Arguments Absent {A}.
Arguments Unconvertible {A}.
Arguments Converted {A} a.

(** One entry of [probe['streams']]; [codec_type] is [None] when the key is
    absent. *)
Record stream := Stream
  { codec_type : option string; width : field Z; height : field Z }.

Record format := Format
  { duration : field spec_float; size : field Z; bit_rate : field Z }.

(** What [ffmpeg.probe] does: it raises, or it returns a dictionary that
    may hold the keys ['streams'] and ['format']. *)
Inductive probe_output :=
| ProbeError
| ProbeDict (streams : option (list stream)) (fmt : option format).

(** The dictionary [get_video_info] returns. *)
Record info := Info
  { info_duration : spec_float;
    info_size : Z;
    info_bitrate : Z;
    info_width : Z;
    info_height : Z }.

(** [conv(d[key])] and [conv(d.get(key, default))]; [None] when either the
    lookup or the conversion raises. *)
Definition index {A} (f : field A) : option A :=
  match f with
  | Converted a => Some a
  | Absent | Unconvertible => None
  end.

Definition get {A} (f : field A) (default : A) : option A :=
  match f with
  | Converted a => Some a
  | Absent => Some default
  | Unconvertible => None
  end.

(** [next((stream for stream in probe['streams']
          if stream['codec_type'] == 'video'), None)];
    the outer [None] is the [KeyError] of a stream without the key. *)
Fixpoint first_video (streams : list stream) : option (option stream) :=
  match streams with
  | [] => Some None
  | s :: rest =>
      match codec_type s with
      | None => None
      | Some t => if String.eqb t "video" then Some (Some s) else first_video rest
      end
  end.

(** [get_video_info]: every exception ends in the one [except] branch,
    which logs and returns [None]; the log record is not modelled. *)
Definition get_video_info (probe : probe_output) : option info :=
  match probe with
  | ProbeError => None
  | ProbeDict streams fmt =>
      streams ← streams;
      video_info ← first_video streams;
      fmt ← fmt;
      d ← index (duration fmt);
      sz ← index (size fmt);
      br ← get (bit_rate fmt) 0;
      w ← match video_info with Some v => get (width v) 0 | None => Some 0 end;
      h ← match video_info with Some v => get (height v) 0 | None => Some 0 end;
      Some (Info d sz br w h)
  end.

End CompressorInfo.

(** ** [config.py] *)

Record config := Config
  { MAX_FILE_SIZE : Z;
    ENABLE_COMPRESSION : bool;
    MAX_COMPRESSION_ATTEMPTS : Z }.

Definition default_config : config :=
  {| MAX_FILE_SIZE := 8 * 1024 * 1024;
     ENABLE_COMPRESSION := true;
     MAX_COMPRESSION_ATTEMPTS := 3 |}.

(** ** [utils/downloader.py] *)

Module Downloader.

(** What yt-dlp does with the URL: it fails (both [except] branches return
    [None]), or it leaves one file on disk, with a title. *)
Inductive fetch_result :=
| FetchFails
| Fetched (filepath : string) (f : file) (title : string).

Record video_info := VideoInfo
  { filepath : string; filesize : Z; title : string }.

Definition download_video (fetch : fetch_result) (url : string)
  : io (option video_info) :=
  log INFO MsgDownloading ;;
  match fetch with
  | Fetched path f t =>
      effect (EvDownload url) <[path := f]> ;;
      sz <- getsize path ;;
      match sz with
      | Some n =>
          log INFO MsgDownloadComplete ;;
          io_ret (Some (VideoInfo path n t))
      | None => log ERROR MsgDownloadError ;; io_ret None
      end
  | FetchFails => log ERROR MsgDownloadError ;; io_ret None
  end.

(** [cleanup_file]: the call is recorded, then the file is removed when it
    is there; any exception is logged and swallowed. *)
Definition cleanup_file (path : string) : io unit :=
  record (EvCleanup path) ;;
  there <- path_exists path ;;
  if there : bool then os_remove path ;; log INFO (MsgCleanedUp path)
  else io_ret tt.

End Downloader.

(** ** [re] patterns and [utils/validators.py] *)

Module Re.

(** Python's [re], as far as the patterns of [config.py] use it. A string is
    a sequence of characters with code points below 256, one [ascii] each;
    on these [\d] is [[0-9]] and the whitespace of [str.split] is the
    twelve characters of [Validators.isspace]. *)

(** What matches one character: [.] (anything but a newline, no flag is
    set), or a class [[...]] or [[^...]] of ranges. *)

Inductive atom :=
| Dot
| Class (negated : bool) (ranges : list (ascii * ascii)).

Definition in_ranges (ranges : list (ascii * ascii)) (c : ascii) : bool :=
  existsb (fun '(lo, hi) => (N_of_ascii lo <=? N_of_ascii c)%N
                            && (N_of_ascii c <=? N_of_ascii hi)%N) ranges.

Definition accepts (a : atom) (c : ascii) : bool :=
  match a with
  | Dot => negb (Ascii.eqb c "010")
  | Class negated ranges => xorb negated (in_ranges ranges c)
  end.

(** A pattern; [Never], which no string matches, only arises in
    derivatives. Groups are not recorded: the validators only test whether
    there is a match. *)
Inductive regex :=
| Never
| Empty
| Atom (a : atom)
| Seq (r1 r2 : regex)
| Alt (r1 r2 : regex)
| Star (r : regex).

(** A literal character, a literal string, [r?], [r+], and a sequence. *)
Definition Chr (c : ascii) : regex := Atom (Class false [(c, c)]).

Fixpoint Lit (s : string) : regex :=
  match s with
  | EmptyString => Empty
  | String c s' => Seq (Chr c) (Lit s')
  end.

Definition Opt (r : regex) : regex := Alt r Empty.
Definition Plus (r : regex) : regex := Seq r (Star r).
Definition cat (rs : list regex) : regex := fold_right Seq Empty rs.

(** Whether the pattern matches the empty string, and what is left of it
    once [c] has been read. *)
Fixpoint nullable (r : regex) : bool :=
  match r with
  | Never | Atom _ => false
  | Empty | Star _ => true
  | Seq r1 r2 => nullable r1 && nullable r2
  | Alt r1 r2 => nullable r1 || nullable r2
  end.

Fixpoint deriv (c : ascii) (r : regex) : regex :=
  match r with
  | Never | Empty => Never
  | Atom a => if accepts a c then Empty else Never
  | Seq r1 r2 =>
      if nullable r1 then Alt (Seq (deriv c r1) r2) (deriv c r2)
      else Seq (deriv c r1) r2
  | Alt r1 r2 => Alt (deriv c r1) (deriv c r2)
  | Star r1 => Seq (deriv c r1) (Star r1)
  end.

(** [pattern.match(s) is not None]: the pattern matches at the start of
    [s], not necessarily up to its end. *)
Fixpoint matches (r : regex) (s : string) : bool :=
  nullable r
  || match s with
     | EmptyString => false
     | String c s' => matches (deriv c r) s'
     end.

End Re.

(** The patterns of [config.py]. *)

Module ConfigPatterns.
Import Re.

(** [[A-Za-z0-9_-]], [[A-Za-z0-9]], [\d] and [[^/]]. *)
Definition id_char : atom :=
  Class false [("A", "Z"); ("a", "z"); ("0", "9"); ("_", "_"); ("-", "-")]%char.
Definition alnum : atom := Class false [("A", "Z"); ("a", "z"); ("0", "9")]%char.
Definition digit : atom := Class false [("0", "9")]%char.
Definition not_slash : atom := Class true [("/", "/")]%char.

Definition INSTAGRAM_PATTERNS : list regex :=
  [ (* https?://(?:www\.)?instagram\.com/reel/([A-Za-z0-9_-]+)/?.* *)
    cat [Lit "http"; Opt (Chr "s"); Lit "://"; Opt (Lit "www.");
         Lit "instagram.com/reel/"; Plus (Atom id_char);
         Opt (Chr "/"); Star (Atom Dot)];
    (* https?://(?:www\.)?instagram\.com/p/([A-Za-z0-9_-]+)/?.* *)
    cat [Lit "http"; Opt (Chr "s"); Lit "://"; Opt (Lit "www.");
         Lit "instagram.com/p/"; Plus (Atom id_char);
         Opt (Chr "/"); Star (Atom Dot)] ].

Definition TIKTOK_PATTERNS : list regex :=
  [ (* https?://(?:www\.)?tiktok\.com/@[^/]+/video/(\d+)/?.* *)
    cat [Lit "http"; Opt (Chr "s"); Lit "://"; Opt (Lit "www.");
         Lit "tiktok.com/@"; Plus (Atom not_slash); Lit "/video/";
         Plus (Atom digit); Opt (Chr "/"); Star (Atom Dot)];
    (* https?://(?:vm\.)?tiktok\.com/([A-Za-z0-9]+)/?.* *)
    cat [Lit "http"; Opt (Chr "s"); Lit "://"; Opt (Lit "vm.");
         Lit "tiktok.com/"; Plus (Atom alnum);
         Opt (Chr "/"); Star (Atom Dot)];
    (* https?://(?:www\.)?tiktok\.com/t/([A-Za-z0-9]+)/?.* *)
    cat [Lit "http"; Opt (Chr "s"); Lit "://"; Opt (Lit "www.");
         Lit "tiktok.com/t/"; Plus (Atom alnum);
         Opt (Chr "/"); Star (Atom Dot)] ].

Definition YOUTUBE_PATTERNS : list regex :=
  [ (* https?://(?:www\.)?youtube\.com/shorts/([A-Za-z0-9_-]+)/?.* *)
    cat [Lit "http"; Opt (Chr "s"); Lit "://"; Opt (Lit "www.");
         Lit "youtube.com/shorts/"; Plus (Atom id_char);
         Opt (Chr "/"); Star (Atom Dot)];
    (* https?://(?:www\.)?youtu\.be/([A-Za-z0-9_-]+)/?.* *)
    cat [Lit "http"; Opt (Chr "s"); Lit "://"; Opt (Lit "www.");
         Lit "youtu.be/"; Plus (Atom id_char);
         Opt (Chr "/"); Star (Atom Dot)] ].

End ConfigPatterns.

Module Validators.
Import Re ConfigPatterns.

(** [str.isspace] on one character. *)
Definition isspace (c : ascii) : bool :=
  let n := N_of_ascii c in
  ((9 <=? n) && (n <=? 13) || (28 <=? n) && (n <=? 32)
   || (n =? 133) || (n =? 160))%N.

(** [s.split()]: the maximal runs of characters that are not whitespace;
    [word] is the run being read. *)
Fixpoint split_from (word : string) (s : string) : list string :=
  match s with
  | EmptyString => if String.eqb word "" then [] else [word]
  | String c s' =>
      if isspace c then
        if String.eqb word "" then split_from "" s'
        else word :: split_from "" s'
      else split_from (word ++ String c "") s'
  end.

Definition split (s : string) : list string := split_from "" s.

(** The validators; the log record the two extractors write for each URL
    they keep is not modelled. *)
Definition is_instagram_url (url : string) : bool :=
  existsb (fun pattern => matches pattern url) INSTAGRAM_PATTERNS.

Definition is_tiktok_url (url : string) : bool :=
  existsb (fun pattern => matches pattern url) TIKTOK_PATTERNS.

Definition is_supported_url (url : string) : bool * string :=
  if is_instagram_url url then (true, "Instagram")
  else if is_tiktok_url url then (true, "TikTok")
  else (false, "").

Definition extract_video_urls (message : string) : list (string * string) :=
  fold_left
    (fun urls word =>
       let '(is_supported, platform) := is_supported_url word in
       if is_supported : bool then urls ++ [(word, platform)] else urls)
    (split message) [].

Definition extract_instagram_urls (message : string) : list string :=
  fold_left
    (fun urls word => if is_instagram_url word then urls ++ [word] else urls)
    (split message) [].

End Validators.

(** ** [cogs/video_handler.py] *)

Module VideoHandler.
Import Py Downloader.

(** What sending the attachment does: it goes through, or the client raises
    [discord.errors.HTTPException], or something else. *)
Inductive upload_result := UploadOk | UploadHTTPException | UploadException.

(** The chat client as the handler uses it: [add_reaction] succeeds or
    raises [Forbidden]; the reply that carries the file may fail; the text
    replies go through. *)
Record client := Client
  { may_react : reaction -> bool;
    upload : upload_result }.

(** [process_video_url] returns nothing; the value here names the exit it
    took. *)
Inductive outcome :=
| Delivered (path : string)
| DownloadFailed
| TooLarge (original_size : Z)
| CompressionFailed (original_size : Z)
| UploadFailed.

Definition add_reaction (chat : client) (r : reaction) (on_forbidden : io unit)
  : io unit :=
  if may_react chat r then record (EvReaction r) else on_forbidden.

Definition message_reply (r : reply) : io unit := record (EvReply r).

Definition handle_download_error (chat : client) : io unit :=
  message_reply ReplyDownloadFailed ;;
  add_reaction chat Failed (io_ret tt) ;;
  log WARNING MsgDownloadFailed.

Definition handle_file_too_large (chat : client) (filesize : Z) : io unit :=
  message_reply (ReplyTooLarge filesize) ;;
  add_reaction chat Failed (io_ret tt) ;;
  log WARNING MsgTooLarge.

Definition handle_compression_failed (chat : client) (filesize : Z) : io unit :=
  message_reply (ReplyCompressionFailed filesize) ;;
  add_reaction chat Failed (io_ret tt) ;;
  log WARNING MsgNotCompressed.

(** [f"{title[:50]}.mp4"]. *)
Definition attachment_name (title : string) : string :=
  (Path.take 50 title ++ ".mp4")%string.

(** The [try] / [except] / [finally] that uploads [filepath]. *)
Definition upload_video (chat : client) (filepath title : string) : io outcome :=
  readable <- path_exists filepath ;;
  o <- match (if readable : bool then upload chat else UploadException) with
       | UploadOk =>
           message_reply (ReplyFile (attachment_name title) filepath) ;;
           add_reaction chat Succeeded (io_ret tt) ;;
           log INFO MsgUploaded ;;
           io_ret (Delivered filepath)
       | UploadHTTPException =>
           log ERROR MsgUploadFailed ;;
           message_reply ReplyUploadHTTPError ;;
           add_reaction chat Failed (io_ret tt) ;;
           io_ret UploadFailed
       | UploadException =>
           log ERROR MsgUploadUnexpected ;;
           message_reply ReplyUploadUnexpected ;;
           add_reaction chat Failed (io_ret tt) ;;
           io_ret UploadFailed
       end ;;
  cleanup_file filepath ;;
  io_ret o.

(** [if compressed_path:] on an [Optional[str]]. *)
Definition truthy (p : option string) : bool :=
  match p with
  | Some s => negb (String.eqb s "")
  | None => false
  end.

Definition process_video_url (cfg : config) (chat : client)
    (fetch : fetch_result) (probe : Compressor.probe_result)
    (enc : Compressor.encoder) (url : string) : io (result outcome) :=
  add_reaction chat Downloading (log WARNING MsgMissingPermission) ;;
  video_info <- download_video fetch url ;;
  match video_info with
  | None => handle_download_error chat ;; io_ret (Ok DownloadFailed)
  | Some (VideoInfo filepath filesize title) =>
      if MAX_FILE_SIZE cfg <? filesize then
        if ENABLE_COMPRESSION cfg then
          log INFO MsgExceedsLimit ;;
          add_reaction chat Compressing (io_ret tt) ;;
          compressed_path <- Compressor.compress_video probe enc filepath
                               (MAX_FILE_SIZE cfg) (MAX_COMPRESSION_ATTEMPTS cfg) ;;
          match compressed_path with
          | Raise e => io_ret (Raise e)
          | Ok compressed_path =>
              match compressed_path, truthy compressed_path with
              | Some new_path, true =>
                  cleanup_file filepath ;;
                  sz <- getsize new_path ;;
                  match sz with
                  | None => io_ret (Raise FileNotFoundError)
                  | Some _ =>
                      log INFO MsgCompressionOk ;;
                      o <- upload_video chat new_path title ;;
                      io_ret (Ok o)
                  end
              | _, _ =>
                  log WARNING MsgCompressionFailed ;;
                  handle_compression_failed chat filesize ;;
                  cleanup_file filepath ;;
                  io_ret (Ok (CompressionFailed filesize))
              end
          end
        else
          handle_file_too_large chat filesize ;;
          cleanup_file filepath ;;
          io_ret (Ok (TooLarge filesize))
      else
        o <- upload_video chat filepath title ;;
        io_ret (Ok o)
  end.

End VideoHandler.


(** *** [on_message] *)

Module Listener.
Import Py Validators VideoHandler.

(** The message as the listener reads it: whether the bot wrote it, the
    name of its guild ([None] outside a guild), its text. *)
Record chat_message := ChatMessage
  { from_bot : bool; guild : option string; content : string }.

(** What the outside world does while one URL is processed. *)
Record environment := Environment
  { chat : client;
    fetch : Downloader.fetch_result;
    probe : Compressor.probe_result;
    enc : Compressor.encoder }.

(** The [for] loop over the URLs, from the [k]-th on; an exception of
    [process_video_url] leaves the loop. The platform only appears in the
    text of a reply. *)
Fixpoint process_urls (cfg : config) (world : nat -> environment) (k : nat)
    (urls : list (string * string)) : io (result unit) :=
  match urls with
  | [] => io_ret (Ok tt)
  | (url, platform) :: rest =>
      r <- process_video_url cfg (chat (world k)) (fetch (world k))
             (probe (world k)) (enc (world k)) url ;;
      match r with
      | Raise e => io_ret (Raise e)
      | Ok _ => process_urls cfg world (S k) rest
      end
  end.

(** [on_message]; the log record that counts the URLs is not modelled. *)
Definition on_message (cfg : config) (world : nat -> environment)
    (message : chat_message) : io (result unit) :=
  if from_bot message then io_ret (Ok tt)
  else
    match guild message with
    | None => io_ret (Ok tt)
    | Some _ =>
        let urls := extract_video_urls (content message) in
        match urls with
        | [] => io_ret (Ok tt)
        | _ :: _ => process_urls cfg world 0 urls
        end
    end.

End Listener.


(** * Vocabulary of the statements *)

Module Numbers.

(** A float whose sign bit is clear (NaN has none). *)
Definition sign_clear (x : spec_float) : Prop :=
  match x with
  | S754_zero s | S754_infinity s | S754_finite s _ _ => s = false
  | S754_nan => True
  end.

(** What [k] right shifts have made of the mantissa [M]: the bits shifted
    out are [rho], summed up by the round and sticky bits. *)
Definition shifted (M k : Z) (mrs : shr_record) : Prop :=
  exists rho,
    M = shr_m mrs * 2 ^ k + rho
    /\ 0 <= rho < 2 ^ k
    /\ 0 <= shr_m mrs
    /\ (shr_r mrs = true <-> 2 ^ k <= 2 * rho)
    /\ (shr_s mrs = false -> rho = 0 \/ 2 * rho = 2 ^ k).

(** The real value of a positive float. *)
Definition F2R (m : positive) (e : Z) : R := (IZR (Zpos m) * powerRZ 2 e)%R.

(** The unit roundoff of binary64. *)
Definition u : R := (/ IZR (2 ^ 53))%R.

(** A float that is a zero or a finite number: neither an infinity nor
    NaN. *)
Definition finite_float (x : spec_float) : Prop :=
  match x with
  | S754_zero _ | S754_finite _ _ _ => True
  | _ => False
  end.

(** A positive finite float of [2^k] or more: its magnitude, the number of
    bits of the mantissa plus the exponent, is above [k]. *)
Definition magnitude_above (k : Z) (D : spec_float) : Prop :=
  match D with
  | S754_finite false m e => k < Zpos (digits2_pos m) + e
  | _ => False
  end.

End Numbers.

Module Language.
Import Re.

(** The strings a pattern matches in full. *)
Inductive Lang : regex -> string -> Prop :=
| Lang_Empty : Lang Empty ""
| Lang_Atom a c : accepts a c = true -> Lang (Atom a) (String c "")
| Lang_Seq r1 r2 s1 s2 : Lang r1 s1 -> Lang r2 s2 -> Lang (Seq r1 r2) (s1 ++ s2)
| Lang_Alt_l r1 r2 s : Lang r1 s -> Lang (Alt r1 r2) s
| Lang_Alt_r r1 r2 s : Lang r2 s -> Lang (Alt r1 r2) s
| Lang_Star_nil r : Lang (Star r) ""
| Lang_Star_cons r s1 s2 :
    Lang r s1 -> Lang (Star r) s2 -> Lang (Star r) (s1 ++ s2).

(** The strings a pattern matches a prefix of. *)
Definition Pre (r : regex) (s : string) : Prop :=
  exists p t, s = (p ++ t)%string /\ Lang r p.

(** Every character of [s] passes [f]. *)
Fixpoint every (f : ascii -> bool) (s : string) : bool :=
  match s with
  | EmptyString => true
  | String c s' => f c && every f s'
  end.

End Language.

Module Ladder.
Import Py Compressor.

(** The [ffmpeg.run] calls of a trace, in order: attempt number and rung. *)
Definition runs (es : list event) : list (nat * settings) :=
  omap (fun e => match e with
                 | EvRun a s _ _ => Some (a, s)
                 | _ => None
                 end) es.

(** The rungs the loop of [compress_video] iterates over, when it gets there:
    the probe went through and the bitrates were computed. *)
Definition ladder_of (probe : probe_result) (target_size_bytes max_attempts : Z)
  : option (list settings) :=
  match probe with
  | ProbeFormat (Some duration) (Some _) =>
      match Py.bind (target_bitrate_of target_size_bytes duration)
              compression_levels with
      | Ok levels => Some (slice_to max_attempts levels)
      | Raise _ => None
      end
  | _ => None
  end.

(** What a trace entry of [compress_video] may touch: it logs, it removes the
    output path, it runs the tool from the input to the output path. *)
Definition touches_only (input_path output_path : string) (e : event) : Prop :=
  match e with
  | EvLog _ _ => True
  | EvRemove p => p = output_path
  | EvRun _ _ i o => i = input_path /\ o = output_path
  | _ => False
  end.

(** An entry that touches the output path only and leaves every other path
    as it is in [fs]. *)
Definition framed (input_path output_path : string) (fs : gmap string file)
    (en : entry) : Prop :=
  touches_only input_path output_path en.1
  /\ delete output_path en.2 = delete output_path fs.

Section OneAttempt.
Variable enc : encoder.
Variables input_path output_path : string.
Variable target_size_bytes : Z.

(** The candidate of attempt [a] is there and within the budget. *)
Definition attempt_fits (a : nat) (s : settings) : bool :=
  match enc a s with
  | RunResult RunOk (Some f) => file_size f <=? target_size_bytes
  | _ => false
  end.

(** The file system once the [ffmpeg.run] of attempt [a] has returned. *)
Definition after_run (a : nat) (s : settings) (fs : gmap string file)
  : gmap string file :=
  match run_output (enc a s) with
  | Some f => <[output_path := f]> (delete output_path fs)
  | None => delete output_path fs
  end.

(** What attempt [a] logs after the run. *)
Definition verdict_log (a : nat) (s : settings) : list event :=
  match enc a s with
  | RunResult RunOk (Some f) =>
      [EvLog INFO (MsgCompressedSize a);
       EvLog INFO (if file_size f <=? target_size_bytes
                   then MsgSuccessful a else MsgStillTooLarge a)]
  | RunResult RunOk None => []
  | RunResult RunFfmpegError _ => [EvLog ERROR (MsgFfmpegError a)]
  | RunResult RunException _ => [EvLog ERROR (MsgUnexpectedError a)]
  end.

(** The entries of one pass through the loop body. *)
Definition attempt_trace (a : nat) (s : settings) (fs : gmap string file)
  : list entry :=
  (EvLog INFO (MsgAttempt a), fs)
  :: (if bool_decide (is_Some (fs !! output_path))
      then [(EvRemove output_path, delete output_path fs)] else [])
  ++ (EvRun a s input_path output_path, after_run a s fs)
  :: ((fun e => (e, after_run a s fs)) <$> verdict_log a s).

End OneAttempt.

(** The rungs with their attempt numbers, counted from [a]:
    [enumerate(levels, a)]. *)
Fixpoint numbered (a : nat) (levels : list settings) : list (nat * settings) :=
  match levels with
  | [] => []
  | s :: rest => (a, s) :: numbered (S a) rest
  end.


End Ladder.

(** ** What the handler's trace shows *)

Module Pipeline.

(** The notifications sent, in order. *)
Definition replies (es : list event) : list reply :=
  omap (fun e => match e with EvReply r => Some r | _ => None end) es.

(** The paths [cleanup_file] was called on, in order. *)
Definition cleanups (es : list event) : list string :=
  omap (fun e => match e with EvCleanup p => Some p | _ => None end) es.

(** The files on disk that were not there when the invocation started. *)
Definition created (fs0 fs : gmap string file) : gset string :=
  dom fs ∖ dom fs0.

(** An event that neither notifies nor cleans up. *)
Definition silent (e : event) : Prop :=
  match e with
  | EvReply _ | EvCleanup _ => False
  | _ => True
  end.

(** The notification that goes with an exit of [process_video_url]. *)
Definition notifies (o : VideoHandler.outcome) (rp : reply) : Prop :=
  match o, rp with
  | VideoHandler.Delivered p, ReplyFile _ p' => p = p'
  | VideoHandler.DownloadFailed, ReplyDownloadFailed => True
  | VideoHandler.TooLarge n, ReplyTooLarge m => n = m
  | VideoHandler.CompressionFailed n, ReplyCompressionFailed m => n = m
  | VideoHandler.UploadFailed, (ReplyUploadHTTPError | ReplyUploadUnexpected) => True
  | _, _ => False
  end.

(** An entry whose file system has at most one file that was not there in
    [fs0]. *)
Definition one_asset (fs0 : gmap string file) (en : entry) : Prop :=
  (size (created fs0 en.2) <= 1)%nat.

(** An entry whose file system has no file outside [D]. *)
Definition below (D : gset string) (en : entry) : Prop := dom en.2 ⊆ D.

(** A stretch of the trace during which the file system stays [fs]. *)
Definition steady (fs : gmap string file) (t : list entry) : Prop :=
  Forall (fun en : entry => en.2 = fs) t.

(** The entries of one [add_reaction] that is allowed or silently refused. *)
Definition reaction_entries (chat : VideoHandler.client) (r : reaction)
    (fs : gmap string file) : list entry :=
  if VideoHandler.may_react chat r then [(EvReaction r, fs)] else [].

(** The entries of [process_video_url] up to the size check, for a download
    that left [f] at [path]. *)
Definition prelude (chat : VideoHandler.client) (url path : string) (f : file)
    (fs : gmap string file) : list entry :=
  (if VideoHandler.may_react chat Downloading
   then [(EvReaction Downloading, fs)]
   else [(EvLog WARNING MsgMissingPermission, fs)])
  ++ [(EvLog INFO MsgDownloading, fs);
      (EvDownload url, <[path := f]> fs);
      (EvLog INFO MsgDownloadComplete, <[path := f]> fs)].

(** How the upload of [path] ends: a file that cannot be opened ends in the
    catch-all [except] branch. *)
Definition upload_verdict (chat : VideoHandler.client) (path : string)
    (fs : gmap string file) : VideoHandler.upload_result :=
  if bool_decide (is_Some (fs !! path)) then VideoHandler.upload chat
  else VideoHandler.UploadException.

(** The entries of the [try] and [except] blocks of the upload. *)
Definition upload_body (chat : VideoHandler.client) (path title : string)
    (fs : gmap string file) : list entry :=
  match upload_verdict chat path fs with
  | VideoHandler.UploadOk =>
      (EvReply (ReplyFile (VideoHandler.attachment_name title) path), fs)
      :: reaction_entries chat Succeeded fs ++ [(EvLog INFO MsgUploaded, fs)]
  | VideoHandler.UploadHTTPException =>
      (EvLog ERROR MsgUploadFailed, fs) :: (EvReply ReplyUploadHTTPError, fs)
      :: reaction_entries chat Failed fs
  | VideoHandler.UploadException =>
      (EvLog ERROR MsgUploadUnexpected, fs) :: (EvReply ReplyUploadUnexpected, fs)
      :: reaction_entries chat Failed fs
  end.

Definition upload_outcome (chat : VideoHandler.client) (path : string)
    (fs : gmap string file) : VideoHandler.outcome :=
  match upload_verdict chat path fs with
  | VideoHandler.UploadOk => VideoHandler.Delivered path
  | _ => VideoHandler.UploadFailed
  end.

(** The entries of one of the three [handle_...] methods. *)
Definition handler_entries (chat : VideoHandler.client) (rp : reply)
    (m : message) (fs : gmap string file) : list entry :=
  (EvReply rp, fs) :: reaction_entries chat Failed fs ++ [(EvLog WARNING m, fs)].

End Pipeline.

(** ** A concrete request, for the examples *)

Module Scenario.
Import Compressor.

Definition MiB : Z := 1024 * 1024.

Definition clip : string := "./temp_downloads/abc123.mp4".
Definition candidate : string := "./temp_downloads/abc123_compressed.mp4".

Definition original : file := File (20 * MiB) 1.

Definition disk : gmap string file := {[ clip := original ]}.

Definition sixty_seconds : spec_float := Eval vm_compute in Prim2SF 60%float.
Definition four_seconds : spec_float := Eval vm_compute in Prim2SF 4%float.
Definition zero_seconds : spec_float := S754_zero false.

Definition probe_ok : probe_result :=
  ProbeFormat (Some sixty_seconds) (Some (20 * MiB)).


(** The first attempt dies and leaves a partial file; the second produces
    7 MiB. *)
Definition second_fits : encoder :=
  fun a _ =>
    match a with
    | 2%nat => RunResult RunOk (Some (File (7 * MiB) 3))
    | _ => RunResult RunFfmpegError (Some (File 4096 4))
    end.

(** The first attempt produces 7 MiB. *)
Definition first_fits : encoder :=
  fun _ _ => RunResult RunOk (Some (File (7 * MiB) 3)).

Definition url : string := "https://www.instagram.com/reel/abc123/".

(** A chat client that lets everything through. *)
Definition chat_ok : VideoHandler.client :=
  VideoHandler.Client (fun _ => true) VideoHandler.UploadOk.

(** A chat client that rejects the attachment. *)
Definition chat_rejects : VideoHandler.client :=
  VideoHandler.Client (fun _ => true) VideoHandler.UploadHTTPException.

(** A 20 MiB download. *)
Definition big_fetch : Downloader.fetch_result :=
  Downloader.Fetched clip original "clip".

(** A 6 MiB download that is not an MP4 file. *)
Definition webm_clip : string := "./temp_downloads/abc123.webm".
Definition webm_fetch : Downloader.fetch_result :=
  Downloader.Fetched webm_clip (File (6 * MiB) 5) "clip".

Definition rung_1 : settings := Settings 950708 28 "medium".
Definition rung_2 : settings := Settings 760566 32 "fast".
Definition rung_3 : settings := Settings 570424 35 "veryfast".

End Scenario.


(** ** What the further properties speak of *)

Module Observations.
Import Py Numbers Compressor VideoHandler Validators Listener.


(** An event that only shows whether the bot may add reactions. *)
Definition about_reactions (e : event) : bool :=
  match e with
  | EvReaction _ | EvLog WARNING MsgMissingPermission => true
  | _ => false
  end.

(** The trace without what depends on the permission to react. *)
Definition quiet (t : list entry) : list entry :=
  List.filter (fun en : entry => negb (about_reactions en.1)) t.

(** An entry that, if it sends a file, sends one that is on disk and of at
    most [limit] bytes. *)
Definition sends_within (limit : Z) (en : entry) : Prop :=
  match en.1 with
  | EvReply (ReplyFile _ p) =>
      exists f, en.2 !! p = Some f /\ file_size f <= limit
  | _ => True
  end.



(** The URLs [on_message] processes: none for a message of the bot itself
    or outside a guild. *)
Definition accepted_urls (message : chat_message) : list (string * string) :=
  if from_bot message then []
  else match guild message with
       | None => []
       | Some _ => extract_video_urls (content message)
       end.



End Observations.

(** ** More requests, for the examples *)

Module Examples.

(** A chat client that may not add any reaction. *)
Definition chat_mute : VideoHandler.client :=
  VideoHandler.Client (fun _ => false) VideoHandler.UploadOk.

Definition reel : string := "https://www.instagram.com/reel/abc123/".
Definition short_link : string := "https://vm.tiktok.com/ZM8abc/".
Definition short_video : string := "https://www.youtube.com/shorts/abc123".

End Examples.


(** * Facts about paths *)

Module PathFacts.
Import Path.

Lemma take_drop (n : nat) (s : string) : (take n s ++ drop n s)%string = s.
Proof.
  revert s; induction n as [|n IH]; intros [|a s]; try reflexivity.
  cbn [take drop]. change (String a (take n s ++ drop n s) = String a s).
  f_equal. apply IH.
Qed.

Lemma length_app (s t : string) :
  String.length (s ++ t) = (String.length s + String.length t)%nat.
Proof.
  induction s as [|a s IH]; [reflexivity|].
  change (S (String.length (s ++ t)) = S (String.length s + String.length t)).
  now rewrite IH.
Qed.

Lemma take_length (n : nat) (s : string) :
  (String.length (take n s) <= n)%nat.
Proof.
  revert s; induction n as [|n IH]; intros [|a s]; cbn; try lia.
  specialize (IH s). lia.
Qed.

Lemma splitext_app (p : string) :
  (fst (splitext p) ++ snd (splitext p))%string = p.
Proof.
  unfold splitext.
  destruct (_ && _); simpl.
  - apply take_drop.
  - induction p as [|a p IH]; [reflexivity|].
    change (String a (p ++ "") = String a p). now rewrite IH.
Qed.

Lemma output_path_length (input_path : string) :
  String.length (Compressor.output_path_of input_path)
  = (String.length input_path + 11)%nat.
Proof.
  unfold Compressor.output_path_of.
  pose proof (splitext_app input_path) as H.
  destruct (splitext input_path) as [base ext]; simpl in H.
  rewrite <- H, !length_app. simpl. lia.
Qed.

Lemma output_path_fresh (input_path : string) :
  Compressor.output_path_of input_path <> input_path.
Proof.
  intros H. pose proof (output_path_length input_path) as L.
  rewrite H in L. lia.
Qed.

Lemma output_path_nonempty (input_path : string) :
  Compressor.output_path_of input_path <> EmptyString.
Proof.
  intros H. pose proof (output_path_length input_path) as L.
  rewrite H in L. simpl in L. lia.
Qed.

End PathFacts.


(** * Facts about floats *)

Module FloatFacts.
Import Py Numbers.

Lemma binary_round_aux_sign (m e : Z) (l : location) :
  sign_clear (binary_round_aux prec emax false m e l).
Proof.
  unfold binary_round_aux.
  destruct (shr_fexp prec emax m e l) as [mrs' e'].
  destruct (shr_fexp prec emax _ e' loc_Exact) as [mrs'' e''].
  destruct (shr_m mrs''); cbn; auto.
  now destruct (_ <=? _).
Qed.

Lemma float_of_int_sign (z : Z) (x : spec_float) :
  0 <= z -> float_of_int z = Ok x -> sign_clear x.
Proof.
  unfold float_of_int, binary_normalize, binary_round.
  destruct z as [|p|p]; [intros _ [= <-]; reflexivity | | lia].
  intros _. destruct (shl_align _ _ _) as [mz ez].
  pose proof (binary_round_aux_sign (Zpos mz) ez loc_Exact) as H.
  destruct (binary_round_aux _ _ _ _ _ _);
    [intros [= <-]; exact H | discriminate | intros [= <-]; exact H ..].
Qed.

Lemma float_mul_sign (x y : spec_float) :
  sign_clear x -> sign_clear y -> sign_clear (float_mul x y).
Proof.
  unfold float_mul, SFmul.
  destruct x as [sx|sx| |sx mx ex], y as [sy|sy| |sy my ey]; cbn;
    intros; subst; cbn; auto.
  apply binary_round_aux_sign.
Qed.

Lemma float_div_sign (x y : spec_float) :
  sign_clear x -> SFltb (S754_zero false) y = true ->
  sign_clear (SFdiv prec emax x y).
Proof.
  unfold SFdiv, SFltb.
  destruct x as [sx|sx| |sx mx ex], y as [sy|sy| |[] my ey]; cbn;
    try discriminate; intros; subst; cbn; auto;
    try (destruct sy; try discriminate; reflexivity).
  destruct (SFdiv_core_binary _ _ _ _ _ _) as [[mz ez] lz].
  apply binary_round_aux_sign.
Qed.

(** On a float without a minus sign, truncation is the floor. *)
Lemma int_of_float_floor (x : spec_float) (t : Z) :
  sign_clear x -> floor x = Some t -> int_of_float x = Ok t.
Proof.
  destruct x as [s|s| |s m e]; cbn; try discriminate.
  - now intros _ [= <-].
  - intros -> [= <-]. cbn. f_equal.
    apply Z.quot_div_nonneg; [|apply Z.pow_pos_nonneg; lia].
    apply Z.mul_nonneg_nonneg; [lia|]. apply Z.pow_nonneg. lia.
Qed.

End FloatFacts.


(** * Rounding to binary64 *)

Module Rounding.
Import Py Numbers.

Lemma digits2_pos_bounds (m : positive) :
  2 ^ (Zpos (digits2_pos m) - 1) <= Zpos m < 2 ^ Zpos (digits2_pos m).
Proof.
  induction m as [m IH|m IH|]; cbn [digits2_pos].
  - rewrite Pos2Z.inj_succ.
    replace (Z.succ (Zpos (digits2_pos m)) - 1) with (Z.succ (Zpos (digits2_pos m) - 1)) by lia.
    rewrite !Z.pow_succ_r by lia. lia.
  - rewrite Pos2Z.inj_succ.
    replace (Z.succ (Zpos (digits2_pos m)) - 1) with (Z.succ (Zpos (digits2_pos m) - 1)) by lia.
    rewrite !Z.pow_succ_r by lia. lia.
  - cbn. lia.
Qed.

Lemma digits2_pos_unique (m : positive) (d : Z) :
  2 ^ (d - 1) <= Zpos m < 2 ^ d -> Zpos (digits2_pos m) = d.
Proof.
  intros [Hlo Hhi]. pose proof (digits2_pos_bounds m) as [Hlo' Hhi'].
  assert (0 < d).
  { destruct (Z_lt_le_dec 0 d) as [|Hd]; [assumption|].
    destruct (Z.eq_dec d 0) as [->|]; [cbn in Hhi; lia|].
    rewrite Z.pow_neg_r in Hhi by lia. lia. }
  destruct (Z_lt_le_dec (Zpos (digits2_pos m)) d) as [Hlt|Hge].
  - assert (2 ^ Zpos (digits2_pos m) <= 2 ^ (d - 1)) by (apply Z.pow_le_mono_r; lia).
    lia.
  - destruct (Z_lt_le_dec d (Zpos (digits2_pos m))) as [Hlt|Hle]; [|lia].
    assert (2 ^ d <= 2 ^ (Zpos (digits2_pos m) - 1)) by (apply Z.pow_le_mono_r; lia).
    lia.
Qed.

Lemma shifted_start (M : Z) :
  0 <= M -> shifted M 0 (Build_shr_record M false false).
Proof.
  intros HM. exists 0. cbn. repeat split; try lia; try discriminate; auto.
Qed.

Lemma shifted_step (M k : Z) (mrs : shr_record) :
  0 <= k -> shifted M k mrs -> shifted M (k + 1) (shr_1 mrs).
Proof.
  intros Hk (rho & HM & Hrho & Hm & Hr & Hs).
  assert (Hp : 2 ^ (k + 1) = 2 * 2 ^ k) by (rewrite Z.pow_add_r by lia; lia).
  assert (0 < 2 ^ k) by (apply Z.pow_pos_nonneg; lia).
  destruct mrs as [m r s]. cbn [shr_m shr_r shr_s] in *.
  assert (Hs' : orb r s = false -> rho = 0).
  { intros E. apply orb_false_elim in E as [-> ->].
    destruct (Hs eq_refl) as [?|?]; [assumption|].
    assert (E : false = true) by (apply Hr; lia). discriminate E. }
  destruct m as [|[p|p|]|p]; cbn [shr_1 shr_m shr_r shr_s]; try lia.
  - exists rho; cbn [shr_m shr_r shr_s]; rewrite Hp; repeat split; try lia; try (intros [=]; fail).
    intros E. left. now apply Hs'.
  - exists (rho + 2 ^ k); cbn [shr_m shr_r shr_s]; rewrite Hp; repeat split; try lia; try (intros [=]; fail).
    intros E. right. rewrite (Hs' E). lia.
  - exists rho; cbn [shr_m shr_r shr_s]; rewrite Hp; repeat split; try lia; try (intros [=]; fail).
    intros E. left. now apply Hs'.
  - exists (rho + 2 ^ k); cbn [shr_m shr_r shr_s]; rewrite Hp; repeat split; try lia; try (intros [=]; fail).
    intros E. right. rewrite (Hs' E). lia.
Qed.

Lemma shifted_iter (M : Z) (p : positive) : forall k mrs,
  0 <= k -> shifted M k mrs -> shifted M (k + Zpos p) (SpecFloat.iter_pos shr_1 p mrs).
Proof.
  induction p as [p IH|p IH|]; intros k mrs Hk H; cbn [SpecFloat.iter_pos].
  - replace (k + Zpos p~1) with (k + 1 + Zpos p + Zpos p) by lia.
    apply IH; [lia|]. apply IH; [lia|]. now apply shifted_step.
  - replace (k + Zpos p~0) with (k + Zpos p + Zpos p) by lia.
    apply IH; [lia|]. now apply IH.
  - now apply shifted_step.
Qed.

(** Rounding to nearest even is off by half a unit at most. *)
Lemma round_nearest_even_shifted (M k : Z) (mrs : shr_record) :
  0 <= k -> shifted M k mrs ->
  let m := round_nearest_even (shr_m mrs) (loc_of_shr_record mrs) in
  (m = shr_m mrs \/ m = shr_m mrs + 1)
  /\ 2 * Z.abs (m * 2 ^ k - M) <= 2 ^ k.
Proof.
  intros Hk (rho & HM & Hrho & Hm & Hr & Hs).
  assert (0 < 2 ^ k) by (apply Z.pow_pos_nonneg; lia).
  destruct mrs as [m r s]. cbn [shr_m shr_r shr_s] in *.
  destruct r, s; cbn [loc_of_shr_record round_nearest_even].
  - split; [now right|]. assert (2 ^ k <= 2 * rho) by now apply Hr. nia.
  - assert (2 ^ k <= 2 * rho) by now apply Hr.
    destruct (Hs eq_refl) as [?|?]; [lia|].
    destruct (Z.even m); (split; [auto|]); nia.
  - split; [now left|].
    assert (~ 2 ^ k <= 2 * rho) by (intros E; apply Hr in E; discriminate). nia.
  - split; [now left|].
    assert (~ 2 ^ k <= 2 * rho) by (intros E; apply Hr in E; discriminate). nia.
Qed.

Lemma fexp_normal (e : Z) :
  -1074 <= e - 53 -> fexp prec emax e = e - 53.
Proof. unfold fexp, emin, prec, emax. lia. Qed.

Lemma shr_none (mrs : shr_record) (e n : Z) : n <= 0 -> shr mrs e n = (mrs, e).
Proof. destruct n; [reflexivity | lia | reflexivity]. Qed.

(** Rounding a positive integer mantissa that is out of the subnormal range:
    the result is an infinity or a float within a relative [2^-53] of the
    exact value. *)
Lemma binary_round_aux_exact (s : bool) (mx : positive) (ex : Z) :
  -1074 <= Zpos (digits2_pos mx) + ex - 53 ->
  binary_round_aux prec emax s (Zpos mx) ex loc_Exact = S754_infinity s
  \/ exists m e,
       binary_round_aux prec emax s (Zpos mx) ex loc_Exact = S754_finite s m e
       /\ ex <= e
       /\ 2 ^ 53 * Z.abs (Zpos m * 2 ^ (e - ex) - Zpos mx) <= Zpos mx.
Proof.
  intros Hnorm. set (d := Zpos (digits2_pos mx)) in *.
  pose proof (digits2_pos_bounds mx) as [Hlo Hhi]. fold d in Hlo, Hhi.
  unfold binary_round_aux, shr_fexp. cbn [Zdigits2 shr_record_of_loc].
  fold d. rewrite (fexp_normal (d + ex)) by lia.
  replace (d + ex - 53 - ex) with (d - 53) by lia.
  destruct (Z_le_gt_dec d 53) as [Hd|Hd].
  - (* the mantissa fits: nothing is shifted out *)
    rewrite shr_none by lia. cbn [shr_m loc_of_shr_record round_nearest_even].
    cbn [Zdigits2 shr_record_of_loc]. fold d.
    rewrite (fexp_normal (d + ex)) by lia.
    replace (d + ex - 53 - ex) with (d - 53) by lia.
    rewrite shr_none by lia. cbn [shr_m].
    destruct (ex <=? emax - prec); [right | now left].
    exists mx, ex. split; [reflexivity|]. split; [lia|].
    rewrite Z.sub_diag, Z.mul_1_r, Z.sub_diag. cbn. lia.
  - (* [d - 53] bits are shifted out *)
    destruct (d - 53) as [|n|n] eqn:En; try lia.
    cbn [shr].
    pose proof (shifted_iter (Zpos mx) n 0 _ (Z.le_refl 0)
                  (shifted_start (Zpos mx) (Pos2Z.is_nonneg mx))) as Hsh.
    rewrite Z.add_0_l in Hsh.
    set (mrs := SpecFloat.iter_pos shr_1 n _) in *.
    pose proof (round_nearest_even_shifted (Zpos mx) (Zpos n) mrs
                  (Pos2Z.is_nonneg n) Hsh) as [Hm Herr].
    cbn zeta in Hm, Herr.
    set (m2 := round_nearest_even (shr_m mrs) (loc_of_shr_record mrs)) in *.
    destruct Hsh as (rho & HM & Hrho & Hm0 & _).
    assert (Hpn : 0 < 2 ^ Zpos n) by (apply Z.pow_pos_nonneg; lia).
    assert (Hd1 : 2 ^ d = 2 ^ 53 * 2 ^ Zpos n).
    { rewrite <- Z.pow_add_r by lia. f_equal. lia. }
    assert (Hd2 : 2 ^ (d - 1) = 2 ^ 52 * 2 ^ Zpos n).
    { rewrite <- Z.pow_add_r by lia. f_equal. lia. }
    rewrite Hd1 in Hhi. rewrite Hd2 in Hlo.
    change (2 ^ 53) with 9007199254740992 in *.
    change (2 ^ 52) with 4503599627370496 in *.
    assert (Hm1 : 4503599627370496 <= shr_m mrs < 9007199254740992).
    { split.
      - destruct (Z_le_gt_dec 4503599627370496 (shr_m mrs)) as [|Hlt]; [assumption|].
        assert ((shr_m mrs + 1) * 2 ^ Zpos n <= 4503599627370496 * 2 ^ Zpos n)
          by (apply Z.mul_le_mono_nonneg_r; lia).
        lia.
      - destruct (Z_lt_le_dec (shr_m mrs) 9007199254740992) as [|Hge]; [assumption|].
        assert (9007199254740992 * 2 ^ Zpos n <= shr_m mrs * 2 ^ Zpos n)
          by (apply Z.mul_le_mono_nonneg_r; lia).
        lia. }
    assert (Hbound : 9007199254740992 * Z.abs (m2 * 2 ^ Zpos n - Zpos mx)
                     <= Zpos mx) by lia.
    destruct (Z.eq_dec m2 9007199254740992) as [E|E].
    + (* the carry went into a 54th bit *)
      rewrite E in *.
      cbn [Zdigits2 shr_record_of_loc].
      change (Zpos (digits2_pos 9007199254740992)) with 54.
      rewrite (fexp_normal (54 + (ex + Zpos n))) by lia.
      replace (54 + (ex + Zpos n) - 53 - (ex + Zpos n)) with 1 by lia.
      cbn [shr SpecFloat.iter_pos shr_1 shr_m].
      destruct (ex + Zpos n + 1 <=? emax - prec); [right | now left].
      eexists _, _. split; [reflexivity|]. split; [lia|].
      replace (ex + Zpos n + 1 - ex) with (Zpos n + 1) by lia.
      rewrite Z.pow_add_r by lia. change (2 ^ 1) with 2.
      replace (4503599627370496 * (2 ^ Zpos n * 2))
        with (9007199254740992 * 2 ^ Zpos n) by lia.
      exact Hbound.
    + assert (Hm2 : 4503599627370496 <= m2 < 9007199254740992) by lia.
      destruct m2 as [|q|q] eqn:Eq; try lia.
      cbn [Zdigits2 shr_record_of_loc].
      rewrite (digits2_pos_unique q 53)
        by (change (2 ^ (53 - 1)) with 4503599627370496;
            change (2 ^ 53) with 9007199254740992; lia).
      rewrite (fexp_normal (53 + (ex + Zpos n))) by lia.
      replace (53 + (ex + Zpos n) - 53 - (ex + Zpos n)) with 0 by lia.
      cbn [shr shr_m].
      destruct (ex + Zpos n <=? emax - prec); [right | now left].
      exists q, (ex + Zpos n). split; [reflexivity|]. split; [lia|].
      now replace (ex + Zpos n - ex) with (Zpos n) by lia.
Qed.

Lemma powerRZ_2_IZR (k : Z) : 0 <= k -> powerRZ 2 k = IZR (2 ^ k).
Proof.
  intros Hk. destruct k as [|p|p]; [reflexivity | | lia].
  cbn [powerRZ]. rewrite pow_IZR. f_equal. now rewrite positive_nat_Z.
Qed.

Lemma powerRZ_2_pos (e : Z) : (0 < powerRZ 2 e)%R.
Proof. apply powerRZ_lt. lra. Qed.

Lemma powerRZ_2_add (a b : Z) : powerRZ 2 (a + b) = (powerRZ 2 a * powerRZ 2 b)%R.
Proof. apply powerRZ_add. lra. Qed.


(** [binary_round_aux_exact], in the reals. *)
Lemma binary_round_aux_R (s : bool) (mx : positive) (ex : Z) :
  -1074 <= Zpos (digits2_pos mx) + ex - 53 ->
  binary_round_aux prec emax s (Zpos mx) ex loc_Exact = S754_infinity s
  \/ exists m e,
       binary_round_aux prec emax s (Zpos mx) ex loc_Exact = S754_finite s m e
       /\ (Rabs (F2R m e - F2R mx ex) <= u * F2R mx ex)%R.
Proof.
  intros Hnorm.
  destruct (binary_round_aux_exact s mx ex Hnorm) as [H|(m & e & H & He & Hb)];
    [now left | right].
  exists m, e. split; [exact H|].
  unfold F2R, u. replace e with (ex + (e - ex)) at 1 by lia.
  rewrite powerRZ_2_add, (powerRZ_2_IZR (e - ex)) by lia.
  pose proof (powerRZ_2_pos ex) as Hp.
  replace (IZR (Zpos m) * (powerRZ 2 ex * IZR (2 ^ (e - ex)))
           - IZR (Zpos mx) * powerRZ 2 ex)%R
    with (IZR (Zpos m * 2 ^ (e - ex) - Zpos mx) * powerRZ 2 ex)%R
    by (rewrite minus_IZR, mult_IZR; ring).
  rewrite Rabs_mult, (Rabs_pos_eq (powerRZ 2 ex)) by lra.
  rewrite Rabs_Zabs.
  apply IZR_le in Hb. rewrite mult_IZR in Hb.
  assert (H53 : (0 < IZR (2 ^ 53))%R) by (apply IZR_lt; lia).
  remember (IZR (2 ^ 53)) as a eqn:Ea.
  remember (IZR (Z.abs (Zpos m * 2 ^ (e - ex) - Zpos mx))) as b eqn:Eb.
  remember (IZR (Zpos mx)) as c eqn:Ec.
  rewrite <- Rmult_assoc. apply Rmult_le_compat_r; [clear - Hp; lra|].
  apply (Rmult_le_reg_l a); [exact H53|].
  replace (a * (/ a * c))%R with c by (field; clear - H53; lra). exact Hb.
Qed.

(** The exponent of a float bounds its value from above. *)
Lemma F2R_lt_digits (m : positive) (e : Z) :
  (F2R m e < powerRZ 2 (Zpos (digits2_pos m) + e))%R.
Proof.
  unfold F2R.
  rewrite powerRZ_2_add, (powerRZ_2_IZR (Zpos (digits2_pos m))) by lia.
  apply Rmult_lt_compat_r; [apply powerRZ_2_pos|].
  apply IZR_lt. apply digits2_pos_bounds.
Qed.

Lemma powerRZ_2_le_1 (z : Z) : z <= 0 -> (powerRZ 2 z <= 1)%R.
Proof.
  intros Hz. replace z with (- - z) by lia. rewrite powerRZ_neg'.
  rewrite (powerRZ_2_IZR (- z)) by lia.
  assert (1 <= 2 ^ (- z)) by (apply (Z.pow_le_mono_r 2 0 (- z)); lia).
  apply IZR_le in H.
  rewrite <- Rinv_1. apply Rinv_le_contravar; lra.
Qed.

(** A float of value at least one is far from the subnormal range. *)
Lemma F2R_ge_1_digits (m : positive) (e : Z) :
  (1 <= F2R m e)%R -> 1 <= Zpos (digits2_pos m) + e.
Proof.
  intros H. pose proof (F2R_lt_digits m e) as Hlt.
  destruct (Z_lt_le_dec 0 (Zpos (digits2_pos m) + e)) as [|Hle]; [lia|].
  pose proof (powerRZ_2_le_1 _ Hle). lra.
Qed.

(** Shifting a mantissa left. *)
Lemma iter_xO (d p : positive) : Zpos (Pos.iter xO p d) = Zpos p * 2 ^ Zpos d.
Proof.
  induction d as [|d IH] using Pos.peano_ind.
  - cbn. lia.
  - rewrite Pos.iter_succ, Pos2Z.inj_succ, Z.pow_succ_r by lia.
    rewrite Pos2Z.inj_xO, IH. lia.
Qed.

Lemma powerRZ_2_neg (k : Z) :
  0 <= k -> powerRZ 2 (- k) = (/ IZR (2 ^ k))%R.
Proof. intros Hk. now rewrite powerRZ_neg', powerRZ_2_IZR. Qed.

Lemma F2R_mult (m1 m2 : positive) (e1 e2 : Z) :
  F2R (m1 * m2) (e1 + e2) = (F2R m1 e1 * F2R m2 e2)%R.
Proof.
  unfold F2R. rewrite Pos2Z.inj_mul, mult_IZR, powerRZ_2_add. ring.
Qed.

(** Aligning a positive [int] for its conversion. *)
Lemma shl_align_int (p : positive) :
  exists mz ez,
    shl_align p 0 (Zpos (digits2_pos p) + 0 - 53) = (mz, ez)
    /\ F2R mz ez = IZR (Zpos p)
    /\ Zpos (digits2_pos mz) + ez = Zpos (digits2_pos p)
    /\ ez <= 0.
Proof.
  set (d := Zpos (digits2_pos p)).
  pose proof (digits2_pos_bounds p) as [Hlo Hhi]. fold d in Hlo, Hhi.
  unfold shl_align. destruct (d + 0 - 53 - 0) as [|n|n] eqn:En.
  - exists p, 0. split; [reflexivity|]. unfold F2R. cbn [powerRZ].
    split; [ring | fold d; lia].
  - exists p, 0. split; [reflexivity|]. unfold F2R. cbn [powerRZ].
    split; [ring | fold d; lia].
  - exists (Pos.iter xO p n), (d + 0 - 53). split; [reflexivity|].
    assert (Hpn : 0 < 2 ^ Zpos n) by (apply Z.pow_pos_nonneg; lia).
    split; [|split; [|lia]].
    + unfold F2R. rewrite iter_xO, mult_IZR.
      replace (d + 0 - 53) with (- Zpos n) by lia.
      rewrite powerRZ_2_neg by lia.
      apply IZR_lt in Hpn. field. lra.
    + rewrite (digits2_pos_unique (Pos.iter xO p n) (d + Zpos n)); [lia|].
      rewrite iter_xO.
      replace (d + Zpos n - 1) with (d - 1 + Zpos n) by lia.
      rewrite !Z.pow_add_r by (unfold d; lia). split.
      * apply Z.mul_le_mono_nonneg_r; lia.
      * apply Z.mul_lt_mono_pos_r; lia.
Qed.

(** The conversion of a positive [int]: a float within a relative [u] of
    it. *)
Lemma float_of_int_R (t : Z) (x : spec_float) :
  0 < t -> float_of_int t = Ok x ->
  exists m e,
    x = S754_finite false m e
    /\ (Rabs (F2R m e - IZR t) <= u * IZR t)%R.
Proof.
  intros Ht. destruct t as [|p|p]; try lia.
  unfold float_of_int, binary_normalize, binary_round.
  set (d := Zpos (digits2_pos p)).
  pose proof (digits2_pos_bounds p) as [Hlo Hhi]. fold d in Hlo, Hhi.
  assert (Hd : 1 <= d) by (unfold d; lia).
  rewrite (fexp_normal (d + 0)) by lia.
  destruct (shl_align_int p) as (mz & ez & Hal & Hval & Hmag & _).
  fold d in Hal, Hmag. rewrite Hal.
  assert (Hnorm : -1074 <= Zpos (digits2_pos mz) + ez - 53) by lia.
  destruct (binary_round_aux_R false mz ez Hnorm) as [E|(m & e & E & Hb)];
    rewrite E; [discriminate|].
  intros [= <-]. exists m, e. split; [reflexivity|]. now rewrite <- Hval.
Qed.

(** The product of two positive floats whose exact product is at least one:
    an infinity, or a float within a relative [u] of the exact product. *)
Lemma float_mul_R (m1 m2 : positive) (e1 e2 : Z) :
  (1 <= F2R m1 e1 * F2R m2 e2)%R ->
  float_mul (S754_finite false m1 e1) (S754_finite false m2 e2)
  = S754_infinity false
  \/ exists m e,
       float_mul (S754_finite false m1 e1) (S754_finite false m2 e2)
       = S754_finite false m e
       /\ (Rabs (F2R m e - F2R m1 e1 * F2R m2 e2)
           <= u * (F2R m1 e1 * F2R m2 e2))%R.
Proof.
  intros H1. unfold float_mul, SFmul. cbn [xorb].
  rewrite <- F2R_mult in *.
  apply binary_round_aux_R.
  apply F2R_ge_1_digits in H1. lia.
Qed.

(** [int(x)] of a positive float is its integer part. *)
Lemma int_of_float_R (m : positive) (e : Z) :
  exists b,
    int_of_float (S754_finite false m e) = Ok b
    /\ (IZR b <= F2R m e < IZR b + 1)%R.
Proof.
  eexists. split; [reflexivity|]. cbn [cond_Zopp]. unfold F2R.
  destruct (Z_le_gt_dec 0 e) as [He|He].
  - rewrite (Z.max_r 0 e), (Z.max_l 0 (- e)) by lia.
    change (2 ^ 0) with 1. rewrite Z.quot_1_r, mult_IZR, powerRZ_2_IZR by lia.
    lra.
  - rewrite (Z.max_l 0 e), (Z.max_r 0 (- e)) by lia.
    change (2 ^ 0) with 1. rewrite Z.mul_1_r.
    assert (Hp : 0 < 2 ^ (- e)) by (apply Z.pow_pos_nonneg; lia).
    rewrite Z.quot_div_nonneg by lia.
    assert (Hpow : powerRZ 2 e = (/ IZR (2 ^ (- e)))%R)
      by (rewrite <- powerRZ_2_neg by lia; f_equal; lia).
    rewrite Hpow. clear Hpow.
    pose proof (Z.mul_div_le (Zpos m) (2 ^ (- e)) Hp) as Hle.
    pose proof (Z.mul_succ_div_gt (Zpos m) (2 ^ (- e)) Hp) as Hgt.
    apply IZR_le in Hle. apply IZR_lt in Hgt.
    rewrite mult_IZR in Hle. rewrite mult_IZR, succ_IZR in Hgt.
    apply IZR_lt in Hp.
    set (P := IZR (2 ^ (- e))) in *.
    set (q := IZR (Zpos m / 2 ^ (- e))) in *.
    set (M := IZR (Zpos m)) in *.
    split.
    + apply (Rmult_le_reg_r P); [exact Hp|].
      replace (M * / P * P)%R with M by (field; lra). lra.
    + apply (Rmult_lt_reg_r P); [exact Hp|].
      replace (M * / P * P)%R with M by (field; lra). lra.
Qed.

Lemma Rabs_bounds (a b : R) : (Rabs a <= b)%R -> (- b <= a <= b)%R.
Proof. unfold Rabs. destruct (Rcase_abs a); lra. Qed.

(** The two multipliers of the ladder, as reals. *)
Lemma F2R_f0_8 :
  F2R 7205759403792794 (-53) = (7205759403792794 / 9007199254740992)%R.
Proof.
  unfold F2R. change (-53) with (Z.opp 53). now rewrite powerRZ_2_neg.
Qed.

Lemma F2R_f0_6 :
  F2R 5404319552844595 (-53) = (5404319552844595 / 9007199254740992)%R.
Proof.
  unfold F2R. change (-53) with (Z.opp 53). now rewrite powerRZ_2_neg.
Qed.

Lemma F2R_f0_85 :
  F2R 7656119366529843 (-53) = (7656119366529843 / 9007199254740992)%R.
Proof.
  unfold F2R. change (-53) with (Z.opp 53). now rewrite powerRZ_2_neg.
Qed.

Lemma u_value : u = (/ 9007199254740992)%R.
Proof. reflexivity. Qed.

(** [int(t * c)] for an [int] [t >= 3] and a float constant [c] between a
    half and one: the product is computed within a relative [u], from a
    conversion of [t] within a relative [u], and then truncated. *)
Lemma scaled_bitrate_R (t : Z) (m : positive) (e : Z) (mc : positive) (b : Z) :
  3 <= t ->
  (/ 2 <= F2R mc (-53))%R ->
  (Rabs (F2R m e - IZR t) <= u * IZR t)%R ->
  int_of_float (float_mul (S754_finite false m e) (S754_finite false mc (-53)))
  = Ok b ->
  exists Y : R,
    (Rabs (Y - F2R m e * F2R mc (-53)) <= u * (F2R m e * F2R mc (-53)))%R
    /\ (IZR b <= Y < IZR b + 1)%R.
Proof.
  intros Ht Hc HX Hb.
  assert (H1 : (1 <= F2R m e * F2R mc (-53))%R).
  { apply IZR_le in Ht. apply Rabs_bounds in HX. rewrite u_value in HX.
    assert (2 <= F2R m e)%R by lra.
    replace 1%R with (2 * / 2)%R by lra.
    apply Rmult_le_compat; lra. }
  destruct (float_mul_R m mc e (-53) H1) as [E|(m' & e' & E & HY)];
    rewrite E in Hb; [discriminate|].
  destruct (int_of_float_R m' e') as (b' & Hb' & Hbound).
  rewrite Hb' in Hb. injection Hb as <-.
  exists (F2R m' e'). split; [exact HY | exact Hbound].
Qed.

End Rounding.


(** * Which results are finite *)

Module Finite.
Import Py Numbers Rounding.

Lemma Zdigits2_bound (m k : Z) : 0 <= k -> 0 <= m < 2 ^ k -> Zdigits2 m <= k.
Proof.
  intros Hk [Hm Hlt]. destruct m as [|p|p]; cbn [Zdigits2]; try lia.
  pose proof (digits2_pos_bounds p) as [Hlo _].
  destruct (Z_le_gt_dec (Zpos (digits2_pos p)) k) as [|Hgt]; [assumption|].
  assert (2 ^ k <= 2 ^ (Zpos (digits2_pos p) - 1)) by (apply Z.pow_le_mono_r; lia).
  lia.
Qed.

Lemma Zdigits2_lt (m : Z) : 0 <= m -> 0 <= Zdigits2 m /\ m < 2 ^ Zdigits2 m.
Proof.
  intros Hm. destruct m as [|p|p]; cbn [Zdigits2].
  - change (2 ^ 0) with 1. lia.
  - split; [lia|]. apply digits2_pos_bounds.
  - lia.
Qed.

Lemma shr_1_bound (mrs : shr_record) (k : Z) :
  0 <= k -> 0 <= shr_m mrs < 2 ^ k ->
  0 <= shr_m (shr_1 mrs) < 2 ^ Z.max (k - 1) 0.
Proof.
  intros Hk [Hm Hlt]. destruct mrs as [m r s]. cbn [shr_m] in *.
  destruct (Z.eq_dec k 0) as [->|Hk0].
  - change (2 ^ 0) with 1 in Hlt. assert (m = 0) as -> by lia. cbn. lia.
  - rewrite Z.max_l by lia.
    assert (Hp : 2 ^ k = 2 * 2 ^ (k - 1)).
    { rewrite <- Z.pow_succ_r by lia. f_equal. lia. }
    assert (0 < 2 ^ (k - 1)) by (apply Z.pow_pos_nonneg; lia).
    destruct m as [|[p|p|]|p]; cbn [shr_1 shr_m]; lia.
Qed.

Lemma shr_iter_bound (p : positive) : forall (mrs : shr_record) (k : Z),
  0 <= k -> 0 <= shr_m mrs < 2 ^ k ->
  0 <= shr_m (SpecFloat.iter_pos shr_1 p mrs) < 2 ^ Z.max (k - Zpos p) 0.
Proof.
  induction p as [p IH|p IH|]; intros mrs k Hk H; cbn [SpecFloat.iter_pos].
  - apply shr_1_bound in H; [|lia].
    apply IH in H; [|lia]. apply IH in H; [|lia].
    replace (Z.max (k - Zpos p~1) 0)
      with (Z.max (Z.max (Z.max (k - 1) 0 - Zpos p) 0 - Zpos p) 0) by lia.
    exact H.
  - apply IH in H; [|lia]. apply IH in H; [|lia].
    replace (Z.max (k - Zpos p~0) 0)
      with (Z.max (Z.max (k - Zpos p) 0 - Zpos p) 0) by lia.
    exact H.
  - now apply shr_1_bound.
Qed.

Lemma shr_m_record_of_loc (m : Z) (l : location) :
  shr_m (shr_record_of_loc m l) = m.
Proof. now destruct l as [|[]]. Qed.

Lemma round_nearest_even_bound (m : Z) (l : location) :
  m <= round_nearest_even m l <= m + 1.
Proof. destruct l as [|[]]; cbn; try destruct (Z.even m); lia. Qed.

(** What one [shr_fexp] leaves: a non-negative mantissa under a known power
    of two, at a known exponent. *)
Lemma shr_fexp_bound (m e : Z) (l : location) (k : Z) :
  0 <= k -> 0 <= m < 2 ^ k ->
  let '(mrs, e') := shr_fexp prec emax m e l in
  e' = Z.max e (fexp prec emax (Zdigits2 m + e))
  /\ 0 <= shr_m mrs < 2 ^ Z.max (k - (e' - e)) 0.
Proof.
  intros Hk Hm. unfold shr_fexp, shr.
  destruct (fexp prec emax (Zdigits2 m + e) - e) as [|n|n] eqn:En.
  - split; [lia|]. rewrite shr_m_record_of_loc.
    replace (Z.max (k - (e - e)) 0) with k by lia. exact Hm.
  - split; [lia|].
    replace (k - (e + Zpos n - e)) with (k - Zpos n) by lia.
    apply shr_iter_bound; [exact Hk|]. now rewrite shr_m_record_of_loc.
  - split; [lia|]. rewrite shr_m_record_of_loc.
    replace (Z.max (k - (e - e)) 0) with k by lia. exact Hm.
Qed.

Lemma fexp_le (e : Z) : fexp prec emax e <= Z.max (e - 53) (-1074).
Proof. unfold fexp, emin, prec, emax. lia. Qed.

(** Rounding a mantissa of moderate magnitude does not overflow. *)
Lemma binary_round_aux_finite (s : bool) (mx ex : Z) (l : location) :
  0 <= mx -> Zdigits2 mx + ex <= 1023 -> ex <= 971 ->
  finite_float (binary_round_aux prec emax s mx ex l).
Proof.
  intros Hmx Hmag Hex. unfold binary_round_aux.
  destruct (Zdigits2_lt mx Hmx) as [Hd0 Hlt].
  pose proof (shr_fexp_bound mx ex l (Zdigits2 mx) Hd0 (conj Hmx Hlt)) as H1.
  destruct (shr_fexp prec emax mx ex l) as [mrs' e'].
  destruct H1 as [He' Hm'].
  pose proof (fexp_le (Zdigits2 mx + ex)) as Hf1.
  pose proof (round_nearest_even_bound (shr_m mrs') (loc_of_shr_record mrs')) as Hr.
  set (m1 := round_nearest_even (shr_m mrs') (loc_of_shr_record mrs')) in *.
  set (K := Z.max (Zdigits2 mx - (e' - ex)) 0) in *.
  assert (HK : 0 <= K) by (unfold K; lia).
  assert (Hm1 : 0 <= m1 < 2 ^ (K + 1)).
  { rewrite Z.pow_add_r by lia. change (2 ^ 1) with 2. lia. }
  pose proof (Zdigits2_bound m1 (K + 1) ltac:(lia) Hm1) as Hd1.
  pose proof (shr_fexp_bound m1 e' loc_Exact (K + 1) ltac:(lia) Hm1) as H2.
  destruct (shr_fexp prec emax m1 e' loc_Exact) as [mrs'' e''].
  destruct H2 as [He'' Hm''].
  pose proof (fexp_le (Zdigits2 m1 + e')) as Hf2.
  assert (Hfin : e'' <= 971) by (unfold K in *; lia).
  destruct (shr_m mrs'') as [|p|p]; cbn; try lia.
  unfold emax, prec. destruct (Z.leb_spec e'' (1024 - 53)); [exact I | lia].
Qed.

(** A quotient of two floats whose magnitudes are not too far apart does not
    overflow. *)
Lemma SFdiv_finite (s1 s2 : bool) (m1 m2 : positive) (e1 e2 : Z) :
  Zpos (digits2_pos m1) + e1 - (Zpos (digits2_pos m2) + e2) <= 1022 ->
  finite_float (SFdiv prec emax (S754_finite s1 m1 e1) (S754_finite s2 m2 e2)).
Proof.
  intros Hmag. unfold SFdiv, SFdiv_core_binary. cbn [Zdigits2].
  set (d1 := Zpos (digits2_pos m1)) in *.
  set (d2 := Zpos (digits2_pos m2)) in *.
  pose proof (digits2_pos_bounds m1) as [_ Hhi1]. fold d1 in Hhi1.
  pose proof (digits2_pos_bounds m2) as [Hlo2 _]. fold d2 in Hlo2.
  pose proof (fexp_le (d1 + e1 - (d2 + e2))) as Hf.
  set (e' := Z.min (fexp prec emax (d1 + e1 - (d2 + e2))) (e1 - e2)) in *.
  set (s := e1 - e2 - e') in *.
  assert (Hs : 0 <= s) by (unfold s, e'; lia).
  set (m' := match s with
             | 0 => Zpos m1
             | Zpos _ => Z.shiftl (Zpos m1) s
             | Zneg _ => 0
             end).
  assert (Hm' : m' = Zpos m1 * 2 ^ s).
  { unfold m'. clearbody s. clear - Hs.
    destruct s as [|p|p];
      [change (2 ^ 0) with 1; lia | apply Z.shiftl_mul_pow2; lia | lia]. }
  assert (Hps : 0 < 2 ^ s) by (apply Z.pow_pos_nonneg; lia).
  pose proof (Z_div_mod m' (Zpos m2) ltac:(lia)) as Hdiv.
  destruct (Z.div_eucl m' (Zpos m2)) as [q r]. destruct Hdiv as [Heq Hmod].
  assert (Hq : 0 <= q).
  { destruct (Z_le_gt_dec 0 q) as [|Hneg]; [assumption|exfalso].
    assert (Zpos m2 * q <= Zpos m2 * (-1)) by (apply Z.mul_le_mono_nonneg_l; lia).
    lia. }
  set (K := Z.max (d1 + s - d2 + 1) 0).
  assert (HqK : q < 2 ^ K).
  { destruct (Z_lt_le_dec q (2 ^ K)) as [|Hge]; [assumption|exfalso].
    assert (Hd2 : 1 <= d2) by (unfold d2; lia).
    assert (HK : 2 ^ (d1 + s) <= 2 ^ K * 2 ^ (d2 - 1)).
    { rewrite <- Z.pow_add_r by (unfold K; lia).
      apply Z.pow_le_mono_r; unfold K; unfold d1; lia. }
    assert (Hd1s : Zpos m1 * 2 ^ s < 2 ^ (d1 + s)).
    { rewrite Z.pow_add_r by (unfold d1; lia).
      apply Z.mul_lt_mono_pos_r; lia. }
    assert (2 ^ K * 2 ^ (d2 - 1) <= q * Zpos m2).
    { apply Z.mul_le_mono_nonneg; try lia; apply Z.pow_nonneg; lia. }
    lia. }
  apply binary_round_aux_finite; [exact Hq | | unfold e'; lia].
  pose proof (Zdigits2_bound q K ltac:(unfold K; lia) (conj Hq HqK)).
  unfold K, s, e' in *. lia.
Qed.

Lemma powerRZ_2_mono (a b : Z) : a <= b -> (powerRZ 2 a <= powerRZ 2 b)%R.
Proof.
  intros Hab. replace b with (a + (b - a)) by lia.
  rewrite powerRZ_2_add, (powerRZ_2_IZR (b - a)) by lia.
  pose proof (powerRZ_2_pos a).
  assert (1 <= 2 ^ (b - a)) by (apply (Z.pow_le_mono_r 2 0); lia).
  apply IZR_le in H0. rewrite <- (Rmult_1_r (powerRZ 2 a)) at 1.
  apply Rmult_le_compat_l; lra.
Qed.

(** A float below [2^k] has magnitude [k] at most. *)
Lemma F2R_digits_le (m : positive) (e k : Z) :
  (F2R m e < powerRZ 2 k)%R -> Zpos (digits2_pos m) + e <= k.
Proof.
  intros H.
  destruct (Z_le_gt_dec (Zpos (digits2_pos m) + e) k) as [|Hgt]; [assumption|].
  exfalso.
  pose proof (powerRZ_2_mono k (Zpos (digits2_pos m) - 1 + e) ltac:(lia)) as Hm.
  rewrite powerRZ_2_add, (powerRZ_2_IZR (Zpos (digits2_pos m) - 1)) in Hm by lia.
  pose proof (digits2_pos_bounds m) as [Hlo _]. apply IZR_le in Hlo.
  pose proof (powerRZ_2_pos e).
  assert (IZR (2 ^ (Zpos (digits2_pos m) - 1)) * powerRZ 2 e
          <= IZR (Zpos m) * powerRZ 2 e)%R
    by (apply Rmult_le_compat_r; lra).
  unfold F2R in H. lra.
Qed.

(** An [int] below [2^1000] converts to a float. *)
Lemma float_of_int_finite (t : Z) :
  0 <= t < 2 ^ 1000 -> exists x, float_of_int t = Ok x.
Proof.
  intros [Ht Hlt]. destruct t as [|p|p]; [eexists; reflexivity| |lia].
  unfold float_of_int, binary_normalize, binary_round.
  pose proof (digits2_pos_bounds p) as [Hlo _].
  assert (Hd : Zpos (digits2_pos p) <= 1000).
  { destruct (Z_le_gt_dec (Zpos (digits2_pos p)) 1000) as [|Hgt]; [assumption|].
    assert (2 ^ 1000 <= 2 ^ (Zpos (digits2_pos p) - 1))
      by (apply Z.pow_le_mono_r; lia).
    lia. }
  rewrite (fexp_normal (Zpos (digits2_pos p) + 0)) by lia.
  destruct (shl_align_int p) as (mz & ez & -> & _ & Hmag & Hez).
  pose proof (binary_round_aux_finite false (Zpos mz) ez loc_Exact
                ltac:(lia) ltac:(cbn [Zdigits2]; lia) ltac:(lia)) as Hfin.
  destruct (binary_round_aux _ _ _ _ _ _); cbn in Hfin; try contradiction;
    eexists; reflexivity.
Qed.

(** A product below [2^1023] does not overflow. *)
Lemma float_mul_finite (m1 m2 : positive) (e1 e2 : Z) :
  (F2R m1 e1 * F2R m2 e2 < powerRZ 2 1023)%R -> e1 + e2 <= 971 ->
  finite_float (float_mul (S754_finite false m1 e1) (S754_finite false m2 e2)).
Proof.
  intros H He. rewrite <- F2R_mult in H. apply F2R_digits_le in H.
  unfold float_mul, SFmul. apply binary_round_aux_finite; cbn [Zdigits2]; lia.
Qed.

Lemma floor_finite (x : spec_float) :
  finite_float x -> exists t, floor x = Some t.
Proof. destruct x; cbn; try contradiction; eauto. Qed.

(** The quotient of the plan is finite for every budget below [2^62] bytes
    and every duration of [2^-20] seconds or more. *)
Lemma quotient_finite (B : Z) (D : spec_float) :
  0 <= B < 2 ^ 62 -> magnitude_above (-20) D ->
  exists x t,
    float_of_int (B * 8) = Ok x
    /\ floor (SFdiv prec emax (float_mul x f0_85) D) = Some t.
Proof.
  intros [HB0 HB] HD.
  destruct D as [| | |[] md ed]; try contradiction. cbn in HD.
  destruct (Z.eq_dec B 0) as [->|HBnz].
  { exists (S754_zero false), 0. split; reflexivity. }
  destruct (float_of_int_finite (B * 8)) as [x Hx].
  { split; [lia|]. apply Z.lt_trans with (2 ^ 65).
    - change (2 ^ 65) with (2 ^ 62 * 8). lia.
    - now apply Z.pow_lt_mono_r. }
  exists x.
  destruct (float_of_int_R (B * 8) x ltac:(lia) Hx) as (m & e & -> & HX).
  apply Rabs_bounds in HX. rewrite u_value in HX.
  assert (HT : (8 <= IZR (B * 8) < 36893488147419103232)%R).
  { split.
    - apply IZR_le. lia.
    - apply IZR_lt. change 36893488147419103232 with (2 ^ 62 * 8). lia. }
  assert (H66 : powerRZ 2 66 = 73786976294838206464%R)
    by (rewrite powerRZ_2_IZR by lia; reflexivity).
  assert (Hmag : Zpos (digits2_pos m) + e <= 66).
  { apply F2R_digits_le. rewrite H66. lra. }
  pose proof (powerRZ_2_mono 66 1023 ltac:(lia)) as Hbig. rewrite H66 in Hbig.
  assert (HP : (1 <= F2R m e * F2R 7656119366529843 (-53)
                < 73786976294838206464 * (1 - / 4))%R).
  { rewrite F2R_f0_85. lra. }
  pose proof (float_mul_finite m 7656119366529843 e (-53)
                ltac:(lra) ltac:(lia)) as Hfin.
  destruct (float_mul_R m 7656119366529843 e (-53) ltac:(lra))
    as [E|(ma & ea & E & HA)].
  { change f0_85 with (S754_finite false 7656119366529843 (-53)).
    rewrite E in Hfin. contradiction. }
  change f0_85 with (S754_finite false 7656119366529843 (-53)).
  rewrite E. apply Rabs_bounds in HA. rewrite u_value in HA.
  assert (Hmaga : Zpos (digits2_pos ma) + ea <= 66).
  { apply F2R_digits_le. rewrite H66. lra. }
  destruct (floor_finite
              (SFdiv prec emax (S754_finite false ma ea)
                 (S754_finite false md ed))) as [t Ht].
  { apply SFdiv_finite. lia. }
  exists t. split; [exact Hx | exact Ht].
Qed.

End Finite.


(** * The retry loop of [compress_video] *)

Module LoopFacts.
Import Py Compressor Ladder PathFacts.

Ltac project :=
  repeat match goal with
  | |- context [value_of (?v, ?s, ?t)] => change (value_of (v, s, t)) with v
  | |- context [fs_of (?v, ?s, ?t)] => change (fs_of (v, s, t)) with s
  | |- context [events_of (?v, ?s, ?t)] =>
      change (events_of (v, s, t)) with (fst <$> t)
  | |- context [trace_of (?v, ?s, ?t)] => change (trace_of (v, s, t)) with t
  end.

Ltac io_unfold :=
  unfold io_bind, log, record, effect, path_exists, getsize, os_remove, ffmpeg_run,
    io_ret, value_of, fs_of, trace_of, events_of in *.

Section Loop.
Variable enc : encoder.
Variables input_path output_path : string.
Variable target_size_bytes : Z.

#[local] Abbreviation loop := (attempts enc input_path output_path target_size_bytes).
#[local] Abbreviation fits := (attempt_fits enc target_size_bytes).
#[local] Abbreviation ran := (after_run enc output_path).
#[local] Abbreviation pass := (attempt_trace enc input_path output_path target_size_bytes).

(** One pass through the loop body, in closed form. *)
Lemma attempts_cons (a : nat) (s : settings) (rest : list settings)
    (fs : gmap string file) :
  loop a (s :: rest) fs
  = if fits a s
    then (Some output_path, ran a s fs, pass a s fs)
    else
      let r := loop (S a) rest (ran a s fs) in
      (value_of r, fs_of r, pass a s fs ++ trace_of r).
Proof.
  cbn [attempts]. unfold attempt_fits, attempt_trace, after_run, verdict_log.
  io_unfold.
  destruct (enc a s) as [st out]; cbn.
  destruct (bool_decide (is_Some (fs !! output_path))) eqn:Hex.
  - destruct st, out as [f|]; cbn;
      rewrite ?lookup_insert_eq, ?lookup_delete_eq; cbn;
      try destruct (file_size f <=? target_size_bytes); cbn;
      try reflexivity;
      now destruct (attempts _ _ _ _ _ _ _) as [[? ?] ?].
  - apply bool_decide_eq_false in Hex.
    rewrite <- eq_None_not_Some in Hex.
    rewrite (delete_id _ _ Hex).
    destruct st, out as [f|]; cbn;
      rewrite ?lookup_insert_eq, ?Hex; cbn;
      try destruct (file_size f <=? target_size_bytes); cbn;
      try reflexivity;
      now destruct (attempts _ _ _ _ _ _ _) as [[? ?] ?].
Qed.

Lemma attempts_nil (a : nat) (fs : gmap string file) :
  loop a [] fs = (None, fs, []).
Proof. reflexivity. Qed.

Lemma after_run_frame (a : nat) (s : settings) (fs : gmap string file) :
  delete output_path (ran a s fs) = delete output_path fs.
Proof.
  unfold after_run. destruct (run_output (enc a s)).
  - now rewrite delete_insert_eq, delete_delete_eq.
  - apply delete_delete_eq.
Qed.

Lemma after_run_lookup (a : nat) (s : settings) (fs : gmap string file) :
  ran a s fs !! output_path = run_output (enc a s).
Proof.
  unfold after_run. destruct (run_output (enc a s)).
  - apply lookup_insert_eq.
  - apply lookup_delete_eq.
Qed.

Lemma verdict_log_logs (a : nat) (s : settings) :
  Forall (fun e => exists l m, e = EvLog l m) (verdict_log enc target_size_bytes a s).
Proof.
  unfold verdict_log. destruct (enc a s) as [[] [f|]];
    repeat constructor; eauto.
Qed.

Lemma pass_framed (a : nat) (s : settings) (fs : gmap string file) :
  Forall (framed input_path output_path fs) (pass a s fs).
Proof.
  unfold attempt_trace. constructor; [now split|].
  apply Forall_app; split.
  - destruct (bool_decide _); constructor; [|constructor].
    split; [reflexivity|]. apply delete_delete_eq.
  - constructor; [split; [now split | apply after_run_frame]|].
    apply Forall_fmap, Forall_forall. intros e He.
    pose proof (verdict_log_logs a s) as Hl.
    rewrite Forall_forall in Hl. destruct (Hl e He) as (l & m & ->).
    split; [exact I | apply after_run_frame].
Qed.

Lemma framed_rebase (fs fs' : gmap string file) (t : list entry) :
  delete output_path fs' = delete output_path fs ->
  Forall (framed input_path output_path fs') t ->
  Forall (framed input_path output_path fs) t.
Proof.
  intros E H. apply (Forall_impl _ _ _ H). intros en [H1 H2].
  split; [exact H1|]. now rewrite H2.
Qed.

(** The loop touches the output path only, at every step. *)
Lemma attempts_frame (levels : list settings) : forall a fs,
  delete output_path (fs_of (loop a levels fs)) = delete output_path fs
  /\ Forall (framed input_path output_path fs) (trace_of (loop a levels fs)).
Proof.
  induction levels as [|s rest IH]; intros a fs.
  - rewrite attempts_nil. split; [reflexivity | constructor].
  - rewrite attempts_cons. destruct (fits a s).
    + split; [apply after_run_frame | apply pass_framed].
    + specialize (IH (S a) (ran a s fs)).
      destruct (loop (S a) rest (ran a s fs)) as [[v fs'] t].
      unfold fs_of, trace_of, value_of in *; cbn [fst snd] in *.
      destruct IH as [IH1 IH2]. split.
      * rewrite IH1. apply after_run_frame.
      * apply Forall_app; split; [apply pass_framed|].
        apply (framed_rebase fs (ran a s fs)); [apply after_run_frame | exact IH2].
Qed.

Lemma runs_app (es es' : list event) : runs (es ++ es') = runs es ++ runs es'.
Proof. apply omap_app. Qed.

Lemma runs_logs (es : list event) :
  Forall (fun e => exists l m, e = EvLog l m) es -> runs es = [].
Proof.
  induction 1 as [|e es (l & m & ->) _ IH]; [reflexivity | exact IH].
Qed.

Lemma pass_events (a : nat) (s : settings) (fs : gmap string file) :
  fst <$> pass a s fs
  = EvLog INFO (MsgAttempt a)
    :: (if bool_decide (is_Some (fs !! output_path))
        then [EvRemove output_path] else [])
    ++ EvRun a s input_path output_path
    :: verdict_log enc target_size_bytes a s.
Proof.
  unfold attempt_trace. rewrite fmap_cons, fmap_app, fmap_cons. cbn [fst].
  f_equal. f_equal; [now destruct (bool_decide _)|]. f_equal.
  rewrite <- list_fmap_compose. apply list_fmap_id.
Qed.

Lemma runs_pass (a : nat) (s : settings) (fs : gmap string file) :
  runs (fst <$> pass a s fs) = [(a, s)].
Proof.
  rewrite pass_events.
  change (EvLog INFO (MsgAttempt a) :: ?l) with ([EvLog INFO (MsgAttempt a)] ++ l).
  rewrite !runs_app.
  change (EvRun a s input_path output_path :: ?l)
    with ([EvRun a s input_path output_path] ++ l).
  rewrite runs_app, (runs_logs _ (verdict_log_logs a s)).
  now destruct (bool_decide _).
Qed.

Lemma verdict_log_fits (a : nat) (s : settings) :
  fits a s = true ->
  verdict_log enc target_size_bytes a s
  = [EvLog INFO (MsgCompressedSize a); EvLog INFO (MsgSuccessful a)].
Proof.
  unfold attempt_fits, verdict_log.
  destruct (enc a s) as [[] [f|]]; try discriminate.
  now intros ->.
Qed.


(** The events of the loop when its first rung does not fit. *)
Lemma attempts_events_next (a : nat) (s : settings) (rest : list settings)
    (fs : gmap string file) :
  fits a s = false ->
  events_of (loop a (s :: rest) fs)
  = (fst <$> pass a s fs) ++ events_of (loop (S a) rest (ran a s fs)).
Proof.
  intros H. rewrite attempts_cons, H. unfold events_of, trace_of. cbn [snd].
  apply fmap_app.
Qed.

Lemma attempts_events_fit (a : nat) (s : settings) (rest : list settings)
    (fs : gmap string file) :
  fits a s = true ->
  events_of (loop a (s :: rest) fs) = fst <$> pass a s fs.
Proof. intros H. now rewrite attempts_cons, H. Qed.

(** Every run of the loop is a rung of the ladder under its number. *)
Lemma attempts_runs_numbered (levels : list settings) : forall a fs k s,
  (k, s) ∈ runs (events_of (loop a levels fs)) -> (k, s) ∈ numbered a levels.
Proof.
  induction levels as [|s0 rest IH]; intros a fs k s.
  - rewrite attempts_nil. cbn. intros H. inversion H.
  - cbn [numbered]. destruct (fits a s0) eqn:F.
    + rewrite (attempts_events_fit _ _ _ _ F), runs_pass.
      intros H. apply list_elem_of_singleton in H as ->. left.
    + rewrite (attempts_events_next _ _ _ _ F), runs_app, runs_pass.
      intros H. apply elem_of_app in H as [H|H].
      * apply list_elem_of_singleton in H as ->. left.
      * right. eapply IH, H.
Qed.

Lemma numbered_ge (levels : list settings) : forall a k s,
  (k, s) ∈ numbered a levels -> (a <= k)%nat.
Proof.
  induction levels as [|s0 rest IH]; intros a k s H; cbn in H.
  - inversion H.
  - apply elem_of_cons in H as [[= -> ->]|H]; [lia|].
    apply IH in H. lia.
Qed.


Lemma numbered_head (levels : list settings) (a : nat) (s : settings) :
  (a, s) ∈ numbered a levels -> exists rest, levels = s :: rest.
Proof.
  destruct levels as [|s0 rest]; cbn; intros H; [inversion H|].
  apply elem_of_cons in H as [[= ->]|H]; [eauto|].
  apply numbered_ge in H. lia.
Qed.

(** The loop returns nothing but the output path, and only with a file
    within the budget there. *)
Lemma attempts_some (levels : list settings) : forall a fs p,
  value_of (loop a levels fs) = Some p ->
  p = output_path
  /\ exists f, fs_of (loop a levels fs) !! output_path = Some f
              /\ file_size f <= target_size_bytes.
Proof.
  induction levels as [|s0 rest IH]; intros a fs p.
  - rewrite attempts_nil. discriminate.
  - rewrite attempts_cons. destruct (fits a s0) eqn:F.
    + unfold value_of, fs_of; cbn [fst snd]. intros [= <-].
      split; [reflexivity|]. rewrite after_run_lookup.
      unfold attempt_fits in F.
      destruct (enc a s0) as [[] [f|]]; try discriminate.
      exists f. split; [reflexivity | lia].
    + unfold value_of, fs_of in *; cbn [fst snd]. apply IH.
Qed.

(** First fit: a run whose candidate fits is the last one, and the loop
    returns with that candidate in place. *)
Lemma attempts_first_fit (levels : list settings) : forall a fs k s,
  (k, s) ∈ runs (events_of (loop a levels fs)) ->
  fits k s = true ->
  value_of (loop a levels fs) = Some output_path
  /\ fs_of (loop a levels fs) !! output_path = run_output (enc k s)
  /\ (forall j s', (j, s') ∈ runs (events_of (loop a levels fs)) -> (j <= k)%nat)
  /\ exists pre,
       events_of (loop a levels fs)
       = pre ++ [EvRun k s input_path output_path;
                 EvLog INFO (MsgCompressedSize k);
                 EvLog INFO (MsgSuccessful k)].
Proof.
  induction levels as [|s0 rest IH]; intros a fs k s Hin Hfit.
  - rewrite attempts_nil in Hin. inversion Hin.
  - destruct (fits a s0) eqn:F.
    + rewrite (attempts_events_fit _ _ _ _ F), runs_pass in *.
      apply list_elem_of_singleton in Hin as [= -> ->].
      rewrite attempts_cons, F. unfold value_of, fs_of; cbn [fst snd].
      repeat split.
      * apply after_run_lookup.
      * intros j s' H. now apply list_elem_of_singleton in H as [= -> ->].
      * rewrite pass_events, (verdict_log_fits _ _ F).
        exists (EvLog INFO (MsgAttempt a)
                :: (if bool_decide (is_Some (fs !! output_path))
                    then [EvRemove output_path] else [])).
        reflexivity.
    + rewrite (attempts_events_next _ _ _ _ F), runs_app, runs_pass in *.
      apply elem_of_app in Hin as [Hin|Hin].
      { apply list_elem_of_singleton in Hin as [= -> ->]. congruence. }
      pose proof (numbered_ge _ _ _ _ (attempts_runs_numbered _ _ _ _ _ Hin)) as Hge.
      destruct (IH (S a) (ran a s0 fs) k s Hin Hfit) as (Hv & Hfs & Hle & pre & Hev).
      rewrite attempts_cons, F. unfold value_of, fs_of in *; cbn [fst snd].
      repeat split; [exact Hv | exact Hfs | |].
      * intros j s' H. apply elem_of_app in H as [H|H]; [|eauto].
        apply list_elem_of_singleton in H as [= -> ->]. lia.
      * exists ((fst <$> pass a s0 fs) ++ pre). now rewrite Hev, app_assoc.
Qed.



End Loop.
End LoopFacts.


(** * [compress_video] *)

Module CompressVideo.
Import Py Compressor Ladder PathFacts LoopFacts.

Lemma frame_lookup (o p : string) (a b : gmap string file) :
  delete o a = delete o b -> p <> o -> a !! p = b !! p.
Proof.
  intros H Hp.
  rewrite <- (lookup_delete_ne a o p), H by congruence.
  apply lookup_delete_ne. congruence.
Qed.

Section Run.
Variable probe : probe_result.
Variable enc : encoder.
Variable input_path : string.
Variables target_size_bytes max_attempts : Z.

#[local] Abbreviation out := (output_path_of input_path).
#[local] Abbreviation loop :=
  (attempts enc input_path out target_size_bytes 1%nat).
#[local] Abbreviation run := (compress_video probe enc input_path target_size_bytes max_attempts).

(** [compress_video] once the loop is reached. *)
Lemma compress_video_ladder (ladder : list settings) (fs : gmap string file) :
  ladder_of probe target_size_bytes max_attempts = Some ladder ->
  run fs
  = let l := loop ladder fs in
    let head := [(EvLog INFO MsgStart, fs); (EvLog INFO MsgOriginal, fs)] in
    match value_of l with
    | Some p => (Ok (Some p), fs_of l, head ++ trace_of l)
    | None =>
        (Ok None, delete out (fs_of l),
         head ++ trace_of l
         ++ (EvLog WARNING MsgExhausted, fs_of l)
         :: (if bool_decide (is_Some (fs_of l !! out))
             then [(EvRemove out, delete out (fs_of l))] else []))
    end.
Proof.
  unfold ladder_of, compress_video.
  destruct probe as [|[duration|] [size|]]; try discriminate.
  destruct (Py.bind _ _) as [levels|e]; [|discriminate].
  intros [= <-]. io_unfold. cbn.
  destruct (attempts _ _ _ _ _ _ _) as [[[p|] fs'] t]; cbn.
  - now rewrite app_nil_r.
  - destruct (bool_decide (is_Some (fs' !! out))) eqn:E; cbn; [reflexivity|].
    apply bool_decide_eq_false in E. rewrite <- eq_None_not_Some in E.
    now rewrite (delete_id _ _ E).
Qed.

(** [compress_video] when the loop is not reached: the probe failed, or
    computing the bitrates raised. Nothing but log records is produced. *)
Lemma compress_video_no_ladder (fs : gmap string file) :
  ladder_of probe target_size_bytes max_attempts = None ->
  fs_of (run fs) = fs
  /\ Forall (fun en : entry => (exists l m, en.1 = EvLog l m) /\ en.2 = fs)
       (trace_of (run fs))
  /\ (value_of (run fs) = Ok None \/ raises (value_of (run fs))).
Proof.
  unfold ladder_of, compress_video.
  destruct probe as [|[duration|] [size|]];
    try (intros _; io_unfold; cbn; repeat split;
         [repeat constructor; cbn; eauto | now left]).
  destruct (Py.bind _ _) as [levels|e]; [discriminate|].
  intros _; io_unfold; cbn. repeat split;
    [repeat constructor; cbn; eauto | now right].
Qed.

(** Whatever happens, [compress_video] touches the output path only. *)
Lemma compress_video_framed (fs : gmap string file) :
  delete out (fs_of (run fs)) = delete out fs
  /\ Forall (framed input_path out fs) (trace_of (run fs)).
Proof.
  destruct (ladder_of probe target_size_bytes max_attempts) as [ladder|] eqn:L.
  - rewrite (compress_video_ladder ladder fs L). cbn zeta.
    destruct (attempts_frame enc input_path out target_size_bytes ladder 1%nat fs)
      as [Hfs Htr].
    assert (Hhead : Forall (framed input_path out fs)
                      [(EvLog INFO MsgStart, fs); (EvLog INFO MsgOriginal, fs)])
      by (repeat constructor).
    destruct (value_of _); unfold fs_of, trace_of in *; cbn [fst snd].
    + split; [exact Hfs | now apply Forall_app].
    + split; [now rewrite (delete_delete_eq (M:=gmap string))|].
      apply Forall_app; split; [exact Hhead|].
      apply Forall_app; split; [exact Htr|].
      constructor; [now split|].
      destruct (bool_decide _); constructor; [|constructor].
      split; [reflexivity|]. cbn [snd]. now rewrite (delete_delete_eq (M:=gmap string)).
  - destruct (compress_video_no_ladder fs L) as (Hfs & Htr & _).
    split; [now rewrite Hfs|].
    apply (Forall_impl _ _ _ Htr). intros [e s] [(l & m & He) Hs]; cbn in *.
    subst. now split.
Qed.

(** The runs of [compress_video] are those of its loop. *)
Lemma compress_video_runs (ladder : list settings) (fs : gmap string file) :
  ladder_of probe target_size_bytes max_attempts = Some ladder ->
  runs (events_of (run fs)) = runs (events_of (loop ladder fs)).
Proof.
  intros L. rewrite (compress_video_ladder ladder fs L). cbn zeta.
  unfold events_of, trace_of, value_of, fs_of.
  destruct (loop ladder fs) as [[[p|] fs'] t]; cbn [fst snd app].
  - reflexivity.
  - rewrite !fmap_cons, fmap_app, fmap_cons. cbn [fst].
    change (runs (?x :: ?y :: ?l)) with (runs l).
    rewrite runs_app. destruct (bool_decide _); cbn; apply app_nil_r.
Qed.

(** A path returned by [compress_video] is the output path, and holds a
    file within the budget. *)
Lemma compress_video_some (fs : gmap string file) (o : option string) :
  value_of (run fs) = Ok o ->
  match o with
  | Some p =>
      p = out
      /\ exists f, fs_of (run fs) !! out = Some f
                  /\ file_size f <= target_size_bytes
  | None => fs_of (run fs) !! out = None \/ fs_of (run fs) = fs
  end.
Proof.
  destruct (ladder_of probe target_size_bytes max_attempts) as [ladder|] eqn:L.
  - rewrite (compress_video_ladder ladder fs L). cbn zeta.
    pose proof (attempts_some enc input_path out target_size_bytes ladder
                  1%nat fs) as Hs.
    destruct (value_of (loop ladder fs)) as [p|];
      unfold value_of, fs_of in *; cbn [fst snd].
    + intros [= <-]. now apply Hs.
    + intros [= <-]. left. apply lookup_delete_eq.
  - destruct (compress_video_no_ladder fs L) as (Hfs & _ & [Hv|Hv]).
    + rewrite Hv. intros [= <-]. now right.
    + intros E. rewrite E in Hv. destruct Hv.
Qed.

Lemma compress_video_no_runs (fs : gmap string file) :
  ladder_of probe target_size_bytes max_attempts = None ->
  runs (events_of (run fs)) = [].
Proof.
  intros L. destruct (compress_video_no_ladder fs L) as (_ & Htr & _).
  apply runs_logs, Forall_fmap. apply (Forall_impl _ _ _ Htr).
  now intros en [H _].
Qed.

End Run.
End CompressVideo.


(** * The claims about [compress_video] *)

Module CompressorClaims.
Import Py Compressor Ladder PathFacts LoopFacts CompressVideo.

(** C10. [compress_video] never deletes, overwrites or otherwise modifies its
    input file. The output path (input base, ["_compressed"], input
    extension) differs from the input path; every entry of the trace logs,
    removes the output path or runs the tool from the input to the output
    path, and leaves every other path as it was; so does the final file
    system, and the input path in particular holds what it held before. *)
Theorem compress_video_leaves_input_alone
    (probe : probe_result) (enc : encoder) (input_path : string)
    (target_size_bytes max_attempts : Z) (fs : gmap string file) :
  let r := compress_video probe enc input_path target_size_bytes max_attempts fs in
  let out := output_path_of input_path in
  out <> input_path
  /\ fs_of r !! input_path = fs !! input_path
  /\ (forall p, p <> out -> fs_of r !! p = fs !! p)
  /\ Forall (fun en : entry =>
               touches_only input_path out en.1
               /\ forall p, p <> out -> en.2 !! p = fs !! p)
       (trace_of r).
Proof.
  cbn zeta.
  destruct (compress_video_framed probe enc input_path target_size_bytes
              max_attempts fs) as [Hfs Htr].
  pose proof (output_path_fresh input_path) as Hne.
  repeat split.
  - exact Hne.
  - apply (frame_lookup (output_path_of input_path)); [exact Hfs | congruence].
  - intros p Hp. now apply (frame_lookup (output_path_of input_path)).
  - apply (Forall_impl _ _ _ Htr). intros en [H1 H2]. split; [exact H1|].
    intros p Hp. now apply (frame_lookup (output_path_of input_path)).
Qed.



(** C4. First fit wins. In every run of [compress_video], if attempt [k] was
    made and left a candidate within the budget, then [compress_video]
    returns the output path, which holds the file attempt [k] wrote; no
    attempt with a higher number was made; and the trace ends with that run
    and its two log records. *)
Theorem first_fit_returns_at_once
    (probe : probe_result) (enc : encoder) (input_path : string)
    (target_size_bytes max_attempts : Z) (fs : gmap string file)
    (k : nat) (s : settings) :
  let r := compress_video probe enc input_path target_size_bytes max_attempts fs in
  let out := output_path_of input_path in
  (k, s) ∈ runs (events_of r) ->
  attempt_fits enc target_size_bytes k s = true ->
  value_of r = Ok (Some out)
  /\ fs_of r !! out = run_output (enc k s)
  /\ (forall j s', (j, s') ∈ runs (events_of r) -> (j <= k)%nat)
  /\ exists pre,
       events_of r
       = pre ++ [EvRun k s input_path out;
                 EvLog INFO (MsgCompressedSize k);
                 EvLog INFO (MsgSuccessful k)].
Proof.
  cbn zeta. intros Hin Hfit.
  destruct (ladder_of probe target_size_bytes max_attempts) as [ladder|] eqn:L.
  2: { rewrite (compress_video_no_runs _ _ _ _ _ fs L) in Hin. inversion Hin. }
  rewrite (compress_video_runs _ _ _ _ _ ladder fs L) in *.
  destruct (attempts_first_fit enc input_path (output_path_of input_path)
              target_size_bytes ladder 1%nat fs k s Hin Hfit)
    as (Hv & Hfs & Hle & pre & Hev).
  rewrite (compress_video_ladder _ _ _ _ _ ladder fs L). cbn zeta.
  rewrite Hv. unfold value_of, fs_of, events_of, trace_of in *. cbn [fst snd].
  repeat split; [exact Hfs | exact Hle |].
  exists ([EvLog INFO MsgStart; EvLog INFO MsgOriginal] ++ pre).
  rewrite fmap_app, Hev. now rewrite app_assoc.
Qed.

Lemma first_fit_example :
  (2%nat, Scenario.rung_2)
    ∈ runs (events_of (compress_video Scenario.probe_ok Scenario.second_fits
                         Scenario.clip (8 * Scenario.MiB) 3 Scenario.disk))
  /\ attempt_fits Scenario.second_fits (8 * Scenario.MiB) 2%nat Scenario.rung_2 = true
  /\ value_of (compress_video Scenario.probe_ok Scenario.second_fits
                 Scenario.clip (8 * Scenario.MiB) 3 Scenario.disk)
     = Ok (Some Scenario.candidate).
Proof.
  assert (Hin : (2%nat, Scenario.rung_2)
    ∈ runs (events_of (compress_video Scenario.probe_ok Scenario.second_fits
                         Scenario.clip (8 * Scenario.MiB) 3 Scenario.disk))).
  { vm_compute. apply list_elem_of_In. right. left. reflexivity. }
  assert (Hfit : attempt_fits Scenario.second_fits (8 * Scenario.MiB) 2%nat
                   Scenario.rung_2 = true) by reflexivity.
  split; [exact Hin | split; [exact Hfit|]].
  exact (proj1 (first_fit_returns_at_once _ _ _ _ _ _ _ _ Hin Hfit)).
Defined.



End CompressorClaims.


(** * The handler, one piece at a time *)

Module HandlerFacts.
Import Py Compressor Downloader VideoHandler Pipeline Ladder PathFacts LoopFacts
  CompressVideo.

Lemma replies_app (es es' : list event) :
  replies (es ++ es') = replies es ++ replies es'.
Proof. apply omap_app. Qed.

Lemma cleanups_app (es es' : list event) :
  cleanups (es ++ es') = cleanups es ++ cleanups es'.
Proof. apply omap_app. Qed.

Lemma replies_cons (e : event) (es : list event) :
  replies (e :: es) = replies [e] ++ replies es.
Proof. apply (replies_app [e]). Qed.

Lemma cleanups_cons (e : event) (es : list event) :
  cleanups (e :: es) = cleanups [e] ++ cleanups es.
Proof. apply (cleanups_app [e]). Qed.

Ltac split_events :=
  repeat first
    [ rewrite fmap_app | rewrite fmap_cons
    | rewrite replies_app | rewrite cleanups_app
    | match goal with
      | |- context [replies (?x :: ?l)] =>
          lazymatch l with [] => fail | _ => rewrite (replies_cons x l) end
      | |- context [cleanups (?x :: ?l)] =>
          lazymatch l with [] => fail | _ => rewrite (cleanups_cons x l) end
      end ].

Lemma silent_events (es : list event) :
  Forall silent es -> replies es = [] /\ cleanups es = [].
Proof.
  induction 1 as [|e es He _ [IH1 IH2]]; [now split|].
  destruct e; cbn in He; try contradiction; cbn; auto.
Qed.

Lemma framed_silent (i o : string) (fs : gmap string file) (t : list entry) :
  Forall (framed i o fs) t -> Forall silent (fst <$> t).
Proof.
  intros H. apply Forall_fmap. apply (Forall_impl _ _ _ H).
  intros [e s] [He _]. destruct e; cbn in *; auto.
Qed.

Lemma reaction_entries_steady chat r fs : steady fs (reaction_entries chat r fs).
Proof. unfold reaction_entries. destruct (may_react chat r); repeat constructor. Qed.

Lemma reaction_entries_silent chat r fs :
  Forall silent (fst <$> reaction_entries chat r fs).
Proof. unfold reaction_entries. destruct (may_react chat r); repeat constructor. Qed.

(** [cleanup_file] in closed form. *)
Lemma cleanup_file_eq (p : string) (fs : gmap string file) :
  cleanup_file p fs
  = (tt, delete p fs,
     (EvCleanup p, fs)
     :: (if bool_decide (is_Some (fs !! p))
         then [(EvRemove p, delete p fs); (EvLog INFO (MsgCleanedUp p), delete p fs)]
         else [])).
Proof.
  unfold cleanup_file. io_unfold. cbn.
  destruct (bool_decide (is_Some (fs !! p))) eqn:E; cbn; [reflexivity|].
  apply bool_decide_eq_false in E. rewrite <- eq_None_not_Some in E.
  now rewrite (delete_id _ _ E).
Qed.


Lemma cleanup_file_events (p : string) (fs : gmap string file) :
  replies (events_of (cleanup_file p fs)) = []
  /\ cleanups (events_of (cleanup_file p fs)) = [p].
Proof.
  rewrite cleanup_file_eq. unfold events_of, trace_of; cbn [snd].
  now destruct (bool_decide _).
Qed.

Lemma cleanup_file_snapshots (p : string) (fs : gmap string file) :
  Forall (fun en : entry => en.2 = fs \/ en.2 = delete p fs)
    (trace_of (cleanup_file p fs)).
Proof.
  rewrite cleanup_file_eq. unfold trace_of; cbn [snd].
  destruct (bool_decide _);
    repeat first [apply List.Forall_nil | apply List.Forall_cons; [cbn; auto|]].
Qed.

#[local] Arguments add_reaction : simpl never.
#[local] Arguments cleanup_file : simpl never.
#[local] Arguments upload_video : simpl never.
#[local] Arguments handle_download_error : simpl never.
#[local] Arguments handle_file_too_large : simpl never.
#[local] Arguments handle_compression_failed : simpl never.
#[local] Arguments compress_video : simpl never.
#[local] Arguments reaction_entries : simpl never.

Lemma add_reaction_eq chat r fs :
  add_reaction chat r (io_ret tt) fs = (tt, fs, reaction_entries chat r fs).
Proof.
  unfold add_reaction, reaction_entries. now destruct (may_react chat r).
Qed.

Lemma handle_download_error_eq chat fs :
  handle_download_error chat fs
  = (tt, fs, handler_entries chat ReplyDownloadFailed MsgDownloadFailed fs).
Proof.
  unfold handle_download_error, handler_entries, message_reply.
  io_unfold. cbn. now rewrite add_reaction_eq.
Qed.

Lemma handle_file_too_large_eq chat n fs :
  handle_file_too_large chat n fs
  = (tt, fs, handler_entries chat (ReplyTooLarge n) MsgTooLarge fs).
Proof.
  unfold handle_file_too_large, handler_entries, message_reply.
  io_unfold. cbn. now rewrite add_reaction_eq.
Qed.

Lemma handle_compression_failed_eq chat n fs :
  handle_compression_failed chat n fs
  = (tt, fs, handler_entries chat (ReplyCompressionFailed n) MsgNotCompressed fs).
Proof.
  unfold handle_compression_failed, handler_entries, message_reply.
  io_unfold. cbn. now rewrite add_reaction_eq.
Qed.

Lemma handler_entries_steady chat rp m fs : steady fs (handler_entries chat rp m fs).
Proof.
  unfold handler_entries. constructor; [reflexivity|].
  apply Forall_app. split; [apply reaction_entries_steady | now repeat constructor].
Qed.

Lemma handler_entries_events chat rp m fs :
  replies (fst <$> handler_entries chat rp m fs) = [rp]
  /\ cleanups (fst <$> handler_entries chat rp m fs) = [].
Proof.
  unfold handler_entries, reaction_entries.
  now destruct (may_react chat Failed).
Qed.

(** [upload_video] in closed form. *)
Lemma upload_video_eq chat path title fs :
  upload_video chat path title fs
  = (upload_outcome chat path fs, delete path fs,
     upload_body chat path title fs ++ trace_of (cleanup_file path fs)).
Proof.
  unfold upload_video, upload_outcome, upload_body, upload_verdict, message_reply.
  io_unfold. cbn.
  destruct (if bool_decide (is_Some (fs !! path)) then upload chat
            else UploadException);
    cbn; rewrite add_reaction_eq, cleanup_file_eq; cbn;
    rewrite ?app_nil_r, <- ?app_assoc; reflexivity.
Qed.

Lemma upload_body_steady chat path title fs :
  steady fs (upload_body chat path title fs).
Proof.
  unfold upload_body. destruct (upload_verdict chat path fs);
    repeat (constructor; [reflexivity|]);
    try (apply Forall_app; split; [|now repeat constructor]);
    apply reaction_entries_steady.
Qed.

Lemma upload_body_events chat path title fs :
  cleanups (fst <$> upload_body chat path title fs) = []
  /\ exists rp, replies (fst <$> upload_body chat path title fs) = [rp]
               /\ notifies (upload_outcome chat path fs) rp
               /\ (forall p, upload_outcome chat path fs = Delivered p ->
                    rp = ReplyFile (attachment_name title) path).
Proof.
  unfold upload_body, upload_outcome, reaction_entries.
  destruct (upload_verdict chat path fs);
    destruct (may_react chat _); cbn; (split; [reflexivity|]);
    eexists; (split; [reflexivity|]); split; try exact I; try reflexivity;
    try discriminate; auto.
Qed.

Section Request.
Variable cfg : config.
Variable chat : client.
Variable probe : probe_result.
Variable enc : encoder.
Variable url : string.

#[local] Abbreviation process := (fun fetch => process_video_url cfg chat fetch probe enc url).

Lemma process_fetch_fails (fs : gmap string file) :
  process FetchFails fs
  = (Ok DownloadFailed, fs,
     (if may_react chat Downloading
      then [(EvReaction Downloading, fs)]
      else [(EvLog WARNING MsgMissingPermission, fs)])
     ++ [(EvLog INFO MsgDownloading, fs); (EvLog ERROR MsgDownloadError, fs)]
     ++ handler_entries chat ReplyDownloadFailed MsgDownloadFailed fs).
Proof.
  unfold process_video_url, download_video, add_reaction at 1. io_unfold.
  destruct (may_react chat Downloading); cbn;
    rewrite handle_download_error_eq; cbn; now rewrite app_nil_r.
Qed.

Lemma process_small (fp : string) (f : file) (title : string)
    (fs : gmap string file) :
  (MAX_FILE_SIZE cfg <? file_size f) = false ->
  process (Fetched fp f title) fs
  = (Ok (upload_outcome chat fp (<[fp := f]> fs)), delete fp (<[fp := f]> fs),
     prelude chat url fp f fs
     ++ trace_of (upload_video chat fp title (<[fp := f]> fs))).
Proof.
  intros Hsmall.
  unfold process_video_url, download_video, add_reaction at 1, prelude.
  io_unfold.
  destruct (may_react chat Downloading); cbn;
    rewrite lookup_insert_eq; cbn; rewrite Hsmall;
    rewrite upload_video_eq; cbn; now rewrite app_nil_r.
Qed.

Lemma process_too_large (fp : string) (f : file) (title : string)
    (fs : gmap string file) :
  (MAX_FILE_SIZE cfg <? file_size f) = true ->
  ENABLE_COMPRESSION cfg = false ->
  process (Fetched fp f title) fs
  = (Ok (TooLarge (file_size f)), delete fp (<[fp := f]> fs),
     prelude chat url fp f fs
     ++ handler_entries chat (ReplyTooLarge (file_size f)) MsgTooLarge
          (<[fp := f]> fs)
     ++ trace_of (cleanup_file fp (<[fp := f]> fs))).
Proof.
  intros Hbig Hoff.
  unfold process_video_url, download_video, add_reaction at 1, prelude.
  io_unfold.
  destruct (may_react chat Downloading); cbn;
    rewrite lookup_insert_eq; cbn; rewrite Hbig, Hoff;
    rewrite handle_file_too_large_eq, cleanup_file_eq; cbn;
    now rewrite app_nil_r.
Qed.

Lemma process_compress (fp : string) (f : file) (title : string)
    (fs : gmap string file) :
  (MAX_FILE_SIZE cfg <? file_size f) = true ->
  ENABLE_COMPRESSION cfg = true ->
  let fs1 := <[fp := f]> fs in
  let c := compress_video probe enc fp (MAX_FILE_SIZE cfg)
             (MAX_COMPRESSION_ATTEMPTS cfg) fs1 in
  let pre := prelude chat url fp f fs
             ++ (EvLog INFO MsgExceedsLimit, fs1)
             :: reaction_entries chat Compressing fs1 in
  process (Fetched fp f title) fs
  = match value_of c with
    | Raise e => (Raise e, fs_of c, pre ++ trace_of c)
    | Ok (Some p) =>
        let fs3 := delete fp (fs_of c) in
        (Ok (upload_outcome chat p fs3), delete p fs3,
         pre ++ trace_of c ++ trace_of (cleanup_file fp (fs_of c))
         ++ (EvLog INFO MsgCompressionOk, fs3)
         :: trace_of (upload_video chat p title fs3))
    | Ok None =>
        (Ok (CompressionFailed (file_size f)), delete fp (fs_of c),
         pre ++ trace_of c
         ++ (EvLog WARNING MsgCompressionFailed, fs_of c)
         :: handler_entries chat (ReplyCompressionFailed (file_size f))
              MsgNotCompressed (fs_of c)
         ++ trace_of (cleanup_file fp (fs_of c)))
    end.
Proof.
  intros Hbig Hon fs1 c pre.
  pose proof (compress_video_some probe enc fp (MAX_FILE_SIZE cfg)
                (MAX_COMPRESSION_ATTEMPTS cfg) fs1) as Hsome.
  fold c in Hsome. subst pre.
  unfold process_video_url, download_video, add_reaction at 1, prelude.
  io_unfold.
  destruct (may_react chat Downloading); cbn;
    rewrite lookup_insert_eq; cbn; rewrite Hbig, Hon; cbn;
    rewrite add_reaction_eq; fold fs1; fold c;
    destruct c as [[[[p|]|e] fs2] t]; cbn in *.
  all: try (rewrite handle_compression_failed_eq, cleanup_file_eq; cbn;
            rewrite ?app_nil_r, <- ?app_assoc; reflexivity).
  all: try (rewrite ?app_nil_r, <- ?app_assoc; reflexivity).
  all: destruct (Hsome _ eq_refl) as (-> & f' & Hf' & _).
  all: destruct (String.eqb_spec (output_path_of fp) "") as [E|_];
         [now apply output_path_nonempty in E|]; cbn.
  all: rewrite cleanup_file_eq; cbn.
  all: rewrite lookup_delete_ne, Hf' by (apply not_eq_sym, output_path_fresh); cbn.
  all: rewrite upload_video_eq; cbn.
  all: rewrite ?app_nil_r, <- ?app_assoc; cbn; rewrite <- ?app_assoc; reflexivity.
Qed.

Lemma prelude_silent (fp : string) (f : file) (fs : gmap string file) :
  Forall silent (fst <$> prelude chat url fp f fs).
Proof.
  unfold prelude. destruct (may_react chat Downloading); repeat constructor.
Qed.

Lemma upload_video_events (path title : string) (fs : gmap string file) :
  cleanups (events_of (upload_video chat path title fs)) = [path]
  /\ exists rp,
       replies (events_of (upload_video chat path title fs)) = [rp]
       /\ notifies (upload_outcome chat path fs) rp
       /\ (forall p, upload_outcome chat path fs = Delivered p ->
            p = path /\ rp = ReplyFile (attachment_name title) path).
Proof.
  rewrite upload_video_eq. project.
  rewrite fmap_app, replies_app, cleanups_app.
  destruct (cleanup_file_events path fs) as [Hr Hc].
  unfold events_of in Hr, Hc. rewrite Hr, Hc.
  destruct (upload_body_events chat path title fs) as (Hc' & rp & Hr' & Hn & Hd).
  rewrite Hc', Hr'. split; [reflexivity|].
  exists rp. rewrite app_nil_r. repeat split; eauto.
  unfold upload_outcome in H. now destruct (upload_verdict _ _ _); inversion H.
Qed.

Lemma compress_video_silent (fp : string) (B n : Z) (fs : gmap string file) :
  Forall silent (events_of (compress_video probe enc fp B n fs)).
Proof.
  destruct (compress_video_framed probe enc fp B n fs) as [_ H].
  now apply framed_silent in H.
Qed.

(** What a run of [process_video_url] that ends in an outcome has sent and
    cleaned up. *)
Lemma process_summary (fetch : fetch_result) (fs : gmap string file)
    (o : outcome) :
  value_of (process fetch fs) = Ok o ->
  exists rp,
    replies (events_of (process fetch fs)) = [rp]
    /\ notifies o rp
    /\ (forall p, o = Delivered p ->
         exists fp f title,
           fetch = Fetched fp f title /\ rp = ReplyFile (attachment_name title) p)
    /\ match fetch with
       | FetchFails =>
           o = DownloadFailed /\ cleanups (events_of (process fetch fs)) = []
       | Fetched fp f title =>
           (cleanups (events_of (process fetch fs)) = [fp]
            /\ forall p, o = Delivered p -> p = fp)
           \/ (cleanups (events_of (process fetch fs)) = [fp; output_path_of fp]
               /\ forall p, o = Delivered p -> p = output_path_of fp)
       end
    /\ forall p, p ∈ cleanups (events_of (process fetch fs)) ->
                 fs_of (process fetch fs) !! p = None.
Proof.
  destruct fetch as [|fp f title].
  - rewrite process_fetch_fails. project. intros [= <-].
    destruct (handler_entries_events chat ReplyDownloadFailed MsgDownloadFailed fs)
      as [Hr Hc].
    exists ReplyDownloadFailed.
    rewrite !fmap_app, !replies_app, !cleanups_app, Hr, Hc.
    destruct (may_react chat Downloading); cbn;
      (repeat split; try discriminate; try easy).
  - destruct (MAX_FILE_SIZE cfg <? file_size f) eqn:Hbig;
      [destruct (ENABLE_COMPRESSION cfg) eqn:Hon|].
    + (* compression *)
      rewrite (process_compress fp f title fs Hbig Hon). cbn zeta.
      pose proof (compress_video_some probe enc fp (MAX_FILE_SIZE cfg)
                    (MAX_COMPRESSION_ATTEMPTS cfg) (<[fp := f]> fs)) as Hsome.
      pose proof (silent_events _ (compress_video_silent fp (MAX_FILE_SIZE cfg)
                    (MAX_COMPRESSION_ATTEMPTS cfg) (<[fp := f]> fs))) as [Hcr Hcc].
      pose proof (silent_events _ (prelude_silent fp f fs)) as [Hpr Hpc].
      pose proof (silent_events _ (reaction_entries_silent chat Compressing
                    (<[fp := f]> fs))) as [Hrr Hrc].
      unfold events_of in Hcr, Hcc.
      destruct (value_of (compress_video _ _ _ _ _ _)) as [[p|]|e];
        project; [| |discriminate]; intros [= <-].
      * destruct (Hsome _ eq_refl) as (-> & _).
        set (fs3 := delete fp _).
        destruct (upload_video_events (output_path_of fp) title fs3)
          as (Huc & rp & Hur & Hn & Hd).
        destruct (cleanup_file_events fp
                    (fs_of (compress_video probe enc fp (MAX_FILE_SIZE cfg)
                       (MAX_COMPRESSION_ATTEMPTS cfg) (<[fp := f]> fs))))
          as [Hkr Hkc].
        unfold events_of in Huc, Hur, Hkr, Hkc.
        exists rp.
        split_events. cbn [fst]. rewrite Hpr, Hpc, Hrr, Hrc, Hcr, Hcc, Hkr, Hkc, Hur, Huc.
        cbn. repeat split; auto.
        -- intros p Hp. destruct (Hd p Hp) as [-> ->]. eauto.
        -- right. split; [reflexivity|]. intros p Hp. now destruct (Hd p Hp).
        -- intros p Hp. apply list_elem_of_In in Hp as [<-|[<-|[]]].
           ++ rewrite lookup_delete_ne by apply output_path_fresh.
              apply lookup_delete_eq.
           ++ apply lookup_delete_eq.
      * destruct (handler_entries_events chat
                    (ReplyCompressionFailed (file_size f)) MsgNotCompressed
                    (fs_of (compress_video probe enc fp (MAX_FILE_SIZE cfg)
                       (MAX_COMPRESSION_ATTEMPTS cfg) (<[fp := f]> fs))))
          as [Hhr Hhc].
        destruct (cleanup_file_events fp
                    (fs_of (compress_video probe enc fp (MAX_FILE_SIZE cfg)
                       (MAX_COMPRESSION_ATTEMPTS cfg) (<[fp := f]> fs))))
          as [Hkr Hkc].
        unfold events_of in Hhr, Hhc, Hkr, Hkc.
        exists (ReplyCompressionFailed (file_size f)).
        split_events. cbn [fst]. rewrite Hpr, Hpc, Hrr, Hrc, Hcr, Hcc, Hkr, Hkc, Hhr, Hhc.
        cbn. repeat split; try discriminate; auto.
        -- left. split; [reflexivity | discriminate].
        -- intros p Hp. apply list_elem_of_In in Hp as [<-|[]].
           apply lookup_delete_eq.
    + (* too large, compression disabled *)
      rewrite (process_too_large fp f title fs Hbig Hon). project.
      intros [= <-].
      pose proof (silent_events _ (prelude_silent fp f fs)) as [Hpr Hpc].
      destruct (handler_entries_events chat (ReplyTooLarge (file_size f))
                  MsgTooLarge (<[fp := f]> fs)) as [Hhr Hhc].
      destruct (cleanup_file_events fp (<[fp := f]> fs)) as [Hkr Hkc].
      unfold events_of in Hkr, Hkc.
      exists (ReplyTooLarge (file_size f)).
      split_events.
      rewrite Hpr, Hpc, Hkr, Hkc, Hhr, Hhc.
      cbn. repeat split; try discriminate; auto.
      * left. split; [reflexivity | discriminate].
      * intros p Hp. apply list_elem_of_In in Hp as [<-|[]].
        apply lookup_delete_eq.
    + (* within the limit *)
      rewrite (process_small fp f title fs Hbig). project.
      intros [= <-].
      pose proof (silent_events _ (prelude_silent fp f fs)) as [Hpr Hpc].
      destruct (upload_video_events fp title (<[fp := f]> fs))
        as (Huc & rp & Hur & Hn & Hd).
      unfold events_of in Huc, Hur.
      exists rp.
      split_events.
      rewrite Hpr, Hpc, Hur, Huc.
      cbn. repeat split; auto.
      * intros p Hp. destruct (Hd p Hp) as [-> ->]. eauto.
      * left. split; [reflexivity|]. intros p Hp. now destruct (Hd p Hp).
      * intros p Hp. apply list_elem_of_In in Hp as [<-|[]].
        apply lookup_delete_eq.
Qed.

End Request.

(** ** Which files exist when *)

Lemma steady_below (D : gset string) (fs : gmap string file) (t : list entry) :
  steady fs t -> dom fs ⊆ D -> Forall (below D) t.
Proof.
  intros H HD. apply (Forall_impl _ _ _ H). intros en Hen.
  unfold below. now rewrite Hen.
Qed.

Lemma cleanup_file_below (D : gset string) (p : string) (fs : gmap string file) :
  dom fs ⊆ D -> Forall (below D) (trace_of (cleanup_file p fs)).
Proof.
  intros HD. apply (Forall_impl _ _ _ (cleanup_file_snapshots p fs)).
  intros en [Hen|Hen]; unfold below; rewrite Hen; [exact HD|].
  rewrite dom_delete_L. set_solver.
Qed.

Lemma upload_video_below (D : gset string) chat (p title : string)
    (fs : gmap string file) :
  dom fs ⊆ D -> Forall (below D) (trace_of (upload_video chat p title fs)).
Proof.
  intros HD. rewrite upload_video_eq. project. apply Forall_app. split.
  - apply (steady_below D fs); [apply upload_body_steady | exact HD].
  - now apply cleanup_file_below.
Qed.

Lemma below_one_asset (fs0 : gmap string file) (p : string) (t : list entry) :
  Forall (below (dom fs0 ∪ {[p]})) t -> Forall (one_asset fs0) t.
Proof.
  intros H. apply (Forall_impl _ _ _ H). intros en Hen.
  unfold one_asset, created, below in *.
  rewrite <- (size_singleton (C:=gset string) p). apply subseteq_size.
  set_solver.
Qed.

Lemma prelude_below chat (url fp : string) (f : file) (fs : gmap string file) :
  Forall (below (dom fs ∪ {[fp]})) (prelude chat url fp f fs).
Proof.
  unfold prelude, below.
  destruct (may_react chat Downloading);
    repeat first [apply List.Forall_nil | apply List.Forall_cons];
    cbn; rewrite ?dom_insert_L; set_solver.
Qed.

Lemma framed_dom (i o : string) (fs s : gmap string file) :
  delete o s = delete o fs -> dom s ⊆ dom fs ∪ {[o]}.
Proof.
  intros H. apply (f_equal dom) in H. rewrite !dom_delete_L in H.
  intros x Hx. destruct (decide (x = o)) as [->|Hne]; [set_solver|].
  assert (x ∈ dom s ∖ {[o]}) as Hx' by set_solver.
  rewrite H in Hx'. set_solver.
Qed.

(** A run in which the chat service rejects the attachment: the user is
    told once, and both files are removed. *)
Lemma rejected_upload_example :
  let r := process_video_url default_config Scenario.chat_rejects
             Scenario.big_fetch Scenario.probe_ok Scenario.first_fits
             Scenario.url ∅ in
  value_of r = Ok UploadFailed
  /\ replies (events_of r) = [ReplyUploadHTTPError]
  /\ cleanups (events_of r) = [Scenario.clip; Scenario.candidate]
  /\ fs_of r = ∅.
Proof. cbn zeta. repeat split; vm_compute; reflexivity. Qed.

End HandlerFacts.


(** * The claims about [process_video_url] *)

Module HandlerClaims.
Import Py Compressor Downloader VideoHandler Pipeline PathFacts LoopFacts
  HandlerFacts.



(** C9, as the code has it. For every delivered outcome, the one reply
    carries the delivered file under the name made of the first 50
    characters of the video title followed by [".mp4"], whatever the
    extension of the delivered file. *)
Theorem attachment_is_title_prefix_dot_mp4
    (cfg : config) (chat : client) (fetch : fetch_result)
    (probe : probe_result) (enc : encoder) (url : string)
    (fs : gmap string file) (p : string) :
  let r := process_video_url cfg chat fetch probe enc url fs in
  value_of r = Ok (Delivered p) ->
  exists fp f title,
    fetch = Fetched fp f title
    /\ replies (events_of r) = [ReplyFile (Path.take 50 title ++ ".mp4") p]
    /\ (String.length (Path.take 50 title) <= 50)%nat
    /\ (Path.take 50 title ++ Path.drop 50 title)%string = title.
Proof.
  cbn zeta. intros Hv.
  destruct (process_summary cfg chat probe enc url fetch fs _ Hv)
    as (rp & Hr & _ & Hd & _).
  destruct (Hd p eq_refl) as (fp & f & title & -> & ->).
  exists fp, f, title. repeat split.
  - exact Hr.
  - apply take_length.
  - apply take_drop.
Qed.

Lemma attachment_name_example :
  value_of (process_video_url default_config Scenario.chat_ok Scenario.big_fetch
              Scenario.probe_ok Scenario.second_fits Scenario.url ∅)
  = Ok (Delivered Scenario.candidate)
  /\ replies (events_of (process_video_url default_config Scenario.chat_ok
                           Scenario.big_fetch Scenario.probe_ok
                           Scenario.second_fits Scenario.url ∅))
     = [ReplyFile "clip.mp4" Scenario.candidate].
Proof.
  assert (Hv : value_of (process_video_url default_config Scenario.chat_ok
                           Scenario.big_fetch Scenario.probe_ok
                           Scenario.second_fits Scenario.url ∅)
               = Ok (Delivered Scenario.candidate)) by (vm_compute; reflexivity).
  split; [exact Hv|].
  destruct (attachment_is_title_prefix_dot_mp4 _ _ _ _ _ _ _ _ Hv)
    as (fp & f & title & [= <- <- <-] & Hr & _).
  exact Hr.
Defined.

(** C9, as the claim has it, fails: a 6 MiB download saved as [.webm] is
    delivered as it is, under the name ["clip.mp4"]; the extension of the
    delivered file, [".webm"], is not kept. *)
Lemma attachment_extension_not_kept :
  value_of (process_video_url default_config Scenario.chat_ok Scenario.webm_fetch
              Scenario.probe_ok Scenario.first_fits Scenario.url ∅)
  = Ok (Delivered Scenario.webm_clip)
  /\ replies (events_of (process_video_url default_config Scenario.chat_ok
                           Scenario.webm_fetch Scenario.probe_ok
                           Scenario.first_fits Scenario.url ∅))
     = [ReplyFile "clip.mp4" Scenario.webm_clip]
  /\ Path.splitext Scenario.webm_clip = ("./temp_downloads/abc123", ".webm")%string
  /\ "clip.mp4"%string <> (Path.take 50 "clip" ++ ".webm")%string.
Proof.
  split; [vm_compute; reflexivity|].
  split; [vm_compute; reflexivity|].
  split; [vm_compute; reflexivity|].
  discriminate.
Qed.

(** C8. Files the invocation put on disk. When the download fails there is
    never any. Otherwise, outside a compression every entry of the trace has
    at most one such file on disk. When the downloaded file is over the limit
    and compression is on, the trace is a prefix, the trace of
    [compress_video], and a suffix: the prefix has at most one such file at
    every entry; during [compress_video] the only such files are the
    downloaded file and the candidate at the one output path derived from it,
    and every entry there logs, removes that output path, or runs the tool
    from the downloaded file to that output path; when [compress_video]
    returns a path, the suffix starts with the call of [cleanup_file] on the
    downloaded file and its removal, and from that removal on there is again
    at most one such file; when it returns nothing, the whole suffix has at
    most one. *)
Theorem at_most_one_asset_outside_compression
    (cfg : config) (chat : client) (fetch : fetch_result)
    (probe : probe_result) (enc : encoder) (url : string)
    (fs : gmap string file) :
  let r := process_video_url cfg chat fetch probe enc url fs in
  match fetch with
  | FetchFails => Forall (fun en : entry => created fs en.2 = ∅) (trace_of r)
  | Fetched fp f title =>
      let out := output_path_of fp in
      let c := compress_video probe enc fp (MAX_FILE_SIZE cfg)
                 (MAX_COMPRESSION_ATTEMPTS cfg) (<[fp := f]> fs) in
      if (MAX_FILE_SIZE cfg <? file_size f) && ENABLE_COMPRESSION cfg then
        exists pre post,
          trace_of r = pre ++ trace_of c ++ post
          /\ Forall (one_asset fs) pre
          /\ Forall (fun en : entry =>
                       created fs en.2 ⊆ {[fp; out]}
                       /\ Ladder.touches_only fp out en.1) (trace_of c)
          /\ match value_of c with
             | Ok (Some _) =>
                 exists post',
                   post = (EvCleanup fp, fs_of c)
                          :: (EvRemove fp, delete fp (fs_of c)) :: post'
                   /\ Forall (one_asset fs)
                        ((EvRemove fp, delete fp (fs_of c)) :: post')
             | _ => Forall (one_asset fs) post
             end
      else Forall (one_asset fs) (trace_of r)
  end.
Proof.
  cbn zeta. destruct fetch as [|fp f title].
  - rewrite process_fetch_fails. project.
    assert (H : steady fs
                  ((if may_react chat Downloading
                    then [(EvReaction Downloading, fs)]
                    else [(EvLog WARNING MsgMissingPermission, fs)])
                   ++ [(EvLog INFO MsgDownloading, fs);
                       (EvLog ERROR MsgDownloadError, fs)]
                   ++ handler_entries chat ReplyDownloadFailed
                        MsgDownloadFailed fs)).
    { apply Forall_app. split; [destruct (may_react _ _); now repeat constructor|].
      apply Forall_app. split; [now repeat constructor|].
      apply handler_entries_steady. }
    apply (Forall_impl _ _ _ H). intros en Hen. unfold created. rewrite Hen.
    set_solver.
  - pose proof (prelude_below chat url fp f fs) as Hpre.
    assert (Hdom1 : dom (<[fp := f]> fs) ⊆ dom fs ∪ {[fp]})
      by (rewrite dom_insert_L; set_solver).
    destruct (MAX_FILE_SIZE cfg <? file_size f) eqn:Hbig;
      [destruct (ENABLE_COMPRESSION cfg) eqn:Hon|]; cbn [andb].
    + (* compression *)
      rewrite (process_compress cfg chat probe enc url fp f title fs Hbig Hon).
      cbn zeta.
      pose proof (CompressVideo.compress_video_framed probe enc fp
                    (MAX_FILE_SIZE cfg) (MAX_COMPRESSION_ATTEMPTS cfg)
                    (<[fp := f]> fs)) as [Hfs Htr].
      pose proof (CompressVideo.compress_video_some probe enc fp
                    (MAX_FILE_SIZE cfg) (MAX_COMPRESSION_ATTEMPTS cfg)
                    (<[fp := f]> fs)) as Hsome.
      set (c := compress_video probe enc fp (MAX_FILE_SIZE cfg)
                  (MAX_COMPRESSION_ATTEMPTS cfg) (<[fp := f]> fs)) in *.
      assert (Hwin : Forall (fun en : entry =>
                               created fs en.2 ⊆ {[fp; output_path_of fp]}
                               /\ Ladder.touches_only fp (output_path_of fp) en.1)
                       (trace_of c)).
      { apply (Forall_impl _ _ _ Htr). intros en [Ht Hd]. split; [|exact Ht].
        apply (framed_dom fp) in Hd. unfold created. set_solver. }
      assert (Hpre' : Forall (one_asset fs)
                        (prelude chat url fp f fs
                         ++ (EvLog INFO MsgExceedsLimit, <[fp := f]> fs)
                         :: reaction_entries chat Compressing (<[fp := f]> fs))).
      { apply (below_one_asset fs fp). apply Forall_app. split; [exact Hpre|].
        constructor; [exact Hdom1|].
        apply (steady_below _ (<[fp := f]> fs));
          [apply reaction_entries_steady | exact Hdom1]. }
      assert (Hfp : fs_of c !! fp = Some f).
      { rewrite (CompressVideo.frame_lookup (output_path_of fp) fp _ _ Hfs)
          by (apply not_eq_sym, output_path_fresh).
        apply lookup_insert_eq. }
      destruct (value_of c) as [[p|]|e] eqn:Hv; project.
      * destruct (Hsome _ eq_refl) as (-> & _).
        eexists _, _. split; [reflexivity|].
        split; [exact Hpre'|]. split; [exact Hwin|].
        rewrite cleanup_file_eq. project.
        rewrite bool_decide_eq_true_2 by (rewrite Hfp; eauto). cbn [app].
        eexists. split; [reflexivity|].
        apply (below_one_asset fs (output_path_of fp)).
        assert (Hd3 : dom (delete fp (fs_of c)) ⊆ dom fs ∪ {[output_path_of fp]}).
        { apply (framed_dom fp) in Hfs. rewrite dom_delete_L. set_solver. }
        repeat (constructor; [exact Hd3|]).
        now apply upload_video_below.
      * eexists _, _. split; [reflexivity|].
        split; [exact Hpre'|]. split; [exact Hwin|].
        apply (below_one_asset fs fp).
        assert (Hd2 : dom (fs_of c) ⊆ dom fs ∪ {[fp]}).
        { destruct (Hsome _ eq_refl) as [Hnone| ->]; [|exact Hdom1].
          apply (framed_dom fp) in Hfs.
          apply not_elem_of_dom in Hnone. set_solver. }
        constructor; [exact Hd2|]. apply Forall_app. split.
        -- apply (steady_below _ (fs_of c));
             [apply handler_entries_steady | exact Hd2].
        -- now apply cleanup_file_below.
      * exists (prelude chat url fp f fs
                ++ (EvLog INFO MsgExceedsLimit, <[fp := f]> fs)
                :: reaction_entries chat Compressing (<[fp := f]> fs)), [].
        rewrite app_nil_r. repeat split; auto.
    + (* too large, compression disabled *)
      rewrite (process_too_large cfg chat probe enc url fp f title fs Hbig Hon).
      project. apply (below_one_asset fs fp).
      apply Forall_app. split; [exact Hpre|].
      apply Forall_app. split.
      * apply (steady_below _ (<[fp := f]> fs));
          [apply handler_entries_steady | exact Hdom1].
      * now apply cleanup_file_below.
    + (* within the limit *)
      rewrite (process_small cfg chat probe enc url fp f title fs Hbig).
      project. apply (below_one_asset fs fp).
      apply Forall_app. split; [exact Hpre|].
      now apply upload_video_below.
Qed.

End HandlerClaims.


(** * The claims about the bitrates *)

Module PlannerClaims.
Import Py Compressor Ladder Numbers FloatFacts PathFacts LoopFacts CompressVideo.
Import Finite.

Lemma compression_levels_head (t : Z) (levels : list settings) :
  compression_levels t = Ok levels ->
  exists b2 b3,
    levels = [Settings t 28 "medium"; Settings b2 32 "fast";
              Settings b3 35 "veryfast"]
    /\ Py.bind (int_mul_float t f0_8) int_of_float = Ok b2
    /\ Py.bind (int_mul_float t f0_6) int_of_float = Ok b3.
Proof.
  unfold compression_levels.
  destruct (Py.bind (int_mul_float t f0_8) int_of_float) as [b2|]; [|discriminate].
  destruct (Py.bind (int_mul_float t f0_6) int_of_float) as [b3|]; [|discriminate].
  cbn. intros [= <-]. eauto.
Qed.

Lemma slice_to_head {A} (n : Z) (l : list A) (a : A) (rest : list A) :
  slice_to n l = a :: rest -> head l = Some a.
Proof.
  unfold slice_to. destruct (n <? 0).
  - destruct (Z.to_nat _), l; cbn; congruence.
  - destruct (Z.to_nat _), l; cbn; congruence.
Qed.

(** C3. For a budget [B >= 0] and a probed duration [D > 0], the bitrate
    planned for the first attempt is the floor of the double-precision
    quotient [(B * 8 * 0.85) / D]: [target_bitrate_of] returns it, it is the
    bitrate of the first rung, and whenever [compress_video] runs attempt 1
    it runs it with that bitrate. The quotient is a finite float, so that
    its floor exists, for every budget below [2^62] bytes and every
    duration of [2^-20] seconds or more. The safety margin is the double
    nearest to 0.85. *)
Theorem first_attempt_bitrate_is_floor (B : Z) (D : spec_float) :
  0 <= B ->
  SFltb (S754_zero false) D = true ->
  (safety_margin = S754_finite false 7656119366529843 (-53)
   /\ Z.abs (100 * 7656119366529843 - 85 * 2 ^ 53) <= 50)
  /\ (forall x t,
       float_of_int (B * 8) = Ok x ->
       floor (SFdiv prec emax (float_mul x f0_85) D) = Some t ->
       target_bitrate_of B D = Ok t
       /\ (forall levels, compression_levels t = Ok levels ->
            video_bitrate <$> head levels = Some t)
       /\ forall enc input_path max_attempts fs size s,
            (1%nat, s) ∈ runs (events_of
                                 (compress_video
                                    (ProbeFormat (Some D) (Some size))
                                    enc input_path B max_attempts fs)) ->
            video_bitrate s = t)
  /\ (B < 2 ^ 62 -> magnitude_above (-20) D ->
      exists x t,
        float_of_int (B * 8) = Ok x
        /\ floor (SFdiv prec emax (float_mul x f0_85) D) = Some t).
Proof.
  intros HB HD.
  split; [split; [reflexivity | vm_compute; discriminate]|].
  split; [|intros HB62 HDm; now apply quotient_finite].
  intros x t Hx Hq.
  assert (Ht : target_bitrate_of B D = Ok t).
  { unfold target_bitrate_of, int_mul_float. rewrite Hx. cbn [Py.bind].
    unfold float_truediv.
    assert (Hsign : sign_clear (SFdiv prec emax (float_mul x f0_85) D)).
    { apply float_div_sign; [|exact HD].
      apply float_mul_sign; [now apply (float_of_int_sign (B * 8)); [lia|] | reflexivity]. }
    destruct D as [sd|sd| |sd md ed]; try discriminate; cbn [Py.bind];
      now apply int_of_float_floor. }
  split; [exact Ht|]. split.
  - intros levels Hl.
    destruct (compression_levels_head t levels Hl) as (b2 & b3 & -> & _).
    reflexivity.
  - intros enc input_path max_attempts fs size s Hin.
    destruct (ladder_of (ProbeFormat (Some D) (Some size)) B max_attempts)
      as [ladder|] eqn:L.
    2: { rewrite (compress_video_no_runs _ _ _ _ _ fs L) in Hin. inversion Hin. }
    rewrite (compress_video_runs _ _ _ _ _ ladder fs L) in Hin.
    apply attempts_runs_numbered, numbered_head in Hin as [rest ->].
    unfold ladder_of in L. rewrite Ht in L. cbn [Py.bind] in L.
    destruct (compression_levels t) as [levels|] eqn:Hl; [|discriminate].
    injection L as L. apply slice_to_head in L.
    destruct (compression_levels_head t levels Hl) as (b2 & b3 & -> & _).
    now injection L as <-.
Qed.

Lemma first_attempt_bitrate_example :
  target_bitrate_of (8 * Scenario.MiB) Scenario.sixty_seconds = Ok 950708
  /\ exists x t,
       float_of_int (8 * Scenario.MiB * 8) = Ok x
       /\ floor (SFdiv prec emax (float_mul x f0_85) Scenario.sixty_seconds)
          = Some t.
Proof.
  assert (HB : 0 <= 8 * Scenario.MiB) by (vm_compute; discriminate).
  assert (HD : SFltb (S754_zero false) Scenario.sixty_seconds = true)
    by reflexivity.
  destruct (first_attempt_bitrate_is_floor (8 * Scenario.MiB)
              Scenario.sixty_seconds HB HD) as (_ & Hfloor & Hfinite).
  split.
  - apply (Hfloor (S754_finite false 4503599627370496 (-26)) 950708);
      vm_compute; reflexivity.
  - apply Hfinite; vm_compute; reflexivity.
Defined.

(** C1, where the code goes wrong: a probe that reports a duration of zero
    makes [compress_video] raise [ZeroDivisionError] at the line that
    computes the bitrate, for the configured 8 MiB budget and whatever the
    encoder or the disk; no attempt is made, and nothing catches it. *)
Theorem zero_duration_escapes
    (enc : encoder) (input_path : string) (max_attempts size : Z)
    (s : bool) (fs : gmap string file) :
  value_of (compress_video (ProbeFormat (Some (S754_zero s)) (Some size)) enc
              input_path (MAX_FILE_SIZE default_config) max_attempts fs)
  = Raise ZeroDivisionError
  /\ runs (events_of (compress_video (ProbeFormat (Some (S754_zero s)) (Some size))
                        enc input_path (MAX_FILE_SIZE default_config)
                        max_attempts fs)) = [].
Proof.
  split.
  - unfold compress_video. io_unfold. cbn. reflexivity.
  - apply compress_video_no_runs. reflexivity.
Qed.

(** The part of C1 that holds: a probe without a usable duration makes
    [compress_video] return [None] without an attempt. *)
Lemma missing_duration_returns_none
    (enc : encoder) (input_path : string) (B max_attempts : Z)
    (size : option Z) (fs : gmap string file) :
  value_of (compress_video (ProbeFormat None size) enc input_path B
              max_attempts fs) = Ok None
  /\ runs (events_of (compress_video (ProbeFormat None size) enc input_path B
                        max_attempts fs)) = [].
Proof. split; [reflexivity | now apply compress_video_no_runs]. Qed.

(** The exception leaves [process_video_url] too: no reply is sent and the
    downloaded file stays on disk. *)
Lemma zero_duration_crashes_the_handler :
  value_of (VideoHandler.process_video_url default_config Scenario.chat_ok
              Scenario.big_fetch
              (ProbeFormat (Some Scenario.zero_seconds) (Some (20 * Scenario.MiB)))
              Scenario.first_fits Scenario.url ∅)
  = Raise ZeroDivisionError
  /\ Pipeline.replies
       (events_of (VideoHandler.process_video_url default_config Scenario.chat_ok
                     Scenario.big_fetch
                     (ProbeFormat (Some Scenario.zero_seconds)
                        (Some (20 * Scenario.MiB)))
                     Scenario.first_fits Scenario.url ∅)) = []
  /\ fs_of (VideoHandler.process_video_url default_config Scenario.chat_ok
              Scenario.big_fetch
              (ProbeFormat (Some Scenario.zero_seconds) (Some (20 * Scenario.MiB)))
              Scenario.first_fits Scenario.url ∅) !! Scenario.clip
     = Some Scenario.original.
Proof. repeat split; vm_compute; reflexivity. Qed.

(** C6, as the claim has it, fails: with a budget of one byte and a duration
    of four seconds the three attempts are planned at 1, 0 and 0 bit/s; the
    third is not below the second. *)
Lemma bitrates_can_stall :
  Py.bind (target_bitrate_of 1 Scenario.four_seconds) compression_levels
  = Ok [Settings 1 28 "medium"; Settings 0 32 "fast"; Settings 0 35 "veryfast"]
  /\ ~ (video_bitrate (Settings 0 32 "fast")
        > video_bitrate (Settings 0 35 "veryfast")).
Proof. split; [vm_compute; reflexivity | cbn; lia]. Qed.

(** C6, as the code has it. For a fixed budget and duration whose
    first-attempt bitrate is at least 3 bit/s, the planned bitrate strictly
    decreases with the attempt index: attempt 1 is above attempt 2, which is
    above attempt 3. *)
Theorem bitrates_decrease_from_three
    (B : Z) (D : spec_float) (t : Z) (levels : list settings) :
  target_bitrate_of B D = Ok t ->
  3 <= t ->
  compression_levels t = Ok levels ->
  exists b2 b3,
    levels = [Settings t 28 "medium"; Settings b2 32 "fast";
              Settings b3 35 "veryfast"]
    /\ t > b2 /\ b2 > b3.
Proof.
  intros _ Ht Hl.
  destruct (compression_levels_head t levels Hl) as (b2 & b3 & -> & H2 & H3).
  exists b2, b3. split; [reflexivity|].
  destruct (Z_lt_le_dec t 6) as [Hsmall|Hbig].
  - assert (t = 3 \/ t = 4 \/ t = 5) as [->|[->| ->]] by lia;
      vm_compute in H2, H3; injection H2 as <-; injection H3 as <-; lia.
  - unfold int_mul_float in H2, H3.
    destruct (float_of_int t) as [x|] eqn:Hx; [|discriminate].
    cbn [Py.bind] in H2, H3.
    destruct (Rounding.float_of_int_R t x ltac:(lia) Hx) as (m & e & -> & HX).
    destruct (Rounding.scaled_bitrate_R t m e _ b2 ltac:(lia)
                ltac:(rewrite Rounding.F2R_f0_8; lra) HX H2) as (Y8 & HY8 & Hb2).
    destruct (Rounding.scaled_bitrate_R t m e _ b3 ltac:(lia)
                ltac:(rewrite Rounding.F2R_f0_6; lra) HX H3) as (Y6 & HY6 & Hb3).
    rewrite Rounding.F2R_f0_8 in HY8. rewrite Rounding.F2R_f0_6 in HY6.
    rewrite Rounding.u_value in *.
    apply Rounding.Rabs_bounds in HX, HY8, HY6.
    apply IZR_le in Hbig.
    set (X := F2R m e) in *. set (T := IZR t) in *.
    split; apply Z.lt_gt, lt_IZR; fold T; lra.
Qed.

Lemma bitrates_decrease_example :
  target_bitrate_of (8 * Scenario.MiB) Scenario.sixty_seconds = Ok 950708
  /\ compression_levels 950708
     = Ok [Scenario.rung_1; Scenario.rung_2; Scenario.rung_3]
  /\ 950708 > 760566 /\ 760566 > 570424.
Proof.
  assert (Ht : target_bitrate_of (8 * Scenario.MiB) Scenario.sixty_seconds
               = Ok 950708) by (vm_compute; reflexivity).
  assert (Hl : compression_levels 950708
               = Ok [Scenario.rung_1; Scenario.rung_2; Scenario.rung_3])
    by (vm_compute; reflexivity).
  split; [exact Ht | split; [exact Hl|]].
  destruct (bitrates_decrease_from_three _ _ _ _ Ht ltac:(lia) Hl)
    as (b2 & b3 & [= <- <-] & H).
  exact H.
Defined.

End PlannerClaims.


(** * Patterns and validators *)

Module ReFacts.
Import Re Language.

#[local] Arguments String.append : simpl nomatch.

Lemma append_nil_r (s : string) : (s ++ "")%string = s.
Proof. induction s as [|c s IH]; cbn; [reflexivity | f_equal; exact IH]. Qed.

Lemma append_assoc (a b c : string) : (a ++ (b ++ c) = (a ++ b) ++ c)%string.
Proof. induction a as [|x a IH]; cbn; [reflexivity | f_equal; exact IH]. Qed.

Lemma append_eq_nil (a b : string) : (a ++ b)%string = "" -> a = "" /\ b = "".
Proof. destruct a; cbn; [auto | discriminate]. Qed.

Lemma Lang_Never_inv (s : string) : Lang Never s -> False.
Proof. inversion 1. Qed.

Lemma Lang_Empty_inv (s : string) : Lang Empty s -> s = "".
Proof. now inversion 1. Qed.

Lemma Lang_Atom_inv (a : atom) (s : string) :
  Lang (Atom a) s -> exists c, s = String c "" /\ accepts a c = true.
Proof. inversion 1; subst; eauto. Qed.

Lemma Lang_Seq_inv (r1 r2 : regex) (s : string) :
  Lang (Seq r1 r2) s ->
  exists s1 s2, s = (s1 ++ s2)%string /\ Lang r1 s1 /\ Lang r2 s2.
Proof. inversion 1; subst; eauto. Qed.

Lemma Lang_Alt_inv (r1 r2 : regex) (s : string) :
  Lang (Alt r1 r2) s -> Lang r1 s \/ Lang r2 s.
Proof. inversion 1; subst; auto. Qed.

Lemma nullable_spec (r : regex) : nullable r = true <-> Lang r "".
Proof.
  induction r as [| |a|r1 IH1 r2 IH2|r1 IH1 r2 IH2|r IH]; cbn.
  - split; [discriminate | intros H; now apply Lang_Never_inv in H].
  - split; [constructor | reflexivity].
  - split; [discriminate|].
    intros H. apply Lang_Atom_inv in H as (c & E & _). discriminate.
  - rewrite andb_true_iff, IH1, IH2. split.
    + intros [H1 H2]. exact (Lang_Seq _ _ "" "" H1 H2).
    + intros H. apply Lang_Seq_inv in H as (s1 & s2 & E & H1 & H2).
      symmetry in E. apply append_eq_nil in E as [-> ->]. now split.
  - rewrite orb_true_iff, IH1, IH2. split.
    + intros [H|H]; [now apply Lang_Alt_l | now apply Lang_Alt_r].
    + apply Lang_Alt_inv.
  - split; [constructor | reflexivity].
Qed.

Lemma star_cons_inv (r : regex) (c : ascii) (s : string) :
  Lang (Star r) (String c s) ->
  exists s1 s2, s = (s1 ++ s2)%string /\ Lang r (String c s1) /\ Lang (Star r) s2.
Proof.
  intros H. remember (Star r) as R eqn:ER. remember (String c s) as w eqn:Ew.
  revert s Ew.
  induction H as [| | | | | |r' s1 s2 H1 _ H2 IH2]; try discriminate.
  injection ER as ->. intros s Ew.
  destruct s1 as [|c1 s1]; cbn in Ew.
  - now apply IH2.
  - injection Ew as -> <-. eauto.
Qed.

Lemma deriv_spec (r : regex) : forall (c : ascii) (s : string),
  Lang (deriv c r) s <-> Lang r (String c s).
Proof.
  induction r as [| |a|r1 IH1 r2 IH2|r1 IH1 r2 IH2|r IH]; intros c s; cbn.
  - split; intros H; now apply Lang_Never_inv in H.
  - split; intros H; [now apply Lang_Never_inv in H|].
    apply Lang_Empty_inv in H. discriminate.
  - destruct (accepts a c) eqn:Ha; split; intros H.
    + apply Lang_Empty_inv in H as ->. now constructor.
    + apply Lang_Atom_inv in H as (c' & [= <- ->] & _). constructor.
    + now apply Lang_Never_inv in H.
    + apply Lang_Atom_inv in H as (c' & [= <- ->] & H). congruence.
  - assert (Hl : forall s, Lang (Seq (deriv c r1) r2) s ->
                           Lang (Seq r1 r2) (String c s)).
    { intros s0 H. apply Lang_Seq_inv in H as (s1 & s2 & -> & H1 & H2).
      apply IH1 in H1. exact (Lang_Seq _ _ _ _ H1 H2). }
    assert (Hr : forall s, Lang (Seq r1 r2) (String c s) ->
                           (Lang r1 "" /\ Lang r2 (String c s))
                           \/ Lang (Seq (deriv c r1) r2) s).
    { intros s0 H. apply Lang_Seq_inv in H as (s1 & s2 & E & H1 & H2).
      destruct s1 as [|c1 s1]; cbn in E.
      - left. subst. now split.
      - right. injection E as <- ->. apply IH1 in H1. now constructor. }
    destruct (nullable r1) eqn:N1; split.
    + intros H. apply Lang_Alt_inv in H as [H|H]; [now apply Hl|].
      apply nullable_spec in N1. apply IH2 in H.
      exact (Lang_Seq _ _ "" _ N1 H).
    + intros H. apply Hr in H as [[_ H]|H].
      * apply Lang_Alt_r. now apply IH2.
      * now apply Lang_Alt_l.
    + apply Hl.
    + intros H. apply Hr in H as [[H _]|H]; [|exact H].
      apply nullable_spec in H. congruence.
  - split; intros H; apply Lang_Alt_inv in H as [H|H];
      [apply Lang_Alt_l; now apply IH1 | apply Lang_Alt_r; now apply IH2
      |apply Lang_Alt_l; now apply IH1 | apply Lang_Alt_r; now apply IH2].
  - split.
    + intros H. apply Lang_Seq_inv in H as (s1 & s2 & -> & H1 & H2).
      apply IH in H1. exact (Lang_Star_cons _ _ _ H1 H2).
    + intros H. apply star_cons_inv in H as (s1 & s2 & -> & H1 & H2).
      apply IH in H1. now constructor.
Qed.

Lemma matches_spec (s : string) : forall r : regex,
  matches r s = true <-> Pre r s.
Proof.
  unfold Pre. induction s as [|c s IH]; intros r; cbn.
  - rewrite orb_false_r, nullable_spec. split.
    + intros H. now exists "", "".
    + intros (p & t & E & H). symmetry in E. apply append_eq_nil in E as [-> _].
      exact H.
  - rewrite orb_true_iff, nullable_spec, IH. split.
    + intros [H|(p & t & -> & H)].
      * now exists "", (String c s).
      * exists (String c p), t. split; [reflexivity | now apply deriv_spec].
    + intros (p & t & E & H). destruct p as [|c' p]; cbn in E.
      * now left.
      * injection E as <- ->. right. exists p, t.
        split; [reflexivity | now apply deriv_spec].
Qed.

Lemma Pre_nullable (r : regex) (s : string) : nullable r = true -> Pre r s.
Proof. intros H. exists "", s. split; [reflexivity | now apply nullable_spec]. Qed.

Lemma Pre_Seq (x r : regex) (s : string) :
  Pre (Seq x r) s <->
  exists p s', s = (p ++ s')%string /\ Lang x p /\ Pre r s'.
Proof.
  split.
  - intros (q & t & -> & H). apply Lang_Seq_inv in H as (p & p' & -> & Hx & Hr).
    exists p, (p' ++ t)%string. split; [now rewrite append_assoc|].
    split; [exact Hx | now exists p', t].
  - intros (p & s' & -> & Hx & p' & t & -> & Hr).
    exists (p ++ p')%string, t. split; [apply append_assoc | now constructor].
Qed.

Lemma accepts_single (c c' : ascii) :
  accepts (Class false [(c, c)]) c' = true <-> c' = c.
Proof.
  cbn. rewrite orb_false_r, andb_true_iff, !N.leb_le. split.
  - intros [H1 H2]. assert (E : N_of_ascii c' = N_of_ascii c) by lia.
    apply (f_equal ascii_of_N) in E. now rewrite !ascii_N_embedding in E.
  - intros ->. lia.
Qed.

Lemma Lang_Chr (c : ascii) (p : string) : Lang (Chr c) p <-> p = String c "".
Proof.
  split.
  - intros H. apply Lang_Atom_inv in H as (c' & -> & H).
    apply accepts_single in H. now subst.
  - intros ->. constructor. now apply accepts_single.
Qed.

Lemma Lang_Lit (l p : string) : Lang (Lit l) p <-> p = l.
Proof.
  revert p. induction l as [|c l IH]; intros p; cbn [Lit].
  - split; [apply Lang_Empty_inv | intros ->; constructor].
  - split.
    + intros H. apply Lang_Seq_inv in H as (p1 & p2 & -> & H1 & H2).
      apply Lang_Chr in H1 as ->. apply IH in H2 as ->. reflexivity.
    + intros ->. apply (Lang_Seq _ _ (String c "") l);
        [now apply Lang_Chr | now apply IH].
Qed.

Lemma Lang_Opt (x : regex) (p : string) : Lang (Opt x) p <-> Lang x p \/ p = "".
Proof.
  split.
  - intros H. apply Lang_Alt_inv in H as [H|H]; [now left|].
    right. now apply Lang_Empty_inv.
  - intros [H| ->]; [now apply Lang_Alt_l | apply Lang_Alt_r; constructor].
Qed.

Lemma Lang_Star_every (a : atom) (p : string) :
  every (accepts a) p = true -> Lang (Star (Atom a)) p.
Proof.
  induction p as [|c p IH]; cbn; [constructor|].
  rewrite andb_true_iff. intros [Hc Hp].
  apply (Lang_Star_cons _ (String c "") p); [now constructor | now apply IH].
Qed.

Lemma Lang_Star_atom (a : atom) (p : string) :
  Lang (Star (Atom a)) p -> every (accepts a) p = true.
Proof.
  induction p as [|c p IH]; [reflexivity|].
  intros H. apply star_cons_inv in H as (s1 & s2 & E & H1 & H2).
  apply Lang_Atom_inv in H1 as (c' & [= <- ->] & Hc).
  cbn in E. subst s2. cbn. rewrite Hc. now apply IH.
Qed.

Lemma Lang_Plus_atom (a : atom) (p : string) :
  Lang (Plus (Atom a)) p <->
  exists c p', p = String c p' /\ accepts a c = true
               /\ every (accepts a) p' = true.
Proof.
  split.
  - intros H. apply Lang_Seq_inv in H as (p1 & p2 & -> & H1 & H2).
    apply Lang_Atom_inv in H1 as (c & -> & Hc).
    exists c, p2. split; [reflexivity|]. split; [exact Hc|].
    now apply Lang_Star_atom.
  - intros (c & p' & -> & Hc & Hp).
    apply (Lang_Seq _ _ (String c "") p'); [now constructor|].
    now apply Lang_Star_every.
Qed.

(** The shape shared by six of the seven patterns. *)
Lemma simple_pattern_shape (sub path : string) (a : atom) (url : string) :
  matches (cat [Lit "http"; Opt (Chr "s"); Lit "://"; Opt (Lit sub);
                Lit path; Plus (Atom a); Opt (Chr "/"); Star (Atom Dot)]) url
  = true <->
  exists scheme www c rest,
    In scheme ["http://"; "https://"]
    /\ In www [""; sub]
    /\ accepts a c = true
    /\ url = (scheme ++ www ++ path ++ String c rest)%string.
Proof.
  rewrite matches_spec. cbn [cat fold_right]. split.
  - intros H.
    apply Pre_Seq in H as (p1 & s1 & -> & H1 & H). apply Lang_Lit in H1 as ->.
    apply Pre_Seq in H as (p2 & s2 & -> & H2 & H). apply Lang_Opt in H2.
    apply Pre_Seq in H as (p3 & s3 & -> & H3 & H). apply Lang_Lit in H3 as ->.
    apply Pre_Seq in H as (p4 & s4 & -> & H4 & H). apply Lang_Opt in H4.
    apply Pre_Seq in H as (p5 & s5 & -> & H5 & H). apply Lang_Lit in H5 as ->.
    apply Pre_Seq in H as (p6 & s6 & -> & H6 & _).
    apply Lang_Plus_atom in H6 as (c & p' & -> & Hc & _).
    exists ("http" ++ p2 ++ "://")%string, p4, c, (p' ++ s6)%string.
    split; [|split; [|split; [exact Hc|]]].
    + destruct H2 as [H2| ->]; [apply Lang_Chr in H2 as ->|]; cbn; auto.
    + destruct H4 as [H4| ->]; [apply Lang_Lit in H4 as ->|]; cbn; auto.
    + destruct H2 as [H2| ->]; [apply Lang_Chr in H2 as ->|]; reflexivity.
  - intros (scheme & www & c & rest & Hs & Hw & Hc & ->).
    assert (Hs' : exists p2, (p2 = String "s" "" \/ p2 = "")
                             /\ scheme = ("http" ++ p2 ++ "://")%string).
    { destruct Hs as [<-|[<-|[]]]; [exists "" | exists "s"]; auto. }
    destruct Hs' as (p2 & Hp2 & ->).
    apply Pre_Seq. exists "http", (p2 ++ "://" ++ www ++ path ++ String c rest)%string.
    split; [now rewrite <- !append_assoc|]. split; [now apply Lang_Lit|].
    apply Pre_Seq. exists p2, ("://" ++ www ++ path ++ String c rest)%string.
    split; [reflexivity|]. split.
    { apply Lang_Opt. destruct Hp2 as [-> | ->]; [left; now apply Lang_Chr | now right]. }
    apply Pre_Seq. exists "://", (www ++ path ++ String c rest)%string.
    split; [reflexivity|]. split; [now apply Lang_Lit|].
    apply Pre_Seq. exists www, (path ++ String c rest)%string.
    split; [reflexivity|]. split.
    { apply Lang_Opt. destruct Hw as [<-|[<-|[]]]; [now right | left; now apply Lang_Lit]. }
    apply Pre_Seq. exists path, (String c rest).
    split; [reflexivity|]. split; [now apply Lang_Lit|].
    apply Pre_Seq. exists (String c ""), rest.
    split; [reflexivity|]. split.
    { apply Lang_Plus_atom. exists c, "". auto. }
    now apply Pre_nullable.
Qed.

Lemma Lang_Plus_every (a : atom) (p : string) :
  Lang (Plus (Atom a)) p <-> p <> "" /\ every (accepts a) p = true.
Proof.
  rewrite Lang_Plus_atom. split.
  - intros (c & p' & -> & Hc & Hp). split; [discriminate|].
    cbn. now rewrite Hc.
  - intros [Hne Hp]. destruct p as [|c p']; [contradiction|].
    cbn in Hp. apply andb_true_iff in Hp as [Hc Hp]. eauto.
Qed.

(** The seventh: a TikTok video under a user's page. *)
Lemma video_pattern_shape (url : string) :
  matches (cat [Lit "http"; Opt (Chr "s"); Lit "://"; Opt (Lit "www.");
                Lit "tiktok.com/@"; Plus (Atom ConfigPatterns.not_slash);
                Lit "/video/"; Plus (Atom ConfigPatterns.digit);
                Opt (Chr "/"); Star (Atom Dot)]) url
  = true <->
  exists scheme www user d rest,
    In scheme ["http://"; "https://"]
    /\ In www [""; "www."]
    /\ user <> ""
    /\ every (accepts ConfigPatterns.not_slash) user = true
    /\ accepts ConfigPatterns.digit d = true
    /\ url = (scheme ++ www ++ "tiktok.com/@" ++ user ++ "/video/"
              ++ String d rest)%string.
Proof.
  rewrite matches_spec. cbn [cat fold_right]. split.
  - intros H.
    apply Pre_Seq in H as (p1 & s1 & -> & H1 & H). apply Lang_Lit in H1 as ->.
    apply Pre_Seq in H as (p2 & s2 & -> & H2 & H). apply Lang_Opt in H2.
    apply Pre_Seq in H as (p3 & s3 & -> & H3 & H). apply Lang_Lit in H3 as ->.
    apply Pre_Seq in H as (p4 & s4 & -> & H4 & H). apply Lang_Opt in H4.
    apply Pre_Seq in H as (p5 & s5 & -> & H5 & H). apply Lang_Lit in H5 as ->.
    apply Pre_Seq in H as (user & s6 & -> & H6 & H).
    apply Lang_Plus_every in H6 as [Hne Hu].
    apply Pre_Seq in H as (p7 & s7 & -> & H7 & H). apply Lang_Lit in H7 as ->.
    apply Pre_Seq in H as (p8 & s8 & -> & H8 & _).
    apply Lang_Plus_atom in H8 as (d & p' & -> & Hd & _).
    exists ("http" ++ p2 ++ "://")%string, p4, user, d, (p' ++ s8)%string.
    split; [|split; [|split; [exact Hne|split; [exact Hu|split; [exact Hd|]]]]].
    + destruct H2 as [H2| ->]; [apply Lang_Chr in H2 as ->|]; cbn; auto.
    + destruct H4 as [H4| ->]; [apply Lang_Lit in H4 as ->|]; cbn; auto.
    + destruct H2 as [H2| ->]; [apply Lang_Chr in H2 as ->|]; reflexivity.
  - intros (scheme & www & user & d & rest & Hs & Hw & Hne & Hu & Hd & ->).
    assert (Hs' : exists p2, (p2 = String "s" "" \/ p2 = "")
                             /\ scheme = ("http" ++ p2 ++ "://")%string).
    { destruct Hs as [<-|[<-|[]]]; [exists "" | exists "s"]; auto. }
    destruct Hs' as (p2 & Hp2 & ->).
    set (tail := (www ++ "tiktok.com/@" ++ user ++ "/video/" ++ String d rest)%string).
    apply Pre_Seq. exists "http", (p2 ++ "://" ++ tail)%string.
    split; [now rewrite <- !append_assoc|]. split; [now apply Lang_Lit|].
    apply Pre_Seq. exists p2, ("://" ++ tail)%string.
    split; [reflexivity|]. split.
    { apply Lang_Opt. destruct Hp2 as [-> | ->]; [left; now apply Lang_Chr | now right]. }
    apply Pre_Seq. exists "://", tail.
    split; [reflexivity|]. split; [now apply Lang_Lit|].
    apply Pre_Seq. eexists www, _.
    split; [reflexivity|]. split.
    { apply Lang_Opt. destruct Hw as [<-|[<-|[]]]; [now right | left; now apply Lang_Lit]. }
    apply Pre_Seq. eexists "tiktok.com/@", _.
    split; [reflexivity|]. split; [now apply Lang_Lit|].
    apply Pre_Seq. eexists user, _.
    split; [reflexivity|]. split; [now apply Lang_Plus_every|].
    apply Pre_Seq. eexists "/video/", _.
    split; [reflexivity|]. split; [now apply Lang_Lit|].
    apply Pre_Seq. exists (String d ""), rest.
    split; [reflexivity|]. split.
    { apply Lang_Plus_atom. exists d, "". auto. }
    now apply Pre_nullable.
Qed.

(** A match is a match of a prefix: whatever follows is accepted. *)
Lemma matches_extend (r : regex) (s t : string) :
  matches r s = true -> matches r (s ++ t) = true.
Proof.
  rewrite !matches_spec. intros (p & q & -> & H).
  exists p, (q ++ t)%string. split; [now rewrite append_assoc | exact H].
Qed.

End ReFacts.

Module ValidatorFacts.
Import Re Language ReFacts ConfigPatterns Validators.

#[local] Arguments String.append : simpl nomatch.

Lemma split_from_app (a : string) : forall (word : string) (c : ascii) (b : string),
  isspace c = true ->
  split_from word (a ++ String c b) = split_from word a ++ split b.
Proof.
  induction a as [|x a IH]; intros word c b Hc.
  - cbn. rewrite Hc. now destruct (String.eqb word "").
  - cbn. destruct (isspace x).
    + destruct (String.eqb word ""); cbn; now rewrite IH.
    + now apply IH.
Qed.

Lemma matches_host (sub path : string) (a : atom) (url : string) :
  matches (cat [Lit "http"; Opt (Chr "s"); Lit "://"; Opt (Lit sub);
                Lit path; Plus (Atom a); Opt (Chr "/"); Star (Atom Dot)]) url
  = true ->
  exists scheme www rest,
    In scheme ["http://"; "https://"] /\ In www [""; sub]
    /\ url = (scheme ++ www ++ path ++ rest)%string.
Proof.
  intros H. apply simple_pattern_shape in H
    as (scheme & www & c & rest & Hs & Hw & _ & ->).
  now exists scheme, www, (String c rest).
Qed.

(** The host of a URL either validator accepts, and of a configured
    YouTube URL. *)
Lemma instagram_host (url : string) :
  is_instagram_url url = true ->
  exists scheme www rest,
    In scheme ["http://"; "https://"] /\ In www [""; "www."]
    /\ url = (scheme ++ www ++ "instagram.com/" ++ rest)%string.
Proof.
  unfold is_instagram_url, INSTAGRAM_PATTERNS. cbn [existsb].
  rewrite orb_false_r, orb_true_iff.
  intros [H|H]; apply matches_host in H as (s & w & rest & Hs & Hw & ->).
  - now exists s, w, ("reel/" ++ rest)%string.
  - now exists s, w, ("p/" ++ rest)%string.
Qed.

Lemma tiktok_host (url : string) :
  is_tiktok_url url = true ->
  exists scheme sub rest,
    In scheme ["http://"; "https://"] /\ In sub [""; "www."; "vm."]
    /\ url = (scheme ++ sub ++ "tiktok.com/" ++ rest)%string.
Proof.
  unfold is_tiktok_url, TIKTOK_PATTERNS. cbn [existsb].
  rewrite orb_false_r, !orb_true_iff.
  intros [H|[H|H]].
  - apply video_pattern_shape in H
      as (s & w & user & d & rest & Hs & Hw & _ & _ & _ & ->).
    exists s, w, ("@" ++ user ++ "/video/" ++ String d rest)%string.
    split; [exact Hs|]. split; [|reflexivity].
    destruct Hw as [<-|[<-|[]]]; cbn; auto.
  - apply matches_host in H as (s & w & rest & Hs & Hw & ->).
    exists s, w, rest. split; [exact Hs|]. split; [|reflexivity].
    destruct Hw as [<-|[<-|[]]]; cbn; auto.
  - apply matches_host in H as (s & w & rest & Hs & Hw & ->).
    exists s, w, ("t/" ++ rest)%string. split; [exact Hs|]. split; [|reflexivity].
    destruct Hw as [<-|[<-|[]]]; cbn; auto.
Qed.

Lemma youtube_host (url : string) :
  existsb (fun pattern => matches pattern url) YOUTUBE_PATTERNS = true ->
  exists scheme www host rest,
    In scheme ["http://"; "https://"] /\ In www [""; "www."]
    /\ In host ["youtube.com/"; "youtu.be/"]
    /\ url = (scheme ++ www ++ host ++ rest)%string.
Proof.
  unfold YOUTUBE_PATTERNS. cbn [existsb].
  rewrite orb_false_r, orb_true_iff.
  intros [H|H]; apply matches_host in H as (s & w & rest & Hs & Hw & ->).
  - exists s, w, "youtube.com/", ("shorts/" ++ rest)%string. cbn [In]. auto 6.
  - exists s, w, "youtu.be/", rest. cbn [In]. auto 6.
Qed.

Ltac hosts_differ :=
  repeat match goal with
         | H : In _ (_ :: _) |- _ => destruct H as [<-|H]
         | H : In _ [] |- _ => destruct H
         end;
  cbn in *; discriminate.

Lemma instagram_not_tiktok (url : string) :
  is_instagram_url url = true -> is_tiktok_url url = false.
Proof.
  intros Hi. destruct (is_tiktok_url url) eqn:Ht; [exfalso | reflexivity].
  apply instagram_host in Hi as (s & w & rest & Hs & Hw & ->).
  apply tiktok_host in Ht as (s' & w' & rest' & Hs' & Hw' & E).
  hosts_differ.
Qed.

Lemma extract_video_urls_omap (message : string) :
  extract_video_urls message
  = omap (fun word => if (is_supported_url word).1
                      then Some (word, (is_supported_url word).2) else None)
      (split message).
Proof.
  unfold extract_video_urls.
  enough (G : forall l acc,
             fold_left
               (fun urls word =>
                  let '(is_supported, platform) := is_supported_url word in
                  if is_supported : bool then urls ++ [(word, platform)]
                  else urls) l acc
             = acc ++ omap (fun word => if (is_supported_url word).1
                                        then Some (word, (is_supported_url word).2)
                                        else None) l)
    by apply (G _ []).
  induction l as [|w l IH]; intros acc; cbn [fold_left].
  - cbn. now rewrite List.app_nil_r.
  - rewrite IH. change (omap ?f (w :: l)) with
      (match f w with Some y => y :: omap f l | None => omap f l end).
    cbv beta. destruct (is_supported_url w) as [[] pf]; cbn [fst snd].
    + now rewrite <- List.app_assoc.
    + reflexivity.
Qed.

Lemma extracted_is_supported (message url : string) :
  In url (fst <$> extract_video_urls message) ->
  (is_supported_url url).1 = true.
Proof.
  rewrite extract_video_urls_omap. intros H.
  apply list_elem_of_In, list_elem_of_fmap in H as ([u p] & -> & H).
  apply list_elem_of_omap in H as (w & _ & H).
  destruct (is_supported_url w) as [[] pf] eqn:E; [|discriminate].
  injection H as <- <-. cbn. now rewrite E.
Qed.

Lemma extract_instagram_urls_filter (message : string) :
  extract_instagram_urls message
  = List.filter is_instagram_url (split message).
Proof.
  unfold extract_instagram_urls.
  enough (G : forall l acc,
             fold_left
               (fun urls word =>
                  if is_instagram_url word then urls ++ [word] else urls) l acc
             = acc ++ List.filter is_instagram_url l)
    by apply (G _ []).
  induction l as [|w l IH]; intros acc; cbn [fold_left List.filter].
  - now rewrite List.app_nil_r.
  - rewrite IH. destruct (is_instagram_url w).
    + now rewrite <- List.app_assoc.
    + reflexivity.
Qed.

End ValidatorFacts.


(** * Properties of the validators *)

Module ValidatorProperties.
Import Re Language ReFacts ConfigPatterns Validators ValidatorFacts.

#[local] Arguments String.append : simpl nomatch.

(** X1. [is_instagram_url] accepts exactly the strings that begin with
    [http://] or [https://], an optional [www.], [instagram.com/reel/] or
    [instagram.com/p/], and one character of the identifier; whatever follows
    is accepted. *)
Theorem is_instagram_url_shape (url : string) :
  is_instagram_url url = true <->
  exists scheme www kind c rest,
    In scheme ["http://"; "https://"]
    /\ In www [""; "www."]
    /\ In kind ["reel"; "p"]
    /\ accepts id_char c = true
    /\ url = (scheme ++ www ++ "instagram.com/" ++ kind ++ "/"
              ++ String c rest)%string.
Proof.
  unfold is_instagram_url, INSTAGRAM_PATTERNS. cbn [existsb].
  rewrite orb_false_r, orb_true_iff, !simple_pattern_shape. split.
  - intros [(s & w & c & rest & Hs & Hw & Hc & ->)
           |(s & w & c & rest & Hs & Hw & Hc & ->)].
    + exists s, w, "reel", c, rest. cbn [In]. auto 8.
    + exists s, w, "p", c, rest. cbn [In]. auto 8.
  - intros (s & w & kind & c & rest & Hs & Hw & [<-|[<-|[]]] & Hc & ->);
      [left | right]; exists s, w, c, rest; auto.
Qed.


(** X3. The label [is_supported_url] gives is the validator that accepts the
    URL: no URL is accepted by both, so the order of the two tests does not
    show. *)
Theorem is_supported_url_label (url : string) :
  (is_supported_url url = (true, "Instagram") <-> is_instagram_url url = true)
  /\ (is_supported_url url = (true, "TikTok") <-> is_tiktok_url url = true)
  /\ (is_supported_url url = (false, "")
      <-> is_instagram_url url = false /\ is_tiktok_url url = false).
Proof.
  unfold is_supported_url.
  destruct (is_instagram_url url) eqn:Hi.
  - rewrite (instagram_not_tiktok url Hi).
    repeat split; try discriminate; try reflexivity; intros []; discriminate.
  - destruct (is_tiktok_url url);
      repeat split; try discriminate; try reflexivity; intros []; discriminate.
Qed.

(** X4. A URL that matches one of the YouTube patterns of the configuration is
    not supported: [is_supported_url] never consults them. *)
Theorem youtube_is_not_supported (url : string) :
  existsb (fun pattern => matches pattern url) YOUTUBE_PATTERNS = true ->
  is_supported_url url = (false, "")
  /\ forall message, ~ In url (fst <$> extract_video_urls message).
Proof.
  intros Hy. apply youtube_host in Hy as (s & w & host & rest & Hs & Hw & Hh & ->).
  assert (Hi : is_instagram_url (s ++ w ++ host ++ rest) = false).
  { destruct (is_instagram_url _) eqn:Hi; [exfalso | reflexivity].
    apply instagram_host in Hi as (s' & w' & rest' & Hs' & Hw' & E).
    hosts_differ. }
  assert (Ht : is_tiktok_url (s ++ w ++ host ++ rest) = false).
  { destruct (is_tiktok_url _) eqn:Ht; [exfalso | reflexivity].
    apply tiktok_host in Ht as (s' & w' & rest' & Hs' & Hw' & E).
    hosts_differ. }
  assert (Hu : is_supported_url (s ++ w ++ host ++ rest) = (false, "")).
  { unfold is_supported_url. now rewrite Hi, Ht. }
  split; [exact Hu|].
  intros message Hin. apply extracted_is_supported in Hin. now rewrite Hu in Hin.
Qed.

Lemma youtube_example :
  is_supported_url Examples.short_video = (false, "").
Proof.
  assert (H : existsb (fun pattern => matches pattern Examples.short_video)
                YOUTUBE_PATTERNS = true) by (vm_compute; reflexivity).
  exact (proj1 (youtube_is_not_supported Examples.short_video H)).
Defined.

(** X5. Whatever is appended to a supported URL, the result is supported,
    under the same label. *)
Theorem trailing_text_is_kept (url t : string) :
  (is_supported_url url).1 = true ->
  is_supported_url (url ++ t) = is_supported_url url.
Proof.
  unfold is_supported_url.
  destruct (is_instagram_url url) eqn:Hi.
  - intros _. unfold is_instagram_url in *. apply existsb_exists in Hi as (p & Hp & Hm).
    assert (E : existsb (fun pattern => matches pattern (url ++ t)) INSTAGRAM_PATTERNS = true).
    { apply existsb_exists. exists p. split; [exact Hp | now apply matches_extend]. }
    now rewrite E.
  - destruct (is_tiktok_url url) eqn:Ht; [|discriminate]. intros _.
    assert (E : is_tiktok_url (url ++ t) = true).
    { unfold is_tiktok_url in *. apply existsb_exists in Ht as (p & Hp & Hm).
      apply existsb_exists. exists p. split; [exact Hp | now apply matches_extend]. }
    rewrite E. destruct (is_instagram_url (url ++ t)) eqn:Hi'; [|reflexivity].
    apply instagram_not_tiktok in Hi'. congruence.
Qed.

Lemma trailing_text_example :
  is_supported_url (Examples.short_link ++ ").") = (true, "TikTok").
Proof.
  rewrite (trailing_text_is_kept Examples.short_link ").");
    vm_compute; reflexivity.
Defined.

(** X6. The URLs of two messages joined by a whitespace character are those of
    the first followed by those of the second. *)
Theorem extract_video_urls_app (a b : string) (c : ascii) :
  isspace c = true ->
  extract_video_urls (a ++ String c b)
  = extract_video_urls a ++ extract_video_urls b.
Proof.
  intros Hc. rewrite !extract_video_urls_omap. unfold split.
  rewrite split_from_app by exact Hc. apply omap_app.
Qed.

Lemma extract_video_urls_example :
  extract_video_urls (("see " ++ Examples.reel)
                      ++ String " " ("and " ++ Examples.short_link))
  = [(Examples.reel, "Instagram"); (Examples.short_link, "TikTok")].
Proof.
  rewrite extract_video_urls_app by reflexivity. vm_compute. reflexivity.
Defined.

(** X7. [extract_instagram_urls] returns the URLs that [extract_video_urls]
    labels as Instagram, in the same order. *)
Theorem extract_instagram_urls_agrees (message : string) :
  extract_instagram_urls message
  = fst <$> List.filter (fun p => String.eqb p.2 "Instagram")
              (extract_video_urls message).
Proof.
  rewrite extract_instagram_urls_filter, extract_video_urls_omap.
  induction (split message) as [|w l IH]; [reflexivity|].
  change (omap ?f (w :: l)) with
    (match f w with Some y => y :: omap f l | None => omap f l end).
  cbv beta. cbn [List.filter]. unfold is_supported_url at 1 2.
  destruct (is_instagram_url w) eqn:Hi; cbn [fst snd].
  - cbn. f_equal. exact IH.
  - destruct (is_tiktok_url w); cbn; exact IH.
Qed.

End ValidatorProperties.


(** * The output path *)

Module PathProperties.
Import Path PathFacts ReFacts.

#[local] Arguments String.append : simpl nomatch.

Lemma rfind_range (c : ascii) (s : string) :
  -1 <= rfind c s < Z.of_nat (String.length s).
Proof.
  induction s as [|a s IH]; cbn [rfind String.length]; [lia|].
  destruct (Z.leb_spec 0 (rfind c s)); [lia|].
  destruct (Ascii.eqb a c); lia.
Qed.

Lemma rfind_app (c : ascii) (a b : string) :
  rfind c (a ++ b)%string
  = if 0 <=? rfind c b then Z.of_nat (String.length a) + rfind c b
    else rfind c a.
Proof.
  induction a as [|x a IH]; cbn [String.append rfind String.length].
  - destruct (Z.leb_spec 0 (rfind c b)); [lia|].
    pose proof (rfind_range c b). lia.
  - rewrite IH. destruct (Z.leb_spec 0 (rfind c b)) as [Hb|Hb].
    + destruct (Z.leb_spec 0 (Z.of_nat (String.length a) + rfind c b)); lia.
    + reflexivity.
Qed.

Lemma get_app_l (a b : string) (k : nat) :
  (k < String.length a)%nat -> String.get k (a ++ b)%string = String.get k a.
Proof.
  revert k. induction a as [|x a IH]; intros k Hk; cbn in Hk; [lia|].
  destruct k as [|k]; cbn; [reflexivity|]. apply IH. lia.
Qed.

Lemma finds_non_dot_ext (p p' : string) (n : nat) : forall i : nat,
  (forall k, (i <= k < i + n)%nat -> String.get k p' = String.get k p) ->
  finds_non_dot p' i n = finds_non_dot p i n.
Proof.
  induction n as [|n IH]; intros i H; cbn [finds_non_dot]; [reflexivity|].
  rewrite (H i) by lia. destruct (String.get i p) as [c|]; [|reflexivity].
  destruct (Ascii.eqb c "."); [|reflexivity].
  apply IH. intros k Hk. apply H. lia.
Qed.

Lemma finds_non_dot_more (p : string) (n m : nat) : forall i : nat,
  finds_non_dot p i n = true -> finds_non_dot p i (n + m) = true.
Proof.
  induction n as [|n IH]; intros i; cbn [finds_non_dot Nat.add]; [discriminate|].
  destruct (String.get i p) as [c|]; [|reflexivity].
  destruct (Ascii.eqb c "."); [apply IH | reflexivity].
Qed.

Lemma take_app_length (a b : string) : take (String.length a) (a ++ b)%string = a.
Proof. induction a as [|x a IH]; cbn; [now destruct b | now rewrite IH]. Qed.

Lemma drop_app_length (a b : string) : drop (String.length a) (a ++ b)%string = b.
Proof. induction a as [|x a IH]; cbn; [now destruct b | exact IH]. Qed.

Lemma take_length_le (n : nat) (s : string) :
  (n <= String.length s)%nat -> String.length (take n s) = n.
Proof.
  revert s. induction n as [|n IH]; intros [|a s] H; cbn in *; try lia.
  rewrite IH; lia.
Qed.

(** X8. The output path splits into the base of the input path followed by
    ["_compressed"], and the extension of the input path: the candidate keeps
    the extension, and with it the container format the encoder picks; and its
    last ["/"] is where the input path has it, so it lies in the same
    directory. *)
Theorem output_path_keeps_the_extension (input_path : string) :
  splitext (Compressor.output_path_of input_path)
  = (((splitext input_path).1 ++ "_compressed")%string,
     (splitext input_path).2)
  /\ rfind "/" (Compressor.output_path_of input_path) = rfind "/" input_path.
Proof.
  unfold Compressor.output_path_of.
  pose proof (splitext_app input_path) as Happ.
  pose proof (rfind_range "/" input_path) as Hsep.
  pose proof (rfind_range "." input_path) as Hdot.
  unfold splitext in *.
  set (sep := rfind "/" input_path) in *.
  set (dot := rfind "." input_path) in *.
  destruct ((sep <? dot)
            && finds_non_dot input_path (Z.to_nat (sep + 1))
                 (Z.to_nat (dot - (sep + 1)))) eqn:Hc; cbn [fst snd] in *.
  - apply andb_true_iff in Hc as [Hlt Hfind]. apply Z.ltb_lt in Hlt.
    set (base := take (Z.to_nat dot) input_path) in *.
    set (ext := drop (Z.to_nat dot) input_path) in *.
    assert (Hlen : Z.of_nat (String.length base) = dot).
    { unfold base. rewrite take_length_le; lia. }
    assert (Hd : rfind "." input_path = dot) by reflexivity.
    assert (Hs : rfind "/" input_path = sep) by reflexivity.
    rewrite <- Happ in Hd, Hs. rewrite rfind_app in Hd, Hs.
    pose proof (rfind_range "." base) as Hrb.
    pose proof (rfind_range "/" ext) as Hre.
    destruct (Z.leb_spec 0 (rfind "." ext)) as [Hde|Hde]; [|lia].
    destruct (Z.leb_spec 0 (rfind "/" ext)) as [Hse|Hse]; [lia|].
    assert (Hdot' : rfind "." (base ++ "_compressed" ++ ext)%string
                    = Z.of_nat (String.length (base ++ "_compressed")%string)).
    { rewrite append_assoc, rfind_app, length_app.
      destruct (Z.leb_spec 0 (rfind "." ext)); [|lia]. cbn. lia. }
    assert (Hsep' : rfind "/" (base ++ "_compressed" ++ ext)%string = sep).
    { rewrite append_assoc, rfind_app.
      destruct (Z.leb_spec 0 (rfind "/" ext)); [lia|].
      rewrite rfind_app. cbn. exact Hs. }
    split; [|exact Hsep'].
    rewrite Hdot', Hsep', length_app.
    assert (Hlt' : (sep <? Z.of_nat (String.length base + String.length "_compressed"))
                   = true) by (apply Z.ltb_lt; cbn; lia).
    rewrite Hlt'. cbn [andb].
    assert (Hfind' : finds_non_dot (base ++ "_compressed" ++ ext)%string
                       (Z.to_nat (sep + 1))
                       (Z.to_nat (Z.of_nat (String.length base + String.length "_compressed")
                                  - (sep + 1))) = true).
    { replace (Z.to_nat (Z.of_nat (String.length base + String.length "_compressed")
                         - (sep + 1)))
        with (Z.to_nat (dot - (sep + 1)) + 11)%nat by (cbn; lia).
      apply finds_non_dot_more.
      rewrite <- Hfind. apply finds_non_dot_ext. intros k Hk.
      rewrite <- Happ. rewrite !get_app_l by lia. reflexivity. }
    rewrite Hfind'. rewrite Nat2Z.id, <- length_app, append_assoc.
    now rewrite take_app_length, drop_app_length.
  - assert (Hdot' : rfind "." (input_path ++ "_compressed" ++ "")%string = dot).
    { rewrite rfind_app. reflexivity. }
    assert (Hsep' : rfind "/" (input_path ++ "_compressed" ++ "")%string = sep).
    { rewrite rfind_app. reflexivity. }
    split; [|exact Hsep'].
    rewrite Hdot', Hsep'.
    assert (Hfind : finds_non_dot (input_path ++ "_compressed" ++ "")%string
                      (Z.to_nat (sep + 1)) (Z.to_nat (dot - (sep + 1)))
                    = finds_non_dot input_path
                        (Z.to_nat (sep + 1)) (Z.to_nat (dot - (sep + 1)))).
    { apply finds_non_dot_ext. intros k Hk. apply get_app_l. lia. }
    rewrite Hfind, Hc. reflexivity.
Qed.

End PathProperties.


(** * More about [compress_video] *)

Module CompressorProperties.
Import Py Compressor Ladder Numbers FloatFacts PathFacts LoopFacts CompressVideo.

Section Loop.
Variable enc : encoder.
Variables input_path output_path : string.
Variable target_size_bytes : Z.

#[local] Abbreviation loop := (attempts enc input_path output_path target_size_bytes).
#[local] Abbreviation fits := (attempt_fits enc target_size_bytes).

(** The runs of the loop are the first rungs, in order, with consecutive
    attempt numbers. *)
Lemma attempts_runs_prefix (levels : list settings) : forall a fs,
  exists n, runs (events_of (loop a levels fs)) = take n (numbered a levels).
Proof.
  induction levels as [|s rest IH]; intros a fs.
  - now exists 0%nat.
  - destruct (fits a s) eqn:Hfit.
    + exists 1%nat. rewrite (attempts_events_fit _ _ _ _ _ _ _ _ Hfit), runs_pass.
      cbn. now rewrite take_0.
    + destruct (IH (S a) (after_run enc output_path a s fs)) as [n Hn].
      exists (S n).
      rewrite (attempts_events_next _ _ _ _ _ _ _ _ Hfit), runs_app, runs_pass, Hn.
      reflexivity.
Qed.

(** A path is returned by the run that comes last, and that run fits. *)
Lemma attempts_returns_last (levels : list settings) : forall a fs p,
  value_of (loop a levels fs) = Some p ->
  exists k s,
    last (runs (events_of (loop a levels fs))) = Some (k, s)
    /\ fits k s = true
    /\ fs_of (loop a levels fs) !! output_path = run_output (enc k s).
Proof.
  induction levels as [|s rest IH]; intros a fs p; [discriminate|].
  destruct (fits a s) eqn:Hfit.
  - intros _. exists a, s.
    split; [now rewrite (attempts_events_fit _ _ _ _ _ _ _ _ Hfit), runs_pass|].
    split; [exact Hfit|].
    rewrite attempts_cons, Hfit. project. apply after_run_lookup.
  - rewrite (attempts_events_next _ _ _ _ _ _ _ _ Hfit), runs_app, runs_pass.
    rewrite attempts_cons. destruct (fits a s); [discriminate|].
    cbn zeta. project. intros Hv.
    destruct (IH _ _ _ Hv) as (k & s' & Hl & Hk & Hfs).
    exists k, s'. split; [|split; [exact Hk | exact Hfs]].
    destruct (runs _) as [|x l]; [discriminate|]. exact Hl.
Qed.

End Loop.

Lemma numbered_fst (levels : list settings) : forall a n,
  (take n (numbered a levels)).*1
  = seq a (length (take n (numbered a levels))).
Proof.
  induction levels as [|s rest IH]; intros a n.
  - now destruct n.
  - destruct n as [|n]; [reflexivity|]. cbn. f_equal. apply IH.
Qed.

Lemma numbered_snd (levels : list settings) : forall a n,
  (take n (numbered a levels)).*2 = take n levels.
Proof.
  induction levels as [|s rest IH]; intros a n.
  - now destruct n.
  - destruct n as [|n]; [reflexivity|]. cbn. f_equal. apply IH.
Qed.

Lemma numbered_length (levels : list settings) (a : nat) :
  length (numbered a levels) = length levels.
Proof. revert a. induction levels as [|s rest IH]; intros a; cbn; auto. Qed.

Lemma compression_levels_length (t : Z) (levels : list settings) :
  compression_levels t = Ok levels -> length levels = 3%nat.
Proof.
  unfold compression_levels.
  destruct (Py.bind (int_mul_float t f0_8) int_of_float) as [b2|]; [|discriminate].
  destruct (Py.bind (int_mul_float t f0_6) int_of_float) as [b3|]; [|discriminate].
  now intros [= <-].
Qed.

Lemma slice_to_length {A} (n : Z) (l : list A) :
  Z.of_nat (length (slice_to n l))
  = if n <? 0 then Z.max 0 (Z.of_nat (length l) + n)
    else Z.min n (Z.of_nat (length l)).
Proof.
  unfold slice_to. destruct (Z.ltb_spec n 0); rewrite length_take; lia.
Qed.

Lemma ladder_of_length (probe : probe_result) (B max_attempts : Z)
    (ladder : list settings) :
  ladder_of probe B max_attempts = Some ladder ->
  Z.of_nat (length ladder)
  = if max_attempts <? 0 then Z.max 0 (3 + max_attempts)
    else Z.min max_attempts 3.
Proof.
  unfold ladder_of. destruct probe as [|[d|] [sz|]]; try discriminate.
  destruct (target_bitrate_of B d) as [t|]; [|discriminate]. cbn [Py.bind].
  destruct (compression_levels t) as [levels|] eqn:Hl; [|discriminate].
  intros [= <-]. rewrite slice_to_length, (compression_levels_length t levels Hl).
  reflexivity.
Qed.

(** X9. The attempts of [compress_video] are numbered 1, 2, ... without a gap;
    their rungs are the first rungs of the ladder, in order; and there are at
    most [max_attempts] of them and at most three, or, for a negative
    [max_attempts], at most that many less than three. *)
Theorem attempts_are_the_first_rungs
    (probe : probe_result) (enc : encoder) (input_path : string)
    (target_size_bytes max_attempts : Z) (fs : gmap string file) :
  let rs := runs (events_of (compress_video probe enc input_path
                               target_size_bytes max_attempts fs)) in
  rs.*1 = seq 1 (length rs)
  /\ Z.of_nat (length rs)
     <= (if max_attempts <? 0 then Z.max 0 (3 + max_attempts)
         else Z.min max_attempts 3)
  /\ forall ladder,
       ladder_of probe target_size_bytes max_attempts = Some ladder ->
       rs.*2 `prefix_of` ladder.
Proof.
  cbn zeta.
  destruct (ladder_of probe target_size_bytes max_attempts) as [ladder|] eqn:L.
  - rewrite (compress_video_runs _ _ _ _ _ ladder fs L).
    destruct (attempts_runs_prefix enc input_path (output_path_of input_path)
                target_size_bytes ladder 1%nat fs) as [n ->].
    split; [apply numbered_fst|]. split.
    + rewrite <- (ladder_of_length _ _ _ _ L), length_take, numbered_length.
      apply Nat2Z.inj_le, Nat.le_min_r.
    + intros ? [= <-]. rewrite numbered_snd. apply prefix_take.
  - rewrite (compress_video_no_runs _ _ _ _ _ fs L).
    split; [reflexivity|]. split; [|discriminate].
    cbn. destruct (Z.ltb_spec max_attempts 0); lia.
Qed.

(** X10. Whenever [compress_video] returns a path, it is the output path, the
    run made last wrote the file that is there, that run succeeded, and the
    file is within the budget. *)
Theorem returned_candidate_is_the_last_run
    (probe : probe_result) (enc : encoder) (input_path : string)
    (target_size_bytes max_attempts : Z) (fs : gmap string file) (p : string) :
  let r := compress_video probe enc input_path target_size_bytes max_attempts fs in
  value_of r = Ok (Some p) ->
  p = output_path_of input_path
  /\ exists k s f,
       last (runs (events_of r)) = Some (k, s)
       /\ enc k s = RunResult RunOk (Some f)
       /\ file_size f <= target_size_bytes
       /\ fs_of r !! p = Some f.
Proof.
  cbn zeta. intros Hv.
  destruct (ladder_of probe target_size_bytes max_attempts) as [ladder|] eqn:L.
  2: { destruct (compress_video_no_ladder probe enc input_path
                   target_size_bytes max_attempts fs L) as (_ & _ & [H|H]);
       rewrite Hv in H; [discriminate | destruct H]. }
  rewrite (compress_video_runs _ _ _ _ _ ladder fs L).
  rewrite (compress_video_ladder _ _ _ _ _ ladder fs L) in *. cbn zeta in *.
  destruct (value_of (attempts _ _ _ _ _ _ _)) as [q|] eqn:Hq;
    unfold value_of, fs_of in *; cbn [fst snd] in *; [|discriminate].
  injection Hv as ->.
  destruct (attempts_some enc input_path (output_path_of input_path)
              target_size_bytes ladder 1%nat fs p Hq) as (-> & _).
  split; [reflexivity|].
  destruct (attempts_returns_last enc input_path (output_path_of input_path)
              target_size_bytes ladder 1%nat fs _ Hq) as (k & s & Hl & Hfit & Hfs).
  unfold attempt_fits in Hfit.
  destruct (enc k s) as [[] [f|]] eqn:E; try discriminate.
  exists k, s, f. split; [exact Hl|]. split; [exact E|].
  split; [now apply Z.leb_le | exact Hfs].
Qed.

Lemma returned_candidate_example :
  Scenario.candidate = output_path_of Scenario.clip.
Proof.
  assert (H : value_of (compress_video Scenario.probe_ok Scenario.second_fits
                          Scenario.clip (8 * Scenario.MiB) 3 Scenario.disk)
              = Ok (Some Scenario.candidate)) by (vm_compute; reflexivity).
  exact (proj1 (returned_candidate_is_the_last_run _ _ _ _ _ _ _ H)).
Defined.

(** ** The bitrates of the ladder *)

Lemma int_of_float_nonneg (x : spec_float) (t : Z) :
  sign_clear x -> int_of_float x = Ok t -> 0 <= t.
Proof.
  destruct x as [s|s| |s m e]; cbn; try discriminate.
  - intros _ [= <-]. lia.
  - intros -> [= <-]. cbn. apply Z.quot_pos.
    + apply Z.mul_nonneg_nonneg; [lia|]. apply Z.pow_nonneg. lia.
    + apply Z.pow_pos_nonneg; lia.
Qed.

Lemma target_bitrate_nonneg (B : Z) (D : spec_float) (t : Z) :
  0 <= B -> SFltb (S754_zero false) D = true ->
  target_bitrate_of B D = Ok t -> 0 <= t.
Proof.
  intros HB HD. unfold target_bitrate_of, int_mul_float.
  destruct (float_of_int (B * 8)) as [x|] eqn:Hx; [|discriminate].
  cbn [Py.bind]. unfold float_truediv.
  assert (Hsign : sign_clear (SFdiv prec emax (float_mul x safety_margin) D)).
  { apply float_div_sign; [|exact HD].
    apply float_mul_sign; [now apply (float_of_int_sign (B * 8)); [lia|] | reflexivity]. }
  destruct D as [sd|sd| |sd md ed]; try discriminate; cbn [Py.bind];
    now apply int_of_float_nonneg.
Qed.

Lemma compression_levels_rungs (t : Z) (levels : list settings) :
  compression_levels t = Ok levels ->
  exists b2 b3,
    levels = [Settings t 28 "medium"; Settings b2 32 "fast";
              Settings b3 35 "veryfast"]
    /\ Py.bind (int_mul_float t f0_8) int_of_float = Ok b2
    /\ Py.bind (int_mul_float t f0_6) int_of_float = Ok b3.
Proof.
  unfold compression_levels.
  destruct (Py.bind (int_mul_float t f0_8) int_of_float) as [b2|]; [|discriminate].
  destruct (Py.bind (int_mul_float t f0_6) int_of_float) as [b3|]; [|discriminate].
  cbn. intros [= <-]. eauto.
Qed.

(** X11. Along the ladder the bitrate never goes up and never goes below zero,
    whatever the budget and the duration: each retry asks the encoder for at
    most what the attempt before asked for. *)
Theorem bitrates_never_increase
    (B : Z) (D : spec_float) (t : Z) (levels : list settings) :
  0 <= B ->
  SFltb (S754_zero false) D = true ->
  target_bitrate_of B D = Ok t ->
  compression_levels t = Ok levels ->
  exists b2 b3,
    levels = [Settings t 28 "medium"; Settings b2 32 "fast";
              Settings b3 35 "veryfast"]
    /\ 0 <= b3 /\ b3 <= b2 /\ b2 <= t.
Proof.
  intros HB HD Ht Hl.
  pose proof (target_bitrate_nonneg B D t HB HD Ht) as H0.
  destruct (compression_levels_rungs t levels Hl) as (b2 & b3 & -> & H2 & H3).
  exists b2, b3. split; [reflexivity|].
  destruct (Z_lt_le_dec t 6) as [Hsmall|Hbig].
  - assert (t = 0 \/ t = 1 \/ t = 2 \/ t = 3 \/ t = 4 \/ t = 5)
      as [->|[->|[->|[->|[->| ->]]]]] by lia;
      vm_compute in H2, H3; injection H2 as <-; injection H3 as <-; lia.
  - unfold int_mul_float in H2, H3.
    destruct (float_of_int t) as [x|] eqn:Hx; [|discriminate].
    cbn [Py.bind] in H2, H3.
    destruct (Rounding.float_of_int_R t x ltac:(lia) Hx) as (m & e & -> & HX).
    destruct (Rounding.scaled_bitrate_R t m e _ b2 ltac:(lia)
                ltac:(rewrite Rounding.F2R_f0_8; lra) HX H2) as (Y8 & HY8 & Hb2).
    destruct (Rounding.scaled_bitrate_R t m e _ b3 ltac:(lia)
                ltac:(rewrite Rounding.F2R_f0_6; lra) HX H3) as (Y6 & HY6 & Hb3).
    rewrite Rounding.F2R_f0_8 in HY8. rewrite Rounding.F2R_f0_6 in HY6.
    rewrite Rounding.u_value in *.
    apply Rounding.Rabs_bounds in HX, HY8, HY6.
    apply IZR_le in Hbig.
    set (X := F2R m e) in *. set (T := IZR t) in *.
    assert (Hb3' : -1 < b3) by (apply lt_IZR; lra).
    assert (H32 : b3 < b2) by (apply lt_IZR; lra).
    assert (H2t : b2 < t) by (apply lt_IZR; fold T; lra).
    lia.
Qed.

Lemma bitrates_never_increase_example :
  exists b2 b3,
    [Settings 1 28 "medium"; Settings 0 32 "fast"; Settings 0 35 "veryfast"]
    = [Settings 1 28 "medium"; Settings b2 32 "fast"; Settings b3 35 "veryfast"]
    /\ 0 <= b3 /\ b3 <= b2 /\ b2 <= 1.
Proof.
  apply (bitrates_never_increase 1 Scenario.four_seconds);
    [lia | reflexivity | vm_compute; reflexivity | vm_compute; reflexivity].
Defined.

End CompressorProperties.


(** * When the bitrates are computed *)

Module Magnitude.
Import Py Numbers FloatFacts Rounding Finite Compressor Ladder Observations.















End Magnitude.


(** * More about [process_video_url] *)

Module HandlerProperties.
Import Py Compressor Downloader VideoHandler Pipeline Ladder PathFacts LoopFacts
  CompressVideo HandlerFacts Observations.

#[local] Arguments add_reaction : simpl never.
#[local] Arguments cleanup_file : simpl never.
#[local] Arguments upload_video : simpl never.
#[local] Arguments compress_video : simpl never.
#[local] Arguments reaction_entries : simpl never.

Ltac process_cases cfg chat probe enc url fetch fs :=
  let fp := fresh "fp" in
  let f := fresh "f" in
  let title := fresh "title" in
  let Hbig := fresh "Hbig" in
  let Hon := fresh "Hon" in
  destruct fetch as [|fp f title];
  [ rewrite (process_fetch_fails cfg chat probe enc url fs)
  | destruct (MAX_FILE_SIZE cfg <? file_size f) eqn:Hbig;
    [ destruct (ENABLE_COMPRESSION cfg) eqn:Hon;
      [ rewrite (process_compress cfg chat probe enc url fp f title fs Hbig Hon);
        cbn zeta
      | rewrite (process_too_large cfg chat probe enc url fp f title fs Hbig Hon) ]
    | rewrite (process_small cfg chat probe enc url fp f title fs Hbig) ] ].

(** ** What is sent is within the limit *)

Lemma no_reply_sends_within (limit : Z) (t : list entry) :
  Forall silent (fst <$> t) -> Forall (sends_within limit) t.
Proof.
  intros H. rewrite Forall_fmap in H. apply (Forall_impl _ _ _ H).
  intros [e s] He. unfold sends_within. cbn in *. now destruct e.
Qed.

Lemma cleanup_file_sends_within (limit : Z) (p : string) (fs : gmap string file) :
  Forall (sends_within limit) (trace_of (cleanup_file p fs)).
Proof.
  rewrite cleanup_file_eq. project.
  destruct (bool_decide _); repeat constructor.
Qed.

Lemma handler_entries_sends_within (limit : Z) chat rp m fs :
  (forall name p, rp <> ReplyFile name p) ->
  Forall (sends_within limit) (handler_entries chat rp m fs).
Proof.
  intros Hrp. unfold handler_entries. constructor.
  - unfold sends_within. cbn. destruct rp; auto. now destruct (Hrp filename path).
  - apply no_reply_sends_within. rewrite fmap_app. apply Forall_app.
    split; [apply reaction_entries_silent | repeat constructor].
Qed.

Lemma upload_video_sends_within (limit : Z) chat (p title : string)
    (fs : gmap string file) (f : file) :
  fs !! p = Some f -> file_size f <= limit ->
  Forall (sends_within limit) (trace_of (upload_video chat p title fs)).
Proof.
  intros Hf Hsz. rewrite upload_video_eq. project. apply Forall_app.
  split; [|apply cleanup_file_sends_within].
  unfold upload_body. destruct (upload_verdict chat p fs).
  - constructor; [unfold sends_within; cbn; eauto|].
    apply no_reply_sends_within. rewrite fmap_app. apply Forall_app.
    split; [apply reaction_entries_silent | repeat constructor].
  - do 2 (constructor; [exact I|]).
    apply no_reply_sends_within, reaction_entries_silent.
  - do 2 (constructor; [exact I|]).
    apply no_reply_sends_within, reaction_entries_silent.
Qed.

(** X13. Whatever file [process_video_url] sends is on disk when it is sent
    and of at most [MAX_FILE_SIZE] bytes. *)
Theorem sent_file_is_within_the_limit
    (cfg : config) (chat : client) (fetch : fetch_result)
    (probe : probe_result) (enc : encoder) (url : string)
    (fs : gmap string file) :
  Forall (sends_within (MAX_FILE_SIZE cfg))
    (trace_of (process_video_url cfg chat fetch probe enc url fs)).
Proof.
  process_cases cfg chat probe enc url fetch fs; project.
  - apply Forall_app. split.
    { destruct (may_react chat Downloading); repeat constructor. }
    apply Forall_app. split; [repeat constructor|].
    now apply handler_entries_sends_within.
  - pose proof (compress_video_some probe enc fp (MAX_FILE_SIZE cfg)
                  (MAX_COMPRESSION_ATTEMPTS cfg) (<[fp := f]> fs)) as Hsome.
    pose proof (no_reply_sends_within (MAX_FILE_SIZE cfg) _
                  (compress_video_silent probe enc fp (MAX_FILE_SIZE cfg)
                     (MAX_COMPRESSION_ATTEMPTS cfg) (<[fp := f]> fs))) as Hc.
    assert (Hpre : Forall (sends_within (MAX_FILE_SIZE cfg))
                     (prelude chat url fp f fs
                      ++ (EvLog INFO MsgExceedsLimit, <[fp := f]> fs)
                      :: reaction_entries chat Compressing (<[fp := f]> fs))).
    { apply no_reply_sends_within. rewrite fmap_app, fmap_cons.
      apply Forall_app. split; [apply prelude_silent|].
      constructor; [exact I | apply reaction_entries_silent]. }
    destruct (value_of (compress_video _ _ _ _ _ _)) as [[p|]|e]; project.
    + destruct (Hsome _ eq_refl) as (-> & f' & Hf' & Hsz).
      apply Forall_app. split; [exact Hpre|].
      apply Forall_app. split; [exact Hc|].
      apply Forall_app. split; [apply cleanup_file_sends_within|].
      constructor; [exact I|].
      apply (upload_video_sends_within _ _ _ _ _ f'); [|exact Hsz].
      rewrite lookup_delete_ne by (apply not_eq_sym, output_path_fresh).
      exact Hf'.
    + apply Forall_app. split; [exact Hpre|].
      apply Forall_app. split; [exact Hc|].
      constructor; [exact I|].
      apply Forall_app. split; [|apply cleanup_file_sends_within].
      now apply handler_entries_sends_within.
    + apply Forall_app. split; [exact Hpre | exact Hc].
  - apply Forall_app. split; [apply no_reply_sends_within, prelude_silent|].
    apply Forall_app. split; [|apply cleanup_file_sends_within].
    now apply handler_entries_sends_within.
  - apply Forall_app. split; [apply no_reply_sends_within, prelude_silent|].
    apply (upload_video_sends_within _ _ _ _ _ f); [apply lookup_insert_eq|].
    apply Z.ltb_ge in Hbig. exact Hbig.
Qed.

(** ** Reactions *)













(** ** The permission to react *)

Lemma quiet_app (t t' : list entry) : quiet (t ++ t') = quiet t ++ quiet t'.
Proof. apply List.filter_app. Qed.

Lemma quiet_reaction_entries chat r fs : quiet (reaction_entries chat r fs) = [].
Proof. unfold reaction_entries. now destruct (may_react chat r). Qed.

Lemma quiet_prelude chat url fp f fs :
  quiet (prelude chat url fp f fs)
  = [(EvLog INFO MsgDownloading, fs);
     (EvDownload url, <[fp := f]> fs);
     (EvLog INFO MsgDownloadComplete, <[fp := f]> fs)].
Proof. unfold prelude. now destruct (may_react chat Downloading). Qed.

Lemma quiet_handler_entries chat rp m fs :
  m <> MsgMissingPermission ->
  quiet (handler_entries chat rp m fs) = [(EvReply rp, fs); (EvLog WARNING m, fs)].
Proof.
  intros Hm. unfold handler_entries, reaction_entries.
  destruct (may_react chat Failed); cbn; destruct m; try reflexivity;
    now destruct Hm.
Qed.

Lemma quiet_upload_video chat chat' p title fs :
  upload chat = upload chat' ->
  upload_outcome chat p fs = upload_outcome chat' p fs
  /\ quiet (trace_of (upload_video chat p title fs))
     = quiet (trace_of (upload_video chat' p title fs)).
Proof.
  intros H. rewrite !upload_video_eq. project.
  unfold upload_outcome, upload_body, upload_verdict. rewrite H.
  split; [reflexivity|]. rewrite !quiet_app. f_equal.
  destruct (if bool_decide _ then upload chat' else UploadException); cbn;
    rewrite ?quiet_app, ?quiet_reaction_entries; reflexivity.
Qed.

Ltac split_quiet :=
  repeat first
    [ rewrite quiet_app
    | match goal with
      | |- context [quiet (?x :: ?l)] =>
          lazymatch l with
          | [] => fail
          | _ => change (quiet (x :: l)) with (quiet [x] ++ quiet l)
          end
      end ].

(** X15. Whether the bot may add reactions changes nothing else: with the same
    answer to the attachment, two chat clients lead to the same exit, the same
    disk and, reactions and the warning about them apart, the same trace. *)
Theorem reactions_change_nothing_else
    (cfg : config) (chat chat' : client) (fetch : fetch_result)
    (probe : probe_result) (enc : encoder) (url : string)
    (fs : gmap string file) :
  let r := process_video_url cfg chat fetch probe enc url fs in
  let r' := process_video_url cfg chat' fetch probe enc url fs in
  upload chat = upload chat' ->
  value_of r = value_of r'
  /\ fs_of r = fs_of r'
  /\ quiet (trace_of r) = quiet (trace_of r').
Proof.
  cbn zeta. intros Hup.
  destruct fetch as [|fp f title].
  - rewrite !process_fetch_fails. project. repeat split.
    rewrite !quiet_app, !quiet_handler_entries by discriminate.
    now destruct (may_react chat Downloading), (may_react chat' Downloading).
  - destruct (MAX_FILE_SIZE cfg <? file_size f) eqn:Hbig;
      [destruct (ENABLE_COMPRESSION cfg) eqn:Hon|].
    + rewrite !(process_compress _ _ _ _ _ fp f title fs Hbig Hon). cbn zeta.
      destruct (value_of (compress_video _ _ _ _ _ _)) as [[p|]|e]; project.
      * destruct (quiet_upload_video chat chat' p title
                    (delete fp (fs_of (compress_video probe enc fp
                       (MAX_FILE_SIZE cfg) (MAX_COMPRESSION_ATTEMPTS cfg)
                       (<[fp := f]> fs)))) Hup) as [Ho Hq].
        rewrite Ho. repeat split. split_quiet.
        now rewrite Hq, !quiet_prelude, !quiet_reaction_entries.
      * repeat split. split_quiet.
        now rewrite !quiet_prelude, !quiet_reaction_entries,
          !quiet_handler_entries by discriminate.
      * repeat split. split_quiet.
        now rewrite !quiet_prelude, !quiet_reaction_entries.
    + rewrite !(process_too_large _ _ _ _ _ fp f title fs Hbig Hon). project.
      repeat split. split_quiet.
      now rewrite !quiet_prelude, !quiet_handler_entries by discriminate.
    + rewrite !(process_small _ _ _ _ _ fp f title fs Hbig). project.
      destruct (quiet_upload_video chat chat' fp title (<[fp := f]> fs) Hup)
        as [Ho Hq].
      rewrite Ho. repeat split. split_quiet.
      now rewrite Hq, !quiet_prelude.
Qed.

Lemma mute_example :
  value_of (process_video_url default_config Examples.chat_mute
              Scenario.big_fetch Scenario.probe_ok Scenario.second_fits
              Scenario.url ∅)
  = Ok (Delivered Scenario.candidate).
Proof.
  rewrite <- (proj1 (reactions_change_nothing_else default_config
                       Scenario.chat_ok Examples.chat_mute Scenario.big_fetch
                       Scenario.probe_ok Scenario.second_fits Scenario.url ∅
                       eq_refl)).
  vm_compute. reflexivity.
Defined.

(** ** When the encoder runs *)









(** ** What the handler touches *)







(** ** When the handler raises *)




End HandlerProperties.

Module HandlerTotality.
Import Py Numbers Compressor Downloader VideoHandler Pipeline Ladder LoopFacts
  CompressVideo HandlerFacts Magnitude Observations.



End HandlerTotality.


(** * [get_video_info] *)

Module InfoProperties.
Import CompressorInfo.

Lemma first_video_app (pre : list stream) (rest : list stream) :
  first_video pre = Some None ->
  first_video (pre ++ rest) = first_video rest.
Proof.
  induction pre as [|s pre IH]; [reflexivity|]. cbn.
  destruct (codec_type s) as [t|]; [|discriminate].
  destruct (String.eqb t "video"); [discriminate | exact IH].
Qed.

(** X20. [get_video_info] looks at the streams up to the first video stream
    only. Behind streams that are not video streams, a video stream gives the
    result it would give alone, whatever follows it; and a stream without a
    codec type there makes the probe fail, whatever follows it. *)
Theorem only_the_first_video_stream_counts
    (pre post : list stream) (s : stream) (fmt : option format) :
  first_video pre = Some None ->
  (codec_type s = Some "video" ->
   get_video_info (ProbeDict (Some (pre ++ s :: post)) fmt)
   = get_video_info (ProbeDict (Some [s]) fmt))
  /\ (codec_type s = None ->
      get_video_info (ProbeDict (Some (pre ++ s :: post)) fmt) = None).
Proof.
  intros Hpre. split; intros Hs; cbn;
    rewrite (first_video_app pre (s :: post) Hpre); cbn; rewrite Hs; reflexivity.
Qed.

Lemma only_the_first_video_stream_example :
  get_video_info
    (ProbeDict
       (Some [Stream (Some "audio") Absent Absent;
              Stream (Some "video") (Converted 1280) (Converted 720);
              Stream None Unconvertible Unconvertible])
       (Some (Format (Converted Scenario.sixty_seconds) (Converted 1000) Absent)))
  = Some (Info Scenario.sixty_seconds 1000 0 1280 720).
Proof.
  rewrite (proj1 (only_the_first_video_stream_counts
                    [Stream (Some "audio") Absent Absent]
                    [Stream None Unconvertible Unconvertible]
                    (Stream (Some "video") (Converted 1280) (Converted 720))
                    _ eq_refl) eq_refl).
  reflexivity.
Defined.

End InfoProperties.


(** * [on_message] *)

Module ListenerFacts.
Import Py Compressor Downloader VideoHandler Pipeline Ladder PathFacts LoopFacts
  CompressVideo HandlerFacts Validators Listener HandlerProperties.

#[local] Arguments process_video_url : simpl never.

Lemma process_video_url_trace (cfg : config) (c : client) (f : fetch_result)
    (p : probe_result) (e : encoder) (url : string) (fs : gmap string file) :
  trace_of (process_video_url cfg c f p e url fs) <> [].
Proof.
  process_cases cfg c p e url f fs; project;
    try (destruct (value_of (compress_video _ _ _ _ _ _)) as [[?|]|?]; project);
    unfold prelude; destruct (may_react c Downloading); discriminate.
Qed.


Lemma process_urls_cons (cfg : config) (world : nat -> environment) (k : nat)
    (url platform : string) (rest : list (string * string))
    (fs : gmap string file) :
  let r := process_video_url cfg (chat (world k)) (fetch (world k))
             (probe (world k)) (enc (world k)) url fs in
  process_urls cfg world k ((url, platform) :: rest) fs
  = match value_of r with
    | Raise e => (Raise e, fs_of r, trace_of r)
    | Ok _ =>
        let r' := process_urls cfg world (S k) rest (fs_of r) in
        (value_of r', fs_of r', trace_of r ++ trace_of r')
    end.
Proof.
  cbn zeta. cbn [process_urls]. unfold io_bind, io_ret.
  destruct (process_video_url _ _ _ _ _ _ _) as [[[o|e] fs1] t1]; project.
  - now destruct (process_urls _ _ _ _ _) as [[v fs2] t2].
  - now rewrite app_nil_r.
Qed.


End ListenerFacts.

Module ListenerProperties.
Import Py Compressor Downloader VideoHandler Pipeline Validators Listener
  ListenerFacts LoopFacts Observations.


Lemma on_message_urls (cfg : config) (world : nat -> environment)
    (message : chat_message) (fs : gmap string file) :
  on_message cfg world message fs
  = process_urls cfg world 0 (accepted_urls message) fs.
Proof.
  unfold on_message, accepted_urls.
  destruct (from_bot message); [reflexivity|].
  destruct (guild message); [|reflexivity].
  now destruct (extract_video_urls (content message)).
Qed.

(** X21. [on_message] does nothing at all, exactly when the message is the
    bot's own, or not from a guild, or has no word that a validator accepts. *)
Theorem ignored_messages_leave_no_trace
    (cfg : config) (world : nat -> environment) (message : chat_message)
    (fs : gmap string file) :
  trace_of (on_message cfg world message fs) = []
  <-> from_bot message = true
      \/ guild message = None
      \/ extract_video_urls (content message) = [].
Proof.
  rewrite on_message_urls. unfold accepted_urls.
  destruct (from_bot message); [split; auto|].
  destruct (guild message) as [g|]; [|split; auto].
  destruct (extract_video_urls (content message)) as [|[url platform] rest].
  - split; auto.
  - rewrite process_urls_cons. cbn zeta.
    pose proof (process_video_url_trace cfg (chat (world 0%nat))
                  (fetch (world 0%nat)) (probe (world 0%nat))
                  (enc (world 0%nat)) url fs) as Hne.
    split.
    + intros H. exfalso. apply Hne.
      destruct (value_of (process_video_url _ _ _ _ _ _ _)); project.
      * now apply app_eq_nil in H as [H _].
      * exact H.
    + intros [H|[H|H]]; discriminate.
Qed.


End ListenerProperties.
